(** * Crowny exchange: DEX engine, wallet store, trade executor,
      trading AI consensus and gateway rate limit

    A shallow embedding of the JavaScript sources

    - [lib/dex-engine.js]     (LiquidityPool, OrderBook, CrownyDEX),
    - [lib/db.js]             (CrownyDB wallet operations and auto-trade
                               counters),
    - [lib/trade-executor.js] (TradeExecutor._checkSafety, executeOrder,
                               recordTradeResult),
    - [lib/trading-ai.js]     (RSI, RSIStrategy, RiskManager,
                               TradingAI.analyze),
    - [lib/gateway.js]        (MetaKernelGateway._checkRateLimit, route,
                               the event log, _calculateQuantity),

    and the properties of the specification that concern them, followed
    by further properties of the same code.

    Numbers.  The pool arithmetic of the DEX works on whole token units
    (the gateway hands over [parseInt]ed amounts) and is modelled on [Z]:
    [Math.floor (a / b)] is [Z.div] when [b] is not zero, and the cases in
    which JavaScript leaves the finite numbers (a division by zero) are
    written out with [jsnum].  Prices, wallet balances, weights and
    confidences are fractional and are modelled as exact rationals [Q];
    the rounding of IEEE doubles is not modelled.  The wall clock
    ([Date.now ()]) is an explicit argument where the code branches on it
    and is left out of receipts, as is the hash of a swap. *)

From Stdlib Require Import ZArith QArith Lia Lqa List.
From stdpp Require Import base gmap strings list pretty.

Local Open Scope Z_scope.

(** ** JavaScript numbers outside the integers *)

(** The value of a floored division [Math.floor (a / b)] on integers:
    finite when [b <> 0], and [Infinity], [-Infinity] or [NaN] on a zero
    divisor, by the sign of the dividend. *)
Inductive jsnum : Type :=
| Fin (z : Z)
| PInf
| NInf
| NaN.

Definition js_floor_div (a b : Z) : jsnum :=
  if b =? 0
  then (if 0 <? a then PInf else if a <? 0 then NInf else NaN)
  else Fin (a / b).

(** [Math.min]: [NaN] is contagious, [-Infinity] is below everything and
    [Infinity] above everything. *)
Definition js_min (x y : jsnum) : jsnum :=
  match x, y with
  | NaN, _ | _, NaN => NaN
  | NInf, _ | _, NInf => NInf
  | PInf, v | v, PInf => v
  | Fin a, Fin b => Fin (Z.min a b)
  end.

(** [Math.floor (Math.sqrt n)]: [NaN] on a negative argument. *)
Definition js_floor_sqrt (n : Z) : jsnum :=
  if n <? 0 then NaN else Fin (Z.sqrt n).

(** Comparisons of a quotient [x / y] of rationals with a bound, as the
    JavaScript comparison evaluates them: on a zero divisor the quotient
    is [Infinity], [-Infinity] or [NaN], and every comparison with [NaN]
    is false. *)
Definition js_quot_gt (x y c : Q) : bool :=
  if Qeq_bool y 0
  then negb (Qle_bool x 0)
  else negb (Qle_bool (x / y) c).

Definition js_quot_lt (x y c : Q) : bool :=
  if Qeq_bool y 0
  then negb (Qle_bool 0 x)
  else negb (Qle_bool c (x / y)).

Definition Qltb (x y : Q) : bool := negb (Qle_bool y x).

(** ** A state and exception monad

    A method of a JavaScript object reads and writes the fields of [this]
    and may [throw]; a throw keeps every write made before it. *)
Module Eff.

Definition M (S E A : Type) : Type := S -> (E + A) * S.

Definition ret {S E A} (a : A) : M S E A := fun s => (inr a, s).

Definition bind {S E A B} (m : M S E A) (f : A -> M S E B) : M S E B :=
  fun s =>
    match m s with
    | (inl e, s') => (inl e, s')
    | (inr a, s') => f a s'
    end.

Definition throw {S E A} (e : E) : M S E A := fun s => (inl e, s).

Definition get {S E} : M S E S := fun s => (inr s, s).

Definition put {S E} (s : S) : M S E unit := fun _ => (inr tt, s).

Definition modify {S E} (f : S -> S) : M S E unit := fun s => (inr tt, f s).

(** [try m catch h]: the handler runs in the state reached at the throw. *)
Definition try_catch {S E A} (m : M S E A) (h : E -> M S E A) : M S E A :=
  fun s =>
    match m s with
    | (inl e, s') => h e s'
    | (inr a, s') => (inr a, s')
    end.

End Eff.

Notation "'let!' x ':=' c 'in' k" := (Eff.bind c (fun x => k))
  (at level 10, x name, c at level 100, k at level 200).
Notation "c ';;;' k" := (Eff.bind c (fun _ => k))
  (at level 100, k at level 200, right associativity).

(** ** lib/dex-engine.js: [LiquidityPool] *)
Module LiquidityPool.

Inductive error : Type :=
| InsufficientShares   (* 'LP 지분 부족' *)
| NoLiquidity          (* '유동성 없음' *)
| ZeroOutput           (* '출력량 0' *)
| NotFinite.           (* no throw in the code: a division by zero put
                          NaN or an infinity into the pool, and the
                          integer pool of this model ends here *)

Record Pool : Type := mkPool {
  id : string;
  tokenA : string;
  tokenB : string;
  reserveA : Z;
  reserveB : Z;
  k : Z;
  feeBps : Z;
  totalLpShares : Z;
  lpHolders : gmap string Z;
  volume24h : Z;
  feesCollected : Z;
  swapCount : Z;
  priceHistory : list Q;
  tritState : Z
}.

Inductive action : Type := Add | Remove.

Record LpReceipt : Type := mkLpReceipt {
  lp_poolId : string;
  lp_provider : string;
  lp_amountA : Z;
  lp_amountB : Z;
  lp_shares : Z;
  lp_action : action;
  lp_trit : Z
}.

Record SwapReceipt : Type := mkSwapReceipt {
  sw_poolId : string;
  sw_tokenIn : string;
  sw_tokenOut : string;
  sw_amountIn : Z;
  sw_amountOut : Z;
  sw_fee : Z;
  sw_impact : Q;
  sw_trit : Z
}.

Definition PoolM := Eff.M Pool error.

(** [constructor(tokenA, tokenB, feeBps = 30)] *)
Definition new (a b : string) (fee : Z) : Pool :=
  {| id := a +:+ "-" +:+ b; tokenA := a; tokenB := b;
     reserveA := 0; reserveB := 0; k := 0; feeBps := fee;
     totalLpShares := 0; lpHolders := ∅;
     volume24h := 0; feesCollected := 0; swapCount := 0;
     priceHistory := []; tritState := 0 |}.

Definition priceAinB (p : Pool) : Q :=
  if reserveA p =? 0 then 0%Q
  else (inject_Z (reserveB p) / inject_Z (reserveA p))%Q.

Definition priceBinA (p : Pool) : Q :=
  if reserveB p =? 0 then 0%Q
  else (inject_Z (reserveA p) / inject_Z (reserveB p))%Q.

(** [_recordPrice]: append the price, and drop the oldest entry once the
    history holds more than 1000. *)
Definition _recordPrice : PoolM unit :=
  Eff.modify (fun p =>
    let h := priceHistory p ++ [priceAinB p] in
    let h' := if (1000 <? Z.of_nat (length h)) then tail h else h in
    {| id := id p; tokenA := tokenA p; tokenB := tokenB p;
       reserveA := reserveA p; reserveB := reserveB p; k := k p;
       feeBps := feeBps p; totalLpShares := totalLpShares p;
       lpHolders := lpHolders p; volume24h := volume24h p;
       feesCollected := feesCollected p; swapCount := swapCount p;
       priceHistory := h'; tritState := tritState p |}).

(** [this.lpHolders[provider] || 0] *)
Definition held (p : Pool) (provider : string) : Z :=
  default 0 (lpHolders p !! provider).

Definition addLiquidity (provider : string) (amountA amountB : Z)
  : PoolM LpReceipt :=
  let! p := Eff.get in
  let shares_js :=
    if totalLpShares p =? 0
    then js_floor_sqrt (amountA * amountB)
    else js_min (js_floor_div (amountA * totalLpShares p) (reserveA p))
                (js_floor_div (amountB * totalLpShares p) (reserveB p)) in
  match shares_js with
  | Fin shares =>
      let rA := reserveA p + amountA in
      let rB := reserveB p + amountB in
      Eff.put {| id := id p; tokenA := tokenA p; tokenB := tokenB p;
                 reserveA := rA; reserveB := rB; k := rA * rB;
                 feeBps := feeBps p;
                 totalLpShares := totalLpShares p + shares;
                 lpHolders := <[provider := held p provider + shares]> (lpHolders p);
                 volume24h := volume24h p; feesCollected := feesCollected p;
                 swapCount := swapCount p; priceHistory := priceHistory p;
                 tritState := 1 |} ;;;
      _recordPrice ;;;
      Eff.ret {| lp_poolId := id p; lp_provider := provider;
                 lp_amountA := amountA; lp_amountB := amountB;
                 lp_shares := shares; lp_action := Add; lp_trit := 1 |}
  | _ => Eff.throw NotFinite
  end.

Definition removeLiquidity (provider : string) (shares : Z)
  : PoolM LpReceipt :=
  let! p := Eff.get in
  if held p provider <? shares then Eff.throw InsufficientShares else
  match js_floor_div (shares * reserveA p) (totalLpShares p),
        js_floor_div (shares * reserveB p) (totalLpShares p),
        lpHolders p !! provider with
  | Fin amountA, Fin amountB, Some h =>
      let rA := reserveA p - amountA in
      let rB := reserveB p - amountB in
      Eff.put {| id := id p; tokenA := tokenA p; tokenB := tokenB p;
                 reserveA := rA; reserveB := rB; k := rA * rB;
                 feeBps := feeBps p;
                 totalLpShares := totalLpShares p - shares;
                 lpHolders := <[provider := h - shares]> (lpHolders p);
                 volume24h := volume24h p; feesCollected := feesCollected p;
                 swapCount := swapCount p; priceHistory := priceHistory p;
                 tritState := tritState p |} ;;;
      _recordPrice ;;;
      Eff.ret {| lp_poolId := id p; lp_provider := provider;
                 lp_amountA := amountA; lp_amountB := amountB;
                 lp_shares := shares; lp_action := Remove; lp_trit := 1 |}
  | _, _, _ =>
      (* a payout that is not finite, or [undefined - shares] for a
         provider without an entry *)
      Eff.throw NotFinite
  end.

(** [impact < 0.01 ? 1 : impact < 0.05 ? 0 : -1] *)
Definition trit_of_impact (impact : Q) : Z :=
  if Qltb impact (1 # 100) then 1
  else if Qltb impact (5 # 100) then 0 else -1.

Definition swapAtoB (amountIn : Z) : PoolM SwapReceipt :=
  let! p := Eff.get in
  if (reserveA p =? 0) || (reserveB p =? 0) then Eff.throw NoLiquidity else
  let fee := amountIn * feeBps p / 10000 in
  let afterFee := amountIn - fee in
  let newA := reserveA p + afterFee in
  match js_floor_div (k p) newA with
  | Fin newB =>
      let amountOut := reserveB p - newB in
      if amountOut <=? 0 then Eff.throw ZeroOutput else
      let impact :=
        (1 - inject_Z (newB * reserveA p) / inject_Z (reserveB p * newA))%Q in
      Eff.put {| id := id p; tokenA := tokenA p; tokenB := tokenB p;
                 reserveA := newA; reserveB := newB; k := newA * newB;
                 feeBps := feeBps p; totalLpShares := totalLpShares p;
                 lpHolders := lpHolders p;
                 volume24h := volume24h p + amountIn;
                 feesCollected := feesCollected p + fee;
                 swapCount := swapCount p + 1;
                 priceHistory := priceHistory p;
                 tritState := tritState p |} ;;;
      _recordPrice ;;;
      Eff.ret {| sw_poolId := id p; sw_tokenIn := tokenA p;
                 sw_tokenOut := tokenB p; sw_amountIn := amountIn;
                 sw_amountOut := amountOut; sw_fee := fee;
                 sw_impact := impact; sw_trit := trit_of_impact impact |}
  | PInf => Eff.throw ZeroOutput      (* amountOut = -Infinity <= 0 *)
  | NInf | NaN => Eff.throw NotFinite (* the check lets Infinity and NaN pass *)
  end.

Definition swapBtoA (amountIn : Z) : PoolM SwapReceipt :=
  let! p := Eff.get in
  if (reserveA p =? 0) || (reserveB p =? 0) then Eff.throw NoLiquidity else
  let fee := amountIn * feeBps p / 10000 in
  let afterFee := amountIn - fee in
  let newB := reserveB p + afterFee in
  match js_floor_div (k p) newB with
  | Fin newA =>
      let amountOut := reserveA p - newA in
      if amountOut <=? 0 then Eff.throw ZeroOutput else
      let impact :=
        (1 - inject_Z (newA * reserveB p) / inject_Z (reserveA p * newB))%Q in
      Eff.put {| id := id p; tokenA := tokenA p; tokenB := tokenB p;
                 reserveA := newA; reserveB := newB; k := newA * newB;
                 feeBps := feeBps p; totalLpShares := totalLpShares p;
                 lpHolders := lpHolders p;
                 volume24h := volume24h p + amountIn;
                 feesCollected := feesCollected p + fee;
                 swapCount := swapCount p + 1;
                 priceHistory := priceHistory p;
                 tritState := tritState p |} ;;;
      _recordPrice ;;;
      Eff.ret {| sw_poolId := id p; sw_tokenIn := tokenB p;
                 sw_tokenOut := tokenA p; sw_amountIn := amountIn;
                 sw_amountOut := amountOut; sw_fee := fee;
                 sw_impact := impact; sw_trit := trit_of_impact impact |}
  | PInf => Eff.throw ZeroOutput
  | NInf | NaN => Eff.throw NotFinite
  end.

(** The pool [CRWN-USDT] as [CrownyDEX._bootstrap] leaves it: created with
    a fee of 30 basis points and funded by [__system__]. *)
Definition crwn_usdt : Pool :=
  snd (addLiquidity "__system__" 10000000 1250000 (new "CRWN" "USDT" 30)).

(** The pool [CRWN-BTC] after the bootstrap. *)
Definition crwn_btc : Pool :=
  snd (addLiquidity "__system__" 5000000 50 (new "CRWN" "BTC" 30)).

End LiquidityPool.

(** ** lib/dex-engine.js: [OrderBook] *)
Module OrderBook.

Inductive status_t : Type := Open | Partial | Filled | Cancelled.

Record Order : Type := mkOrder {
  id : string;
  owner : string;
  poolId : string;
  side : string;
  price : Q;
  amount : Z;
  filled : Z;
  status : status_t;
  trit : Z
}.

Record Match : Type := mkMatch {
  buyId : string;
  sellId : string;
  fill : Z;
  m_price : Q
}.

(** The array [orders] holds the order objects; an object is identified
    by its position, so that the arrays [buys] and [sells] of [match_]
    refer to the very objects of [orders]. *)
Record t : Type := mkBook {
  orders : list Order;
  counter : N
}.

Definition new : t := {| orders := []; counter := 0 |}.

Definition place (owner_ poolId_ side_ : string) (price_ : Q) (amount_ : Z)
  (ob : t) : Order * t :=
  let o := {| id := "ORD-" +:+ pretty (counter ob); owner := owner_;
              poolId := poolId_; side := side_; price := price_;
              amount := amount_; filled := 0; status := Open; trit := 0 |} in
  (o, {| orders := orders ob ++ [o]; counter := (counter ob + 1)%N |}).

Definition is_open (s : status_t) : bool :=
  match s with Open => true | _ => false end.

(** The predicate of the two [filter] calls of [match_]. *)
Definition selects (poolId_ side_ : string) (o : Order) : bool :=
  String.eqb (poolId o) poolId_ && String.eqb (side o) side_
  && is_open (status o).

(** [orders.filter (...)], as the list of the positions kept, each with
    the price read by the comparator of [sort]. *)
Fixpoint filter_from (i : nat) (f : Order -> bool) (l : list Order)
  : list (nat * Q) :=
  match l with
  | [] => []
  | o :: l' =>
      if f o then (i, price o) :: filter_from (S i) f l'
      else filter_from (S i) f l'
  end.

(** [Array.prototype.sort] is stable: an insertion sort that keeps equal
    keys in their order.  [before x y] says that the comparator does not
    put [y] strictly before [x]. *)
Fixpoint insert_by (before : Q -> Q -> bool) (x : nat * Q)
  (l : list (nat * Q)) : list (nat * Q) :=
  match l with
  | [] => [x]
  | y :: l' =>
      if before (snd x) (snd y) then x :: y :: l'
      else y :: insert_by before x l'
  end.

Definition sort_by (before : Q -> Q -> bool) (l : list (nat * Q))
  : list (nat * Q) :=
  foldr (insert_by before) [] l.

(** [(a, b) => b.price - a.price]: descending. *)
Definition desc (a b : Q) : bool := Qle_bool b a.
(** [(a, b) => a.price - b.price]: ascending. *)
Definition asc (a b : Q) : bool := Qle_bool a b.

Definition set_filled (v : Z) (o : Order) : Order :=
  {| id := id o; owner := owner o; poolId := poolId o; side := side o;
     price := price o; amount := amount o; filled := v;
     status := status o; trit := trit o |}.

Definition set_trit (v : Z) (o : Order) : Order :=
  {| id := id o; owner := owner o; poolId := poolId o; side := side o;
     price := price o; amount := amount o; filled := filled o;
     status := status o; trit := v |}.

Definition set_status (v : status_t) (o : Order) : Order :=
  {| id := id o; owner := owner o; poolId := poolId o; side := side o;
     price := price o; amount := amount o; filled := filled o;
     status := v; trit := trit o |}.

(** [o.status = o.filled >= o.amount ? 'filled' : 'partial'] *)
Definition restatus (o : Order) : Order :=
  set_status (if amount o <=? filled o then Filled else Partial) o.

(** The body of the inner loop of [match_] for the objects at positions
    [bi] (buy) and [si] (sell), statement by statement on the store. *)
Definition match_pair (bi si : nat) (st : list Order * list Match)
  : list Order * list Match :=
  let '(os, ms) := st in
  match os !! bi, os !! si with
  | Some buy, Some sell =>
      if Qle_bool (price sell) (price buy) then
        let fill_ := Z.min (amount buy - filled buy) (amount sell - filled sell) in
        if 0 <? fill_ then
          let os1 := alter (fun o => set_filled (filled o + fill_) o) bi os in
          let os2 := alter (fun o => set_filled (filled o + fill_) o) si os1 in
          let os3 := alter (set_trit 1) bi os2 in
          let os4 := alter (set_trit 1) si os3 in
          let os5 := alter restatus bi os4 in
          let os6 := alter restatus si os5 in
          (os6, ms ++ [ {| buyId := id buy; sellId := id sell;
                           fill := fill_; m_price := price sell |} ])
        else st
      else st
  | _, _ => st
  end.

Definition match_loop (buys sells : list nat) (st : list Order * list Match)
  : list Order * list Match :=
  fold_left (fun st1 bi => fold_left (fun st2 si => match_pair bi si st2) sells st1)
            buys st.

(** [match(poolId)]; [match] is a keyword of Rocq. *)
Definition match_ (poolId_ : string) (ob : t) : list Match * t :=
  let buys := sort_by desc (filter_from 0 (selects poolId_ "buy") (orders ob)) in
  let sells := sort_by asc (filter_from 0 (selects poolId_ "sell") (orders ob)) in
  let '(os, ms) := match_loop (map fst buys) (map fst sells) (orders ob, []) in
  (ms, {| orders := os; counter := counter ob |}).

(** [orders.find (x => x.id === orderId)]: the first position that holds
    the id. *)
Fixpoint find_id (orderId : string) (l : list Order) : option nat :=
  match l with
  | [] => None
  | o :: l' =>
      if String.eqb (id o) orderId then Some O
      else option_map S (find_id orderId l')
  end.

Definition cancel (orderId : string) (ob : t) : t :=
  match find_id orderId (orders ob) with
  | Some i =>
      {| orders := alter (fun o => set_trit (-1) (set_status Cancelled o)) i (orders ob);
         counter := counter ob |}
  | None => ob
  end.

Definition openOrders (poolId_ : string) (ob : t) : list Order :=
  List.filter (fun o => String.eqb (poolId o) poolId_ && is_open (status o))
              (orders ob).

(** Every position that [match_] hands to its loops held an open order
    when the call started. *)
Definition open_at (os0 : list Order) (j : nat) : Prop :=
  exists o, os0 !! j = Some o /\ status o = Open.

(** What the matcher may do to an order: nothing to one that was not open
    at the start of the call; an open one is open, partial or filled
    afterwards. *)
Definition advanced (o0 o : Order) : Prop :=
  (status o0 <> Open -> o = o0)
  /\ (status o0 = Open ->
      status o = Open \/ status o = Partial \/ status o = Filled).

Definition book_advanced (os0 os : list Order) : Prop :=
  forall i o0, os0 !! i = Some o0 -> exists o, os !! i = Some o /\ advanced o0 o.

(** The statements of the loop body keep or advance a status. *)
Definition gentle (f : Order -> Order) : Prop :=
  forall o, status (f o) = status o
            \/ status (f o) = Partial \/ status (f o) = Filled.

End OrderBook.

(** ** lib/db.js: [CrownyDB], the wallet, venue-order and auto-trade
       tables *)
Module CrownyDB.

Inductive error : Type :=
| InsufficientBalance    (* '잔액 부족: ...' *)
| InsufficientAvailable. (* '가용 잔액 부족: ...' *)

(** A row of [wallets], [UNIQUE(user_id, token)]. *)
Record WalletRow : Type := mkWallet {
  balance : Q;
  locked : Q
}.

(** A row of [auto_trade_config], [UNIQUE(user_id, exchange)]. *)
Record AutoTradeConfig : Type := mkConfig {
  enabled : bool;
  symbols : string;
  max_position_pct : Q;
  stop_loss_pct : Q;
  take_profit_pct : Q;
  min_confidence : Q;
  max_daily_trades : Z;
  daily_trades_used : Z;
  consecutive_losses : Z;
  max_consecutive_losses : Z
}.

Inductive order_status : Type :=
| Pending
| Submitted
| Failed
| VenueStatus (s : string).   (* [result.status] as the venue reports it *)

(** A row of [exchange_orders]; its id is its position plus one. *)
Record ExchangeOrder : Type := mkExchangeOrder {
  eo_userId : string;
  eo_exchange : string;
  eo_symbol : string;
  eo_side : string;
  eo_type : string;
  eo_price : option Q;
  eo_quantity : Q;
  eo_status : order_status;
  eo_exchangeOrderId : string;
  eo_filledQty : Q;
  eo_filledPrice : Q;
  eo_source : string;
  eo_aiSignalId : option Z;
  eo_error : option string
}.

Record t : Type := mkDB {
  wallets : gmap (string * string) WalletRow;
  auto_trade_config : gmap (string * string) AutoTradeConfig;
  exchange_orders : list ExchangeOrder
}.

Definition DBM := Eff.M t error.

Definition with_wallets (w : gmap (string * string) WalletRow) (db : t) : t :=
  {| wallets := w; auto_trade_config := auto_trade_config db;
     exchange_orders := exchange_orders db |}.

(** [getBalance]: the row, or [{ balance: 0, locked: 0 }] without one. *)
Definition getBalance (userId token : string) (db : t) : WalletRow :=
  default {| balance := 0; locked := 0 |} (wallets db !! (userId, token)).

(** [getAllBalances]: the rows of a user. *)
Definition getAllBalances (userId : string) (db : t) : list (string * WalletRow) :=
  omap (fun kv => if String.eqb (fst (fst kv)) userId
                  then Some (snd (fst kv), snd kv) else None)
       (map_to_list (wallets db)).

(** [setBalance]: [INSERT ... ON CONFLICT DO UPDATE SET balance = ?]; a new
    row has [locked] at its default 0, an existing one keeps it. *)
Definition setBalance (userId token : string) (b : Q) (db : t) : t :=
  with_wallets
    (<[(userId, token) :=
         {| balance := b;
            locked := match wallets db !! (userId, token) with
                      | Some r => locked r
                      | None => 0%Q
                      end |}]> (wallets db)) db.

Definition addBalance (userId token : string) (amount : Q) : DBM unit :=
  let! db := Eff.get in
  let current := getBalance userId token db in
  Eff.put (setBalance userId token (balance current + amount)%Q db).

Definition subtractBalance (userId token : string) (amount : Q) : DBM unit :=
  let! db := Eff.get in
  let current := getBalance userId token db in
  if Qltb (balance current) amount then Eff.throw InsufficientBalance else
  Eff.put (setBalance userId token (balance current - amount)%Q db).

(** [lockBalance]: the [UPDATE] touches the row only if there is one. *)
Definition lockBalance (userId token : string) (amount : Q) : DBM unit :=
  let! db := Eff.get in
  let current := getBalance userId token db in
  if Qltb (balance current - locked current)%Q amount
  then Eff.throw InsufficientAvailable else
  Eff.put (with_wallets
             (alter (fun r => {| balance := balance r;
                                 locked := (locked r + amount)%Q |})
                    (userId, token) (wallets db)) db).

(** [unlockBalance]: [SET locked = MAX(0, locked - ?)]. *)
Definition unlockBalance (userId token : string) (amount : Q) : DBM unit :=
  let! db := Eff.get in
  Eff.put (with_wallets
             (alter (fun r => {| balance := balance r;
                                 locked := if Qle_bool 0 (locked r - amount)
                                           then (locked r - amount)%Q
                                           else 0%Q |})
                    (userId, token) (wallets db)) db).

(** [available = balance - locked] *)
Definition available (r : WalletRow) : Q := (balance r - locked r)%Q.

Definition getAutoTradeConfig (userId exchange : string) (db : t)
  : option AutoTradeConfig :=
  auto_trade_config db !! (userId, exchange).

(** [saveExchangeOrder]: insert, and return [lastInsertRowid]. *)
Definition saveExchangeOrder (o : ExchangeOrder) (db : t) : Z * t :=
  (Z.of_nat (length (exchange_orders db)) + 1,
   {| wallets := wallets db; auto_trade_config := auto_trade_config db;
      exchange_orders := exchange_orders db ++ [o] |}).

(** [updateExchangeOrder (id, updates)] *)
Definition updateExchangeOrder (id : Z) (f : ExchangeOrder -> ExchangeOrder)
  (db : t) : t :=
  {| wallets := wallets db; auto_trade_config := auto_trade_config db;
     exchange_orders :=
       if 0 <? id then alter f (Z.to_nat (id - 1)) (exchange_orders db)
       else exchange_orders db |}.

Definition incrementDailyTrades (userId exchange : string) (db : t) : t :=
  {| wallets := wallets db;
     auto_trade_config :=
       alter (fun c =>
                {| enabled := enabled c; symbols := symbols c;
                   max_position_pct := max_position_pct c;
                   stop_loss_pct := stop_loss_pct c;
                   take_profit_pct := take_profit_pct c;
                   min_confidence := min_confidence c;
                   max_daily_trades := max_daily_trades c;
                   daily_trades_used := daily_trades_used c + 1;
                   consecutive_losses := consecutive_losses c;
                   max_consecutive_losses := max_consecutive_losses c |})
             (userId, exchange) (auto_trade_config db);
     exchange_orders := exchange_orders db |}.

(** The data model of a wallet row: [0 <= locked <= balance]. *)
Definition row_ok (r : WalletRow) : Prop :=
  (0 <= locked r)%Q /\ (locked r <= balance r)%Q.

(** [mint]: a deposit. *)
Definition mint (userId token : string) (amount : Q) : DBM unit :=
  addBalance userId token amount.

(** A configuration row with its two counters written. *)
Definition with_counters (c : AutoTradeConfig) (used losses : Z)
  : AutoTradeConfig :=
  {| enabled := enabled c; symbols := symbols c;
     max_position_pct := max_position_pct c;
     stop_loss_pct := stop_loss_pct c;
     take_profit_pct := take_profit_pct c;
     min_confidence := min_confidence c;
     max_daily_trades := max_daily_trades c;
     daily_trades_used := used;
     consecutive_losses := losses;
     max_consecutive_losses := max_consecutive_losses c |}.

(** [resetDailyTrades]: an [UPDATE] without [WHERE], on every row. *)
Definition resetDailyTrades (db : t) : t :=
  {| wallets := wallets db;
     auto_trade_config :=
       (fun c => with_counters c 0 (consecutive_losses c))
         <$> auto_trade_config db;
     exchange_orders := exchange_orders db |}.

Definition incrementConsecutiveLosses (userId exchange : string) (db : t) : t :=
  {| wallets := wallets db;
     auto_trade_config :=
       alter (fun c => with_counters c (daily_trades_used c)
                                   (consecutive_losses c + 1))
             (userId, exchange) (auto_trade_config db);
     exchange_orders := exchange_orders db |}.

Definition resetConsecutiveLosses (userId exchange : string) (db : t) : t :=
  {| wallets := wallets db;
     auto_trade_config :=
       alter (fun c => with_counters c (daily_trades_used c) 0)
             (userId, exchange) (auto_trade_config db);
     exchange_orders := exchange_orders db |}.

End CrownyDB.

(** ** lib/trade-executor.js: [TradeExecutor] *)
Module TradeExecutor.

Import CrownyDB.

Inductive safety_error : Type :=
| DailyLimit          (* '일일 거래 한도 초과' *)
| ConsecutiveLosses   (* '연속 손실 한도 도달' *)
| PositionSize.       (* '포지션 크기 초과' *)

Inductive error : Type :=
| SafetyBlocked (errors : list safety_error)   (* '안전장치 차단: ...' *)
| NoApiKey                                    (* 'API 키가 설정되지 않았습니다' *)
| UnsupportedExchange                         (* '지원하지 않는 거래소' *)
| VenueError (message : string).

(** What the executor reads of the answer of a venue. *)
Record VenueResult : Type := mkVenueResult {
  vr_status : option string;
  vr_orderId : string;
  vr_executedQty : Q;
  vr_price : option Q
}.

Record Receipt : Type := mkReceipt {
  r_orderId : Z;
  r_exchangeResult : option VenueResult;
  r_exchange : string;
  r_symbol : string;
  r_side : string;
  r_type : string;
  r_quantity : Q;
  r_price : option Q
}.

(** [price || 1]: a price that is absent or zero counts as 1. *)
Definition price_or_1 (price : option Q) : Q :=
  match price with
  | Some p => if Qeq_bool p 0 then 1%Q else p
  | None => 1%Q
  end.

(** [Object.values(balances).reduce((sum, b) => sum + b.balance, 0)] *)
Definition totalValue (rows : list (string * WalletRow)) : Q :=
  fold_left (fun sum b => (sum + balance (snd b))%Q) rows 0%Q.

(** The three tests of [_checkSafety] on a configuration row. *)
Definition daily_cap_reached (c : AutoTradeConfig) : bool :=
  max_daily_trades c <=? daily_trades_used c.

Definition loss_cap_reached (c : AutoTradeConfig) : bool :=
  max_consecutive_losses c <=? consecutive_losses c.

Definition position_too_large (c : AutoTradeConfig) (total orderValue : Q) : bool :=
  Qltb 0 total && Qltb (max_position_pct c) (orderValue / total).

Definition _checkSafety (userId exchange side : string) (quantity : Q)
  (price : option Q) (db : t) : bool * list safety_error :=
  let errors :=
    match getAutoTradeConfig userId exchange db with
    | Some config =>
        (if daily_cap_reached config then [DailyLimit] else [])
        ++ (if loss_cap_reached config then [ConsecutiveLosses] else [])
        ++ (let total := totalValue (getAllBalances userId db) in
            let orderValue := (quantity * price_or_1 price)%Q in
            if position_too_large config total orderValue
            then [PositionSize] else [])
    | None => []
    end in
  (match errors with [] => true | _ => false end, errors).

Section Venue.

(** The collaborators of the executor: the key manager ([apiKeyManager.get]
    finds keys or not) and the venue behind [trader.placeOrder], which
    answers a request or fails.  The cache of trader objects does not
    change what a call returns and is left out. *)
Variable has_keys : string -> string -> bool.
Variable venue : string -> string -> string -> Q -> option Q -> string
                 -> string + VenueResult.

Definition ExecM := Eff.M CrownyDB.t error.

Definition _getTrader (userId exchange : string) : ExecM unit :=
  if negb (has_keys userId exchange) then Eff.throw NoApiKey
  else if String.eqb exchange "upbit" || String.eqb exchange "binance"
       then Eff.ret tt
       else Eff.throw UnsupportedExchange.

Definition call_venue (exchange symbol side type : string) (quantity : Q)
  (price : option Q) : ExecM (option VenueResult) :=
  let answer (r : string + VenueResult) : ExecM (option VenueResult) :=
    match r with
    | inl msg => Eff.throw (VenueError msg)
    | inr v => Eff.ret (Some v)
    end in
  if String.eqb exchange "upbit" then
    let upbitSide := if String.eqb side "buy" then "bid" else "ask" in
    let ordType := if String.eqb type "market"
                   then (if String.eqb side "buy" then "price" else "market")
                   else "limit" in
    answer (venue exchange symbol upbitSide quantity price ordType)
  else if String.eqb exchange "binance" then
    answer (venue exchange symbol side quantity price type)
  else Eff.ret None.

Definition set_submitted (price : option Q) (res : VenueResult)
  (o : ExchangeOrder) : ExchangeOrder :=
  {| eo_userId := eo_userId o; eo_exchange := eo_exchange o;
     eo_symbol := eo_symbol o; eo_side := eo_side o; eo_type := eo_type o;
     eo_price := eo_price o; eo_quantity := eo_quantity o;
     eo_status := match vr_status res with
                  | Some s => if String.eqb s "" then Submitted else VenueStatus s
                  | None => Submitted
                  end;
     eo_exchangeOrderId := vr_orderId res;
     eo_filledQty := vr_executedQty res;
     eo_filledPrice := match vr_price res with
                       | Some p => if Qeq_bool p 0 then default 0%Q price else p
                       | None => default 0%Q price
                       end;
     eo_source := eo_source o; eo_aiSignalId := eo_aiSignalId o;
     eo_error := eo_error o |}.

Definition error_message (e : error) : string :=
  match e with
  | SafetyBlocked _ => "안전장치 차단"
  | NoApiKey => "API 키가 설정되지 않았습니다"
  | UnsupportedExchange => "지원하지 않는 거래소"
  | VenueError m => m
  end.

Definition set_failed (msg : string) (o : ExchangeOrder) : ExchangeOrder :=
  {| eo_userId := eo_userId o; eo_exchange := eo_exchange o;
     eo_symbol := eo_symbol o; eo_side := eo_side o; eo_type := eo_type o;
     eo_price := eo_price o; eo_quantity := eo_quantity o;
     eo_status := Failed;
     eo_exchangeOrderId := eo_exchangeOrderId o;
     eo_filledQty := eo_filledQty o; eo_filledPrice := eo_filledPrice o;
     eo_source := eo_source o; eo_aiSignalId := eo_aiSignalId o;
     eo_error := Some (String.substring 0 500 msg) |}.

Definition executeOrder (userId exchange symbol side type : string)
  (quantity : Q) (price : option Q) (source : string) (aiSignalId : option Z)
  : ExecM Receipt :=
  (* 1. the safety gate *)
  let! db := Eff.get in
  let safety := _checkSafety userId exchange side quantity price db in
  if negb (fst safety) then Eff.throw (SafetyBlocked (snd safety)) else
  (* 2. the pending row *)
  let '(orderId, db1) :=
    saveExchangeOrder
      {| eo_userId := userId; eo_exchange := exchange; eo_symbol := symbol;
         eo_side := side; eo_type := type; eo_price := price;
         eo_quantity := quantity; eo_status := Pending;
         eo_exchangeOrderId := ""; eo_filledQty := 0; eo_filledPrice := 0;
         eo_source := source; eo_aiSignalId := aiSignalId;
         eo_error := None |} db in
  Eff.put db1 ;;;
  Eff.try_catch
    ((* 3. the venue *)
     _getTrader userId exchange ;;;
     let! result := call_venue exchange symbol side type quantity price in
     match result with
     | Some res =>
         (* 4. the row, 5. the daily counter *)
         Eff.modify (updateExchangeOrder orderId (set_submitted price res)) ;;;
         Eff.modify (incrementDailyTrades userId exchange) ;;;
         Eff.ret {| r_orderId := orderId; r_exchangeResult := result;
                    r_exchange := exchange; r_symbol := symbol;
                    r_side := side; r_type := type;
                    r_quantity := quantity; r_price := price |}
     | None =>
         (* [result] is undefined: reading [result.status] throws *)
         Eff.throw (VenueError "TypeError")
     end)
    (fun e =>
       Eff.modify (updateExchangeOrder orderId (set_failed (error_message e))) ;;;
       Eff.throw e).

End Venue.

(** The gate in the words of the specification, with [price ?? 1]: only an
    absent price counts as 1. *)
Definition price_else_1 (price : option Q) : Q :=
  match price with
  | Some p => p
  | None => 1%Q
  end.

Definition gate_as_specified (c : AutoTradeConfig) (total quantity : Q)
  (price : option Q) : bool :=
  daily_cap_reached c || loss_cap_reached c
  || position_too_large c total (quantity * price_else_1 price)%Q.

(** [recordTradeResult (userId, exchange, isProfit)] *)
Definition recordTradeResult (userId exchange : string) (isProfit : bool)
  (db : CrownyDB.t) : CrownyDB.t :=
  if isProfit then resetConsecutiveLosses userId exchange db
  else incrementConsecutiveLosses userId exchange db.

(** The row that [executeOrder] inserts before it calls the venue. *)
Definition pending_row (userId exchange symbol side type : string)
  (quantity : Q) (price : option Q) (source : string) (aiSignalId : option Z)
  : ExchangeOrder :=
  {| eo_userId := userId; eo_exchange := exchange; eo_symbol := symbol;
     eo_side := side; eo_type := type; eo_price := price;
     eo_quantity := quantity; eo_status := Pending;
     eo_exchangeOrderId := ""; eo_filledQty := 0; eo_filledPrice := 0;
     eo_source := source; eo_aiSignalId := aiSignalId;
     eo_error := None |}.

End TradeExecutor.

(** ** lib/trading-ai.js: [RiskManager] and [TradingAI] *)
Module TradingAI.

Record Candle : Type := mkCandle {
  open : Q;
  high : Q;
  low : Q;
  close : Q;
  volume : Q
}.

(** What [Strategy.analyze] returns: [signal] is 1 (buy), 0 (hold) or -1
    (sell); the text [reason] is left out. *)
Record Verdict : Type := mkVerdict {
  signal : Z;
  confidence : Q
}.

Record Strategy : Type := mkStrategy {
  name : string;
  weight : Q;
  analyze_ : list Candle -> Verdict
}.

(** [{ name: s.name, weight: s.weight, ...r }] *)
Record Result : Type := mkResult {
  r_name : string;
  r_weight : Q;
  r_signal : Z;
  r_confidence : Q
}.

Record Position : Type := mkPosition {
  entryPrice : Q;
  p_amount : Q
}.

Record RiskManager : Type := mkRisk {
  maxPositionSize : Q;
  maxDrawdown : Q;
  stopLossPercent : Q;
  takeProfitPercent : Q;
  maxDailyTrades : Z;
  dailyTrades : Z;
  peakBalance : Q;
  positions : gmap string Position
}.

Inductive level : Type := Block | StopLoss | TakeProfit.

Record RiskReport : Type := mkReport {
  allowed : bool;
  risks : list level;
  maxSize : Q
}.

Inductive decision_t : Type := Buy | Sell | Hold.

Record Analysis : Type := mkAnalysis {
  a_decision : decision_t;
  a_trit : Z;
  a_score : Q;
  a_confidence : Q;
  a_strategies : list Result;
  a_risk : option RiskReport
}.

(** [config.x || d] *)
Definition or_default (x : option Q) (d : Q) : Q :=
  match x with
  | Some v => if Qeq_bool v 0 then d else v
  | None => d
  end.

(** [new RiskManager(config)] *)
Definition new_risk (maxPositionSize_ maxDrawdown_ stopLoss_ takeProfit_ : option Q)
  (maxDailyTrades_ : option Z) : RiskManager :=
  {| maxPositionSize := or_default maxPositionSize_ (1 # 10);
     maxDrawdown := or_default maxDrawdown_ (15 # 100);
     stopLossPercent := or_default stopLoss_ (3 # 100);
     takeProfitPercent := or_default takeProfit_ (6 # 100);
     maxDailyTrades := match maxDailyTrades_ with
                       | Some n => if n =? 0 then 10 else n
                       | None => 10
                       end;
     dailyTrades := 0; peakBalance := 0; positions := ∅ |}.

Definition set_peak (v : Q) (rm : RiskManager) : RiskManager :=
  {| maxPositionSize := maxPositionSize rm; maxDrawdown := maxDrawdown rm;
     stopLossPercent := stopLossPercent rm;
     takeProfitPercent := takeProfitPercent rm;
     maxDailyTrades := maxDailyTrades rm; dailyTrades := dailyTrades rm;
     peakBalance := v; positions := positions rm |}.

Definition is_block (l : level) : bool :=
  match l with Block => true | _ => false end.
Definition is_stoploss (l : level) : bool :=
  match l with StopLoss => true | _ => false end.
Definition is_takeprofit (l : level) : bool :=
  match l with TakeProfit => true | _ => false end.

Definition checkRisk (symbol : string) (price balance : Q) (rm : RiskManager)
  : RiskReport * RiskManager :=
  let r1 := if maxDailyTrades rm <=? dailyTrades rm then [Block] else [] in
  let rm' := if Qltb (peakBalance rm) balance then set_peak balance rm else rm in
  let r2 := if js_quot_gt (peakBalance rm' - balance) (peakBalance rm') (maxDrawdown rm')
            then [Block] else [] in
  let maxSize_ := (balance * maxPositionSize rm')%Q in
  let r3 :=
    match positions rm' !! symbol with
    | Some pos =>
        (if js_quot_lt (price - entryPrice pos) (entryPrice pos) (- stopLossPercent rm')
         then [StopLoss] else [])
        ++ (if js_quot_gt (price - entryPrice pos) (entryPrice pos) (takeProfitPercent rm')
            then [TakeProfit] else [])
    | None => []
    end in
  let risks_ := r1 ++ r2 ++ r3 in
  ({| allowed := negb (existsb is_block risks_); risks := risks_;
      maxSize := maxSize_ |}, rm').

Definition recordTrade (symbol side : string) (price amount : Q)
  (rm : RiskManager) : RiskManager :=
  {| maxPositionSize := maxPositionSize rm; maxDrawdown := maxDrawdown rm;
     stopLossPercent := stopLossPercent rm;
     takeProfitPercent := takeProfitPercent rm;
     maxDailyTrades := maxDailyTrades rm; dailyTrades := dailyTrades rm + 1;
     peakBalance := peakBalance rm;
     positions :=
       if String.eqb side "buy"
       then <[symbol := {| entryPrice := price; p_amount := amount |}]> (positions rm)
       else if String.eqb side "sell" then delete symbol (positions rm)
       else positions rm |}.

(** The loop of the weighted vote: [(weightedSum, totalWeight,
    totalConfidence)] over the results with a positive confidence. *)
Definition vote (acc : Q * Q * Q) (r : Result) : Q * Q * Q :=
  let '(weightedSum, totalWeight, totalConfidence) := acc in
  if Qltb 0 (r_confidence r)
  then ((weightedSum + inject_Z (r_signal r) * r_weight r * r_confidence r)%Q,
        (totalWeight + r_weight r * r_confidence r)%Q,
        (totalConfidence + r_confidence r)%Q)
  else acc.

Definition tally (results : list Result) : Q * Q * Q :=
  fold_left vote results (0%Q, 0%Q, 0%Q).

Definition avgScore (results : list Result) : Q :=
  let '(weightedSum, totalWeight, _) := tally results in
  if Qltb 0 totalWeight then (weightedSum / totalWeight)%Q else 0%Q.

Definition avgConfidence (results : list Result) : Q :=
  let '(_, _, totalConfidence) := tally results in
  match results with
  | [] => 0%Q
  | _ => (totalConfidence / inject_Z (Z.of_nat (length results)))%Q
  end.

(** [score > 0.3 -> buy; score < -0.3 -> sell; else hold] *)
Definition decide_ (score : Q) : decision_t :=
  if Qltb (3 # 10) score then Buy
  else if Qltb score (- (3 # 10)) then Sell
  else Hold.

Definition trit_of (d : decision_t) : Z :=
  match d with Buy => 1 | Sell => -1 | Hold => 0 end.

(** The two overrides after the risk check: a blocked buy or sell becomes
    hold, and a stop-loss or take-profit trigger forces a sell. *)
Definition apply_risk (d : decision_t) (risk : RiskReport) : decision_t :=
  let d1 := if negb (allowed risk) then Hold else d in
  if existsb is_stoploss (risks risk) || existsb is_takeprofit (risks risk)
  then Sell else d1.

Record t : Type := mkAI {
  strategies : list Strategy;
  riskManager : RiskManager
}.

Definition run_strategy (candles : list Candle) (s : Strategy) : Result :=
  let r := analyze_ s candles in
  {| r_name := name s; r_weight := weight s;
     r_signal := signal r; r_confidence := confidence r |}.

(** [analyze(candles, symbol = 'UNKNOWN', balance = 100000)]; the numbers
    of the answer are kept exact ([toFixed] formats them in the code). *)
Definition analyze (candles : list Candle) (symbol : string) (balance : Q)
  (ai : t) : Analysis * t :=
  if (length candles <? 50)%nat then
    ({| a_decision := Hold; a_trit := 0; a_score := 0; a_confidence := 0;
        a_strategies := []; a_risk := None |}, ai)
  else
    let results := map (run_strategy candles) (strategies ai) in
    let score := avgScore results in
    let conf := avgConfidence results in
    let decision0 := decide_ score in
    let currentPrice := close (List.last candles (mkCandle 0 0 0 0 0)) in
    let '(risk, rm') := checkRisk symbol currentPrice balance (riskManager ai) in
    let decision := apply_risk decision0 risk in
    ({| a_decision := decision; a_trit := trit_of decision;
        a_score := score; a_confidence := conf;
        a_strategies := List.filter (fun r => Qltb 0 (r_confidence r)) results;
        a_risk := Some risk |},
     {| strategies := strategies ai; riskManager := rm' |}).

Section Strategies.

(** The six analyzers; their indicator arithmetic (moving averages, a
    square root in the Bollinger bands) is taken as given. *)
Variables rsi macd bollinger volume_ trend stochastic : list Candle -> Verdict.

Definition six : list Strategy :=
  [ {| name := "RSI"; weight := 15 # 10; analyze_ := rsi |};
    {| name := "MACD"; weight := 13 # 10; analyze_ := macd |};
    {| name := "Bollinger"; weight := 12 # 10; analyze_ := bollinger |};
    {| name := "Volume"; weight := 8 # 10; analyze_ := volume_ |};
    {| name := "Trend"; weight := 1; analyze_ := trend |};
    {| name := "Stochastic"; weight := 7 # 10; analyze_ := stochastic |} ].

(** [new TradingAI({ risk })] *)
Definition new (maxPositionSize_ maxDrawdown_ stopLoss_ takeProfit_ : option Q)
  (maxDailyTrades_ : option Z) : t :=
  {| strategies := six;
     riskManager := new_risk maxPositionSize_ maxDrawdown_ stopLoss_
                             takeProfit_ maxDailyTrades_ |}.

End Strategies.

(** The sums of the specification:
    [weightedSum = Σ signal·weight·confidence] and
    [totalWeight = Σ weight·confidence] over the strategies with
    [confidence > 0]. *)
Definition contributes (r : Result) : bool := Qltb 0 (r_confidence r).

Definition Qsum (l : list Q) : Q := foldr Qplus 0%Q l.

Definition weightedSum_spec (results : list Result) : Q :=
  Qsum (map (fun r => (inject_Z (r_signal r) * r_weight r * r_confidence r)%Q)
            (List.filter contributes results)).

Definition totalWeight_spec (results : list Result) : Q :=
  Qsum (map (fun r => (r_weight r * r_confidence r)%Q)
            (List.filter contributes results)).

(** The weight behind one side of the vote. *)
Definition weight_of (s : Z) (results : list Result) : Q :=
  Qsum (map (fun r => (r_weight r * r_confidence r)%Q)
            (List.filter (fun r => contributes r && (r_signal r =? s)) results)).

(** Votes that all go one way, each with confidence 1. *)
Definition votes_all (s : Z) (results : list Result) : Prop :=
  Forall (fun r => r_signal r = s /\ (r_confidence r == 1)%Q /\ (0 < r_weight r)%Q)
         results.

(** Votes split between the two sides: the weighted sum is the weight
    behind +1 less the weight behind -1. *)
Definition three_valued (results : list Result) : Prop :=
  Forall (fun r => r_signal r = 1 \/ r_signal r = 0 \/ r_signal r = -1) results.

(** A verdict as the six analyzers give them: a signal of 1, 0 or -1 and a
    confidence of at most 1. *)
Definition verdict_ok (v : Verdict) : Prop :=
  (signal v = 1 \/ signal v = 0 \/ signal v = -1) /\ (confidence v <= 1)%Q.

(** The close of the last candle, [candles[candles.length - 1].close]. *)
Definition currentPrice (candles : list Candle) : Q :=
  close (List.last candles (mkCandle 0 0 0 0 0)).

(** *** Indicators *)

(** [avgLoss === 0 ? 100 : 100 - 100 / (1 + avgGain / avgLoss)] *)
Definition rsi_value (avgGain avgLoss : Q) : Q :=
  if Qeq_bool avgLoss 0 then 100%Q
  else (100 - 100 / (1 + avgGain / avgLoss))%Q.

(** The loop of [RSI] from index [i >= 1], with [prev = closes[i-1]]. *)
Fixpoint RSI_from (period i : Z) (prev avgGain avgLoss : Q) (closes : list Q)
  : list (option Q) :=
  match closes with
  | [] => []
  | c :: rest =>
      let change := (c - prev)%Q in
      let gain := if Qltb 0 change then change else 0%Q in
      let loss := if Qltb change 0 then (- change)%Q else 0%Q in
      if i <=? period then
        let g := (avgGain + gain / inject_Z period)%Q in
        let l := (avgLoss + loss / inject_Z period)%Q in
        (if i <? period then None else Some (rsi_value g l))
          :: RSI_from period (i + 1) c g l rest
      else
        let g := ((avgGain * (inject_Z period - 1) + gain) / inject_Z period)%Q in
        let l := ((avgLoss * (inject_Z period - 1) + loss) / inject_Z period)%Q in
        Some (rsi_value g l) :: RSI_from period (i + 1) c g l rest
  end.

(** [RSI(closes, period = 14)]; [null] is [None].  A period of 0 divides
    by zero and puts [NaN] and infinities into the averages, where this
    model ends. *)
Definition RSI (closes : list Q) (period : Z) : option (list (option Q)) :=
  if period =? 0 then None
  else Some match closes with
            | [] => []
            | c0 :: rest => None :: RSI_from period 1 c0 0 0 rest
            end.

(** [rsi[rsi.length - k]] for [k] 1 or 2, and whether it is truthy:
    [undefined], [null] and 0 are not. *)
Definition from_end (k : nat) (l : list (option Q)) : option Q :=
  if (length l <? k)%nat then None
  else mjoin (l !! (length l - k)%nat).

Definition truthy (x : option Q) : bool :=
  match x with
  | Some v => negb (Qeq_bool v 0)
  | None => false
  end.

(** [RSIStrategy.analyze], with the thresholds [os] and [ob] of the
    constructor (30 and 70 by default). *)
Definition RSIStrategy_analyze (period : Z) (os ob : Q) (candles : list Candle)
  : option Verdict :=
  match RSI (map close candles) period with
  | None => None
  | Some rsi =>
      let current := from_end 1 rsi in
      let prev := from_end 2 rsi in
      Some
        match current with
        | Some cur =>
            if negb (truthy current) then {| signal := 0; confidence := 0 |}
            else if Qltb cur os
                    && match prev with
                       | Some p => truthy prev && Qle_bool os p
                       | None => false
                       end
            then {| signal := 1; confidence := 8 # 10 |}
            else if Qltb cur os then {| signal := 1; confidence := 6 # 10 |}
            else if Qltb ob cur
                    && match prev with
                       | Some p => truthy prev && Qle_bool p ob
                       | None => false
                       end
            then {| signal := -1; confidence := 8 # 10 |}
            else if Qltb ob cur then {| signal := -1; confidence := 6 # 10 |}
            else if Qltb 45 cur && Qltb cur 55
            then {| signal := 0; confidence := 3 # 10 |}
            else {| signal := if Qltb cur 50 then 1 else -1;
                    confidence := 3 # 10 |}
        | None => {| signal := 0; confidence := 0 |}
        end
  end.

End TradingAI.

(** [lra] takes the sums as atoms once they are variables. *)
Ltac forget_sums :=
  repeat match goal with
         | |- context [TradingAI.Qsum ?l] =>
             let q := fresh "q" in generalize (TradingAI.Qsum l); intro q
         end.

Ltac step_sums :=
  repeat match goal with
         | |- context [TradingAI.Qsum (?x :: ?l)] =>
             change (TradingAI.Qsum (x :: l)) with (x + TradingAI.Qsum l)%Q
         end.

(** ** lib/gateway.js: the rate limit of [MetaKernelGateway] *)
Module MetaKernelGateway.

Inductive error : Type :=
| RateLimited                          (* 'RATE_LIMITED: ...' *)
| UnknownService (service : string)
| ServiceError (message : string).

Record RateEntry : Type := mkEntry {
  count : Z;
  resetAt : Z
}.

Record Event : Type := mkEvent {
  type : string;
  service : string;
  action : string;
  userId : string
}.

Record t : Type := mkGateway {
  rateLimits : gmap string RateEntry;
  eventLog : list Event
}.

Definition RATE_LIMIT : Z := 100.
Definition RATE_WINDOW : Z := 60000.

Definition new : t := {| rateLimits := ∅; eventLog := [] |}.

(** [_checkRateLimit(userId)], with [now = Date.now()] in milliseconds.
    The entry of the map is an object: [limit.count++] writes through to
    the map. *)
Definition _checkRateLimit (userId_ : string) (now : Z) (g : t) : bool * t :=
  let limit :=
    match rateLimits g !! userId_ with
    | Some l => if resetAt l <? now
                then {| count := 0; resetAt := now + RATE_WINDOW |}
                else l
    | None => {| count := 0; resetAt := now + RATE_WINDOW |}
    end in
  let limit' := {| count := count limit + 1; resetAt := resetAt limit |} in
  (count limit' <=? RATE_LIMIT,
   {| rateLimits := <[userId_ := limit']> (rateLimits g);
      eventLog := eventLog g |}).

(** [_logEvent]: a ring of at most 1000 events. *)
Definition _logEvent (e : Event) (g : t) : t :=
  let l := eventLog g ++ [e] in
  {| rateLimits := rateLimits g;
     eventLog := if (1000 <? length l)%nat then tail l else l |}.

Section Route.

Variable A : Type.
(** The four routers behind [route].  Of the state of the gateway they
    reach the event log only ([rateLimits] is read and written by
    [_checkRateLimit] alone); their errors are messages. *)
Variables _routeDex _routeAI _routeExchange _routeAutoTrade
  : string -> string -> Eff.M (list Event) string A.

Definition lift_router (m : Eff.M (list Event) string A) : Eff.M t error A :=
  fun g =>
    match m (eventLog g) with
    | (inl msg, log) =>
        (inl (ServiceError msg), {| rateLimits := rateLimits g; eventLog := log |})
    | (inr a, log) =>
        (inr a, {| rateLimits := rateLimits g; eventLog := log |})
    end.

Definition route (service_ action_ : string) (userId_ : string) (now : Z)
  : Eff.M t error A :=
  let! g := Eff.get in
  let '(ok, g1) := _checkRateLimit userId_ now g in
  Eff.put g1 ;;;
  if negb ok then Eff.throw RateLimited else
  Eff.modify (_logEvent {| type := "route"; service := service_;
                           action := action_; userId := userId_ |}) ;;;
  if String.eqb service_ "dex" then lift_router (_routeDex action_ userId_)
  else if String.eqb service_ "ai" then lift_router (_routeAI action_ userId_)
  else if String.eqb service_ "exchange" then lift_router (_routeExchange action_ userId_)
  else if String.eqb service_ "auto" then lift_router (_routeAutoTrade action_ userId_)
  else Eff.throw (UnknownService service_).

(** Whether a call got past the rate check: every outcome but the
    [RATE_LIMITED] error. *)
Definition admitted (r : error + A) : bool :=
  match r with
  | inl RateLimited => false
  | _ => true
  end.

(** A run of calls of one principal at the given times. *)
Fixpoint calls (service_ action_ userId_ : string) (times : list Z) (g : t)
  : list bool * t :=
  match times with
  | [] => ([], g)
  | now :: rest =>
      let '(r, g1) := route service_ action_ userId_ now g in
      let '(rs, g2) := calls service_ action_ userId_ rest g1 in
      (admitted r :: rs, g2)
  end.

End Route.

(** [getEventLog(limit = 50)]: [eventLog.slice(-limit)].  A negative start
    counts from the end; [-0] is 0, so a limit of 0 gives the whole log. *)
Definition getEventLog (limit : Z) (g : t) : list Event :=
  let n := Z.of_nat (length (eventLog g)) in
  let start := if 0 <? limit then Z.max (n - limit) 0 else Z.min (- limit) n in
  drop (Z.to_nat start) (eventLog g).




End MetaKernelGateway.

(** ** Scenarios *)
Module Scenario.

(** The receipt and the pool of a swap that returned. *)
Definition no_receipt : LiquidityPool.SwapReceipt :=
  LiquidityPool.mkSwapReceipt "" "" "" 0 0 0 0 0.

Definition receipt (x : (LiquidityPool.error + LiquidityPool.SwapReceipt)
                        * LiquidityPool.Pool) : LiquidityPool.SwapReceipt :=
  match fst x with
  | inr r => r
  | inl _ => no_receipt
  end.

(** [swapAtoB x] on a pool and then [swapBtoA] of what it returned. *)
Definition there (x : Z) (p : LiquidityPool.Pool) :=
  LiquidityPool.swapAtoB x p.

Definition back_again (x : Z) (p : LiquidityPool.Pool) :=
  LiquidityPool.swapBtoA (LiquidityPool.sw_amountOut (receipt (there x p)))
                         (snd (there x p)).

Import OrderBook.

(** A buy of 5 at price 2 and a sell of 5 at price 1 on one pool, then a
    run of the matcher: both orders are filled. *)
Definition crossed_book : OrderBook.t :=
  let ob1 := snd (place "alice" "CRWN-USDT" "buy" 2 5 OrderBook.new) in
  let ob2 := snd (place "bob" "CRWN-USDT" "sell" 1 5 ob1) in
  snd (match_ "CRWN-USDT" ob2).

(** A buy of 10 at price 2 meets a sell of 4 at price 1: the buy is left
    partial with 4 filled.  A second sell of 6 at price 1 then arrives. *)
Definition partial_book : OrderBook.t :=
  let ob1 := snd (place "alice" "CRWN-USDT" "buy" 2 10 OrderBook.new) in
  let ob2 := snd (place "bob" "CRWN-USDT" "sell" 1 4 ob1) in
  let ob3 := snd (match_ "CRWN-USDT" ob2) in
  snd (place "carol" "CRWN-USDT" "sell" 1 6 ob3).

(** A wallet of 100 USDT of which 60 are locked: a deposit and a lock on
    an empty store. *)
Definition empty_db : CrownyDB.t :=
  {| CrownyDB.wallets := ∅; CrownyDB.auto_trade_config := ∅;
     CrownyDB.exchange_orders := [] |}.

Definition locked_wallet : CrownyDB.t :=
  snd (CrownyDB.lockBalance "alice" "USDT" 60
         (snd (CrownyDB.addBalance "alice" "USDT" 100 empty_db))).

(** A principal with one wallet row and an auto-trade configuration for
    binance. *)
Definition config_with (pct : Q) (used losses : Z) : CrownyDB.AutoTradeConfig :=
  {| CrownyDB.enabled := true; CrownyDB.symbols := "BTCUSDT,ETHUSDT";
     CrownyDB.max_position_pct := pct;
     CrownyDB.stop_loss_pct := 3 # 100; CrownyDB.take_profit_pct := 6 # 100;
     CrownyDB.min_confidence := 7 # 10;
     CrownyDB.max_daily_trades := 10; CrownyDB.daily_trades_used := used;
     CrownyDB.consecutive_losses := losses;
     CrownyDB.max_consecutive_losses := 3 |}.

Definition trader_db (balance_ pct : Q) (used losses : Z) : CrownyDB.t :=
  {| CrownyDB.wallets :=
       {[ ("alice", "USDT") := {| CrownyDB.balance := balance_;
                                  CrownyDB.locked := 0 |} ]};
     CrownyDB.auto_trade_config :=
       {[ ("alice", "binance") := config_with pct used losses ]};
     CrownyDB.exchange_orders := [] |}.

(** A venue that accepts every order, and a key manager that knows the
    keys of everyone. *)
Definition any_keys (userId exchange : string) : bool := true.

Definition accepting_venue (exchange symbol side : string) (quantity : Q)
  (price : option Q) (type : string) : string + TradeExecutor.VenueResult :=
  inr {| TradeExecutor.vr_status := None; TradeExecutor.vr_orderId := "1";
         TradeExecutor.vr_executedQty := quantity;
         TradeExecutor.vr_price := price |}.

(** Fifty flat candles, six analyzers that all vote buy with confidence 1,
    and the trading AI as the server configures it. *)
Definition flat_candles : list TradingAI.Candle :=
  repeat (TradingAI.mkCandle 100 100 100 100 1) 50.

Definition bullish (_ : list TradingAI.Candle) : TradingAI.Verdict :=
  {| TradingAI.signal := 1; TradingAI.confidence := 1 |}.

Definition bullish_ai : TradingAI.t :=
  TradingAI.new bullish bullish bullish bullish bullish bullish
                (Some (1 # 10)) None (Some (3 # 100)) (Some (6 # 100)) None.

(** [runBacktest] starts by calling [analyze] with its initial balance of
    10000000; the risk manager keeps that balance as its peak. *)
Definition after_backtest : TradingAI.t :=
  snd (TradingAI.analyze flat_candles "BACKTEST" 10000000 bullish_ai).

(** A router that answers at once, and a gateway on which one principal
    has made 100 calls at time 0. *)
Definition idle_router (action_ userId_ : string)
  : Eff.M (list MetaKernelGateway.Event) string unit :=
  Eff.ret tt.

Definition call_at (now : Z) (g : MetaKernelGateway.t) :=
  MetaKernelGateway.route unit idle_router idle_router idle_router idle_router
    "dex" "pools" "alice" now g.

Definition hundred_calls :=
  MetaKernelGateway.calls unit idle_router idle_router idle_router idle_router
    "dex" "pools" "alice" (repeat 0 100) MetaKernelGateway.new.

End Scenario.

(** ** lib/dex-engine.js: [CrownyDEX] *)
Module CrownyDEX.

Inductive error : Type :=
| PoolNotFound                          (* '풀 없음' *)
| InsufficientBalance (token : string)  (* '${token} 잔액 부족' *)
| PoolError (e : LiquidityPool.error)   (* thrown by the pool *)
| TypeError                             (* a property read on [undefined] *)
| NotANumber.                           (* no throw: [undefined - amount]
                                           stored NaN as a balance, where
                                           the integer balances end *)

Record Token : Type := mkToken {
  symbol : string;
  name : string;
  totalSupply : Z;
  decimals : Z;
  tritState : Z
}.

(** The pools are objects held by the map [pools]; what a method of a
    pool writes is seen through the map. *)
Record t : Type := mkDex {
  pools : gmap string LiquidityPool.Pool;
  tokens : gmap string Token;
  balances : gmap string (gmap string Z);
  orderBook : OrderBook.t;
  swapHistory : list LiquidityPool.SwapReceipt;
  lpHistory : list LiquidityPool.LpReceipt;
  totalVolume : Z;
  totalFees : Z
}.

Definition DexM := Eff.M t error.


Definition with_balances (b : gmap string (gmap string Z)) (d : t) : t :=
  {| pools := pools d; tokens := tokens d; balances := b;
     orderBook := orderBook d; swapHistory := swapHistory d;
     lpHistory := lpHistory d; totalVolume := totalVolume d;
     totalFees := totalFees d |}.

Definition with_pool (poolId : string) (p : LiquidityPool.Pool) (d : t) : t :=
  {| pools := <[poolId := p]> (pools d); tokens := tokens d;
     balances := balances d; orderBook := orderBook d;
     swapHistory := swapHistory d; lpHistory := lpHistory d;
     totalVolume := totalVolume d; totalFees := totalFees d |}.

Definition registerToken (sym name_ : string) (supply : Z) (d : t) : t :=
  {| pools := pools d;
     tokens := <[sym := {| symbol := sym; name := name_; totalSupply := supply;
                           decimals := 9; tritState := 1 |}]> (tokens d);
     balances := balances d; orderBook := orderBook d;
     swapHistory := swapHistory d; lpHistory := lpHistory d;
     totalVolume := totalVolume d; totalFees := totalFees d |}.

(** [(this.balances[user] && this.balances[user][token]) || 0] *)
Definition balance (user token : string) (d : t) : Z :=
  match balances d !! user with
  | Some row => default 0 (row !! token)
  | None => 0
  end.

Definition mint (user token : string) (amount : Z) (d : t) : t :=
  let row := default ∅ (balances d !! user) in
  with_balances
    (<[user := <[token := default 0 (row !! token) + amount]> row]> (balances d)) d.


(** [this.balances[user][token] -= amount]: a [TypeError] without a row
    for the user, and [NaN] without an entry for the token. *)
Definition debit (user token : string) (amount : Z) : DexM unit :=
  let! d := Eff.get in
  match balances d !! user with
  | None => Eff.throw TypeError
  | Some row =>
      match row !! token with
      | None => Eff.throw NotANumber
      | Some v =>
          Eff.put (with_balances
                     (<[user := <[token := v - amount]> row]> (balances d)) d)
      end
  end.

(** A method of the pool [poolId], run on the object in the map. *)
Definition on_pool {A : Type} (poolId : string) (pool : LiquidityPool.Pool)
  (m : LiquidityPool.PoolM A) : DexM A :=
  fun d =>
    match m pool with
    | (inl e, pool') => (inl (PoolError e), with_pool poolId pool' d)
    | (inr a, pool') => (inr a, with_pool poolId pool' d)
    end.

Definition addLiquidity (user poolId : string) (amountA amountB : Z)
  : DexM LiquidityPool.LpReceipt :=
  let! d := Eff.get in
  match pools d !! poolId with
  | None => Eff.throw PoolNotFound
  | Some pool =>
      if balance user (LiquidityPool.tokenA pool) d <? amountA
      then Eff.throw (InsufficientBalance (LiquidityPool.tokenA pool)) else
      if balance user (LiquidityPool.tokenB pool) d <? amountB
      then Eff.throw (InsufficientBalance (LiquidityPool.tokenB pool)) else
      debit user (LiquidityPool.tokenA pool) amountA ;;;
      debit user (LiquidityPool.tokenB pool) amountB ;;;
      let! receipt :=
        on_pool poolId pool (LiquidityPool.addLiquidity user amountA amountB) in
      Eff.modify (fun d1 =>
        {| pools := pools d1; tokens := tokens d1; balances := balances d1;
           orderBook := orderBook d1; swapHistory := swapHistory d1;
           lpHistory := lpHistory d1 ++ [receipt];
           totalVolume := totalVolume d1; totalFees := totalFees d1 |}) ;;;
      Eff.ret receipt
  end.


Definition with_book (ob : OrderBook.t) (d : t) : t :=
  {| pools := pools d; tokens := tokens d; balances := balances d;
     orderBook := ob; swapHistory := swapHistory d; lpHistory := lpHistory d;
     totalVolume := totalVolume d; totalFees := totalFees d |}.

Definition placeOrder (user poolId side : string) (price : Q) (amount : Z)
  (d : t) : OrderBook.Order * t :=
  let '(o, ob) := OrderBook.place user poolId side price amount (orderBook d) in
  (o, with_book ob d).

Definition matchOrders (poolId : string) (d : t) : list OrderBook.Match * t :=
  let '(ms, ob) := OrderBook.match_ poolId (orderBook d) in
  (ms, with_book ob d).

End CrownyDEX.

(** ** A small market *)
Module Market.





(** A venue that refuses every order, and a key manager without keys. *)
Definition refusing_venue (exchange symbol side : string) (quantity : Q)
  (price : option Q) (type : string) : string + TradeExecutor.VenueResult :=
  inl "insufficient funds".

Definition no_keys (userId exchange : string) : bool := false.

(** alice, one order below her daily cap of 10, buys on binance. *)
Definition last_order (venue : string -> string -> string -> Q -> option Q
                               -> string -> string + TradeExecutor.VenueResult) :=
  TradeExecutor.executeOrder Scenario.any_keys venue
    "alice" "binance" "BTCUSDT" "buy" "market" 1 None "auto" (Some 7)
    (Scenario.trader_db 100000 (1 # 10) 9 0).

(** The trading AI of [Scenario.bullish_ai] after it has recorded a buy of
    BTCUSDT at 200; the flat candles close at 100. *)
Definition holding_ai : TradingAI.t :=
  {| TradingAI.strategies := TradingAI.strategies Scenario.bullish_ai;
     TradingAI.riskManager :=
       TradingAI.recordTrade "BTCUSDT" "buy" 200 1
         (TradingAI.riskManager Scenario.bullish_ai) |}.

End Market.

(** ** Invariants of the components *)
Module Sound.

(** *** The matcher *)

(** The three writes of the inner loop of [match_] to one order, for a
    fill [f]. *)
Definition bump (f : Z) (o : OrderBook.Order) : OrderBook.Order :=
  OrderBook.restatus
    (OrderBook.set_trit 1 (OrderBook.set_filled (OrderBook.filled o + f) o)).

(** A position of the book as it was when [match_] was called that holds
    an open order of the pool on the given side. *)
Definition picked (os0 : list OrderBook.Order) (poolId_ side_ : string)
  (j : nat) : Prop :=
  exists o, os0 !! j = Some o /\ OrderBook.poolId o = poolId_
            /\ OrderBook.side o = side_ /\ OrderBook.status o = OrderBook.Open.

(** The terms of an order, which no method of the book writes. *)
Definition same_terms (o0 o : OrderBook.Order) : Prop :=
  OrderBook.id o = OrderBook.id o0 /\ OrderBook.owner o = OrderBook.owner o0
  /\ OrderBook.poolId o = OrderBook.poolId o0
  /\ OrderBook.side o = OrderBook.side o0
  /\ OrderBook.price o = OrderBook.price o0
  /\ OrderBook.amount o = OrderBook.amount o0.

(** An order after some fills: same terms, at least as much filled, and
    not beyond its amount by a fill. *)
Definition filled_further (o0 o : OrderBook.Order) : Prop :=
  same_terms o0 o
  /\ OrderBook.filled o0 <= OrderBook.filled o
  /\ (OrderBook.filled o = OrderBook.filled o0
      \/ OrderBook.filled o <= OrderBook.amount o0).

(** The quantity filled over all the orders of one side, and the quantity
    of a list of matches. *)
Definition filled_on (side_ : string) (os : list OrderBook.Order) : Z :=
  foldr (fun o acc => if String.eqb (OrderBook.side o) side_
                      then OrderBook.filled o + acc else acc) 0 os.

Definition matched (ms : list OrderBook.Match) : Z :=
  foldr (fun m acc => OrderBook.fill m + acc) 0 ms.

(** A match that pairs a buy and a sell of the pool whose prices cross, at
    the price of the sell, for a quantity that is positive and within what
    each order had left. *)
Definition crossing (os0 : list OrderBook.Order) (poolId_ : string)
  (m : OrderBook.Match) : Prop :=
  0 < OrderBook.fill m
  /\ exists bi si buy sell,
       os0 !! bi = Some buy /\ os0 !! si = Some sell
       /\ OrderBook.poolId buy = poolId_ /\ OrderBook.poolId sell = poolId_
       /\ OrderBook.side buy = "buy" /\ OrderBook.side sell = "sell"
       /\ OrderBook.status buy = OrderBook.Open
       /\ OrderBook.status sell = OrderBook.Open
       /\ OrderBook.buyId m = OrderBook.id buy
       /\ OrderBook.sellId m = OrderBook.id sell
       /\ OrderBook.m_price m = OrderBook.price sell
       /\ (OrderBook.price sell <= OrderBook.price buy)%Q
       /\ OrderBook.fill m <= OrderBook.amount buy - OrderBook.filled buy
       /\ OrderBook.fill m <= OrderBook.amount sell - OrderBook.filled sell.

(** What holds of the store of [match_] after every turn of its loops,
    with [os0] the orders at the call. *)
Definition matching (os0 : list OrderBook.Order) (poolId_ : string)
  (st : list OrderBook.Order * list OrderBook.Match) : Prop :=
  (forall i o0, os0 !! i = Some o0 ->
     exists o, fst st !! i = Some o /\ filled_further o0 o)
  /\ length (fst st) = length os0
  /\ (forall i, ~ picked os0 poolId_ "buy" i -> ~ picked os0 poolId_ "sell" i ->
        fst st !! i = os0 !! i)
  /\ filled_on "buy" (fst st) = filled_on "buy" os0 + matched (snd st)
  /\ filled_on "sell" (fst st) = filled_on "sell" os0 + matched (snd st)
  /\ Forall (crossing os0 poolId_) (snd st).

(** A book in order: the counter is the number of orders placed, and the
    order at position [i] carries the id made from [i]. *)
Definition book (ob : OrderBook.t) : Prop :=
  OrderBook.counter ob = N.of_nat (length (OrderBook.orders ob))
  /\ forall i o, OrderBook.orders ob !! i = Some o ->
                 OrderBook.id o = "ORD-" +:+ pretty (N.of_nat i).

(** [cancel] as it writes to one order. *)
Definition cancelled (o : OrderBook.Order) : OrderBook.Order :=
  OrderBook.set_trit (-1) (OrderBook.set_status OrderBook.Cancelled o).

(** *** The pool *)

(** The shares of all the holders of a pool:
    [Object.values(lpHolders)] summed. *)
Definition add_share (_ : string) (v acc : Z) : Z := v + acc.

Definition shares_held (p : LiquidityPool.Pool) : Z :=
  map_fold add_share 0 (LiquidityPool.lpHolders p).

(** A pool in order: reserves that are not negative, [k] their product, no
    negative holding, and a share supply that is the sum of the
    holdings. *)
Definition pool (p : LiquidityPool.Pool) : Prop :=
  0 <= LiquidityPool.reserveA p /\ 0 <= LiquidityPool.reserveB p
  /\ LiquidityPool.k p = LiquidityPool.reserveA p * LiquidityPool.reserveB p
  /\ (forall provider h, LiquidityPool.lpHolders p !! provider = Some h -> 0 <= h)
  /\ shares_held p = LiquidityPool.totalLpShares p.

End Sound.

(** * Properties *)

(** ** The liquidity pool *)
Section PoolFacts.
Import LiquidityPool.

Lemma js_floor_div_fin a b : b <> 0 -> js_floor_div a b = Fin (a / b).
Proof.
  intros Hb. unfold js_floor_div.
  destruct (Z.eqb_spec b 0) as [->|_]; [contradiction|reflexivity].
Qed.

Lemma js_floor_div_fin_inv a b q : js_floor_div a b = Fin q -> b <> 0 /\ q = a / b.
Proof.
  unfold js_floor_div.
  destruct (Z.eqb_spec b 0) as [->|Hb].
  - destruct (0 <? a); [discriminate|]. destruct (a <? 0); discriminate.
  - intros [= <-]. split; [assumption|reflexivity].
Qed.

(** What a swap that returns has done, field by field. *)
Lemma swapAtoB_inv x p r p' :
  swapAtoB x p = (inr r, p') ->
  let fee := x * feeBps p / 10000 in
  let newA := reserveA p + (x - fee) in
  let newB := k p / newA in
  reserveA p <> 0 /\ reserveB p <> 0 /\ newA <> 0 /\ 0 < reserveB p - newB /\
  reserveA p' = newA /\ reserveB p' = newB /\ k p' = newA * newB /\
  feeBps p' = feeBps p /\
  sw_amountIn r = x /\ sw_amountOut r = reserveB p - newB /\ sw_fee r = fee.
Proof.
  unfold swapAtoB, Eff.bind, Eff.get, Eff.throw.
  destruct (Z.eqb_spec (reserveA p) 0) as [|HA]; [discriminate|].
  destruct (Z.eqb_spec (reserveB p) 0) as [|HB]; [discriminate|].
  cbn [orb].
  destruct (js_floor_div _ _) as [newB| | |] eqn:E; try discriminate.
  apply js_floor_div_fin_inv in E as [Hn ->].
  destruct (Z.leb_spec (reserveB p - k p / (reserveA p + (x - x * feeBps p / 10000))) 0)
    as [|Hout]; [discriminate|].
  cbn. intros [= <- <-]. cbn. repeat split; auto.
Qed.

Lemma swapBtoA_inv x p r p' :
  swapBtoA x p = (inr r, p') ->
  let fee := x * feeBps p / 10000 in
  let newB := reserveB p + (x - fee) in
  let newA := k p / newB in
  reserveA p <> 0 /\ reserveB p <> 0 /\ newB <> 0 /\ 0 < reserveA p - newA /\
  reserveA p' = newA /\ reserveB p' = newB /\ k p' = newA * newB /\
  feeBps p' = feeBps p /\
  sw_amountIn r = x /\ sw_amountOut r = reserveA p - newA /\ sw_fee r = fee.
Proof.
  unfold swapBtoA, Eff.bind, Eff.get, Eff.throw.
  destruct (Z.eqb_spec (reserveA p) 0) as [|HA]; [discriminate|].
  destruct (Z.eqb_spec (reserveB p) 0) as [|HB]; [discriminate|].
  cbn [orb].
  destruct (js_floor_div _ _) as [newA| | |] eqn:E; try discriminate.
  apply js_floor_div_fin_inv in E as [Hn ->].
  destruct (Z.leb_spec (reserveA p - k p / (reserveB p + (x - x * feeBps p / 10000))) 0)
    as [|Hout]; [discriminate|].
  cbn. intros [= <- <-]. cbn. repeat split; auto.
Qed.

Lemma fee_bounds x f : 0 <= x -> 0 <= f <= 10000 -> 0 <= x * f / 10000 <= x.
Proof.
  intros Hx [Hf0 Hf]. split.
  - apply Z.div_pos; nia.
  - apply Z.div_le_upper_bound; nia.
Qed.

Lemma fee_le x f : 0 <= x -> f <= 10000 -> x * f / 10000 <= x.
Proof.
  intros Hx Hf. apply Z.div_le_upper_bound; nia.
Qed.

Lemma floor_product a b : 0 < b -> b * (a / b) = a - a mod b /\ 0 <= a mod b < b.
Proof.
  intros Hb. split.
  - pose proof (Z.div_mod a b ltac:(lia)). lia.
  - apply Z.mod_pos_bound; assumption.
Qed.

(** The field [k] is the product of the reserves after every operation
    that returns, as it is in a new pool. *)
Lemma k_is_product_new a b fee :
  k (new a b fee) = reserveA (new a b fee) * reserveB (new a b fee).
Proof. reflexivity. Qed.

Lemma k_is_product_swap x p r p' :
  swapAtoB x p = (inr r, p') \/ swapBtoA x p = (inr r, p') ->
  k p' = reserveA p' * reserveB p'.
Proof.
  intros [H|H].
  - apply swapAtoB_inv in H. cbv zeta in H.
    destruct H as (_ & _ & _ & _ & -> & -> & -> & _). reflexivity.
  - apply swapBtoA_inv in H. cbv zeta in H.
    destruct H as (_ & _ & _ & _ & -> & -> & -> & _). lia.
Qed.

(** C3.  A swap A→B on a pool with both reserves nonzero computes
    [fee = floor (amountIn·feeBps / 10000)], [afterFee = amountIn - fee],
    [newA = reserveA + afterFee] and [amountOut = reserveB - floor (k / newA)]
    (for [newA <> 0], where the quotient is defined); it returns this
    [amountOut] and commits the reserves [newA], [floor (k / newA)] when
    [amountOut > 0], and otherwise throws the zero-output error with the
    pool as it was.  Symmetrically for B→A. *)
Theorem swap_follows_steps (p : Pool) (amountIn : Z)
  (HA : reserveA p <> 0) (HB : reserveB p <> 0) :
  let fee := amountIn * feeBps p / 10000 in
  let afterFee := amountIn - fee in
  (let newA := reserveA p + afterFee in
   let amountOut := reserveB p - k p / newA in
   newA <> 0 ->
   (0 < amountOut ->
    exists r p', swapAtoB amountIn p = (inr r, p')
      /\ sw_amountOut r = amountOut /\ sw_fee r = fee
      /\ reserveA p' = newA /\ reserveB p' = k p / newA)
   /\ (amountOut <= 0 -> swapAtoB amountIn p = (inl ZeroOutput, p)))
  /\
  (let newB := reserveB p + afterFee in
   let amountOut := reserveA p - k p / newB in
   newB <> 0 ->
   (0 < amountOut ->
    exists r p', swapBtoA amountIn p = (inr r, p')
      /\ sw_amountOut r = amountOut /\ sw_fee r = fee
      /\ reserveB p' = newB /\ reserveA p' = k p / newB)
   /\ (amountOut <= 0 -> swapBtoA amountIn p = (inl ZeroOutput, p))).
Proof.
  cbv zeta. split; intros Hn; split; intros Hout.
  - unfold swapAtoB, Eff.bind, Eff.get, Eff.throw.
    destruct (Z.eqb_spec (reserveA p) 0); [contradiction|].
    destruct (Z.eqb_spec (reserveB p) 0); [contradiction|].
    cbn [orb]. rewrite js_floor_div_fin by assumption.
    destruct (Z.leb_spec
      (reserveB p - k p / (reserveA p + (amountIn - amountIn * feeBps p / 10000))) 0);
      [lia|].
    cbn. eexists _, _. split; [reflexivity|]. cbn. repeat split; reflexivity.
  - unfold swapAtoB, Eff.bind, Eff.get, Eff.throw.
    destruct (Z.eqb_spec (reserveA p) 0); [contradiction|].
    destruct (Z.eqb_spec (reserveB p) 0); [contradiction|].
    cbn [orb]. rewrite js_floor_div_fin by assumption.
    destruct (Z.leb_spec
      (reserveB p - k p / (reserveA p + (amountIn - amountIn * feeBps p / 10000))) 0);
      [reflexivity|lia].
  - unfold swapBtoA, Eff.bind, Eff.get, Eff.throw.
    destruct (Z.eqb_spec (reserveA p) 0); [contradiction|].
    destruct (Z.eqb_spec (reserveB p) 0); [contradiction|].
    cbn [orb]. rewrite js_floor_div_fin by assumption.
    destruct (Z.leb_spec
      (reserveA p - k p / (reserveB p + (amountIn - amountIn * feeBps p / 10000))) 0);
      [lia|].
    cbn. eexists _, _. split; [reflexivity|]. cbn. repeat split; reflexivity.
  - unfold swapBtoA, Eff.bind, Eff.get, Eff.throw.
    destruct (Z.eqb_spec (reserveA p) 0); [contradiction|].
    destruct (Z.eqb_spec (reserveB p) 0); [contradiction|].
    cbn [orb]. rewrite js_floor_div_fin by assumption.
    destruct (Z.leb_spec
      (reserveA p - k p / (reserveB p + (amountIn - amountIn * feeBps p / 10000))) 0);
      [reflexivity|lia].
Qed.

(** The bootstrap pool CRWN-USDT swaps 10000 CRWN for 1246 USDT at a fee
    of 30, and 10000 USDT for 79129 CRWN. *)
Lemma swap_follows_steps_witness :
  (exists r p', swapAtoB 10000 crwn_usdt = (inr r, p')
     /\ sw_amountOut r = 1246 /\ sw_fee r = 30
     /\ reserveA p' = 10009970 /\ reserveB p' = 1248754)
  /\ (exists r p', swapBtoA 10000 crwn_usdt = (inr r, p')
     /\ sw_amountOut r = 79129 /\ sw_fee r = 30
     /\ reserveB p' = 1259970 /\ reserveA p' = 9920871).
Proof.
  assert (HA : reserveA crwn_usdt <> 0) by (vm_compute; discriminate).
  assert (HB : reserveB crwn_usdt <> 0) by (vm_compute; discriminate).
  destruct (swap_follows_steps crwn_usdt 10000 HA HB) as [H1 H2].
  cbv zeta in H1, H2.
  destruct H1 as [H1 _]; [vm_compute; discriminate|].
  destruct H2 as [H2 _]; [vm_compute; discriminate|].
  split.
  - destruct H1 as (r & p' & E & Ho & Hf & Ha & Hb); [vm_compute; reflexivity|].
    exists r, p'. rewrite Ho, Hf, Ha, Hb.
    split; [exact E|]. vm_compute. repeat split; reflexivity.
  - destruct H2 as (r & p' & E & Ho & Hf & Ha & Hb); [vm_compute; reflexivity|].
    exists r, p'. rewrite Ho, Hf, Ha, Hb.
    split; [exact E|]. vm_compute. repeat split; reflexivity.
Defined.

(** The product of the reserves after a swap that returns: the constant
    [k] less the remainder of the floored division. *)
Lemma product_after_swap x p r p' :
  k p = reserveA p * reserveB p ->
  (swapAtoB x p = (inr r, p') ->
   reserveA p' * reserveB p' = reserveA p * reserveB p - k p mod reserveA p')
  /\ (swapBtoA x p = (inr r, p') ->
   reserveA p' * reserveB p' = reserveA p * reserveB p - k p mod reserveB p').
Proof.
  intros Hk. split; intros H.
  - apply swapAtoB_inv in H. cbv zeta in H.
    destruct H as (_ & _ & Hn & _ & -> & -> & _).
    pose proof (Z.div_mod (k p) _ Hn). lia.
  - apply swapBtoA_inv in H. cbv zeta in H.
    destruct H as (_ & _ & Hn & _ & -> & -> & _).
    pose proof (Z.div_mod (k p) _ Hn). lia.
Qed.

(** C1, as the code has it.  On a pool with positive reserves,
    [k = reserveA·reserveB] and a fee of at most 10000 basis points, a
    swap in either direction with [amountIn > 0] that returns leaves a
    product of the reserves that is at most the product before: it is the
    product before less the remainder of [k] by the new reserve of the
    token paid in (so less than that reserve is lost).  The fee is added
    to [feesCollected] and not to a reserve, whatever [feeBps] is. *)
Theorem swap_product_not_above (p : Pool) (amountIn : Z) (r : SwapReceipt) (p' : Pool)
  (Hk : k p = reserveA p * reserveB p)
  (HA : 0 < reserveA p) (HB : 0 < reserveB p)
  (Hfee : feeBps p <= 10000) (Hin : 0 < amountIn)
  (Hswap : swapAtoB amountIn p = (inr r, p') \/ swapBtoA amountIn p = (inr r, p')) :
  reserveA p' * reserveB p' <= reserveA p * reserveB p
  /\ reserveA p * reserveB p - (reserveA p' + reserveB p') < reserveA p' * reserveB p'
  /\ k p' = reserveA p' * reserveB p'
  /\ feesCollected p' = feesCollected p + amountIn * feeBps p / 10000.
Proof.
  pose proof (fee_le amountIn (feeBps p) ltac:(lia) Hfee) as Hf.
  pose proof (k_is_product_swap _ _ _ _ Hswap) as Hk'.
  destruct (product_after_swap amountIn p r p' Hk) as [PA PB].
  destruct Hswap as [H|H].
  - specialize (PA H).
    assert (Hfc : feesCollected p' = feesCollected p + amountIn * feeBps p / 10000).
    { revert H. unfold swapAtoB, Eff.bind, Eff.get, Eff.throw.
      destruct (_ || _); [discriminate|].
      destruct (js_floor_div _ _); try discriminate.
      destruct (_ <=? _); [discriminate|]. cbn. intros [= _ <-]. reflexivity. }
    apply swapAtoB_inv in H. cbv zeta in H.
    destruct H as (_ & _ & _ & Hout & EA & EB & _).
    assert (HnA : 0 < reserveA p') by lia.
    pose proof (Z.mod_pos_bound (k p) (reserveA p') HnA).
    assert (0 <= reserveB p').
    { rewrite EB. apply Z.div_pos; [nia|lia]. }
    repeat split; try assumption; lia.
  - specialize (PB H).
    assert (Hfc : feesCollected p' = feesCollected p + amountIn * feeBps p / 10000).
    { revert H. unfold swapBtoA, Eff.bind, Eff.get, Eff.throw.
      destruct (_ || _); [discriminate|].
      destruct (js_floor_div _ _); try discriminate.
      destruct (_ <=? _); [discriminate|]. cbn. intros [= _ <-]. reflexivity. }
    apply swapBtoA_inv in H. cbv zeta in H.
    destruct H as (_ & _ & _ & Hout & EA & EB & _).
    assert (HnB : 0 < reserveB p') by lia.
    pose proof (Z.mod_pos_bound (k p) (reserveB p') HnB).
    assert (0 <= reserveA p').
    { rewrite EA. apply Z.div_pos; [nia|lia]. }
    repeat split; try assumption; lia.
Qed.

Lemma swap_product_not_above_witness :
  let p' := snd (swapAtoB 10000 crwn_usdt) in
  reserveA p' * reserveB p' <= reserveA crwn_usdt * reserveB crwn_usdt
  /\ reserveA crwn_usdt * reserveB crwn_usdt - (reserveA p' + reserveB p')
     < reserveA p' * reserveB p'
  /\ k p' = reserveA p' * reserveB p'
  /\ feesCollected p' = feesCollected crwn_usdt + 10000 * feeBps crwn_usdt / 10000.
Proof.
  destruct (swapAtoB 10000 crwn_usdt) as [[e|r] p'] eqn:E.
  - vm_compute in E. discriminate E.
  - cbn [snd]. apply (swap_product_not_above crwn_usdt 10000 r p').
    + vm_compute. reflexivity.
    + vm_compute. reflexivity.
    + vm_compute. reflexivity.
    + vm_compute. discriminate.
    + lia.
    + left. exact E.
Defined.

(** C1 fails on the code: the bootstrap pool CRWN-USDT has a fee of 30
    basis points, and a swap of 10000 CRWN takes the product of its
    reserves from 12500000000000 down to 12499990077380. *)
Lemma swap_product_shrinks :
  exists r p', swapAtoB 10000 crwn_usdt = (inr r, p')
    /\ 0 < feeBps crwn_usdt
    /\ reserveA crwn_usdt * reserveB crwn_usdt = 12500000000000
    /\ reserveA p' * reserveB p' = 12499990077380
    /\ reserveA p' * reserveB p' < reserveA crwn_usdt * reserveB crwn_usdt.
Proof.
  destruct (swapAtoB 10000 crwn_usdt) as [[e|r] p'] eqn:E.
  - vm_compute in E. discriminate E.
  - exists r, p'. split; [reflexivity|].
    apply swapAtoB_inv in E. cbv zeta in E.
    destruct E as (_ & _ & _ & _ & -> & -> & _).
    vm_compute. repeat split; reflexivity.
Qed.

(** *** Deposits and withdrawals *)

Lemma addLiquidity_inv prov a b p r p1 :
  addLiquidity prov a b p = (inr r, p1) ->
  (if totalLpShares p =? 0
   then js_floor_sqrt (a * b)
   else js_min (js_floor_div (a * totalLpShares p) (reserveA p))
               (js_floor_div (b * totalLpShares p) (reserveB p)))
  = Fin (lp_shares r)
  /\ reserveA p1 = reserveA p + a /\ reserveB p1 = reserveB p + b
  /\ totalLpShares p1 = totalLpShares p + lp_shares r
  /\ lpHolders p1 = <[prov := held p prov + lp_shares r]> (lpHolders p)
  /\ k p1 = reserveA p1 * reserveB p1.
Proof.
  unfold addLiquidity, Eff.bind, Eff.get, Eff.throw.
  destruct (if totalLpShares p =? 0 then _ else _) as [s| | |]; try discriminate.
  cbn. intros [= <- <-]. cbn. repeat split; reflexivity.
Qed.



Lemma minted_covers_deposit a r S q :
  0 < r -> q <= a * S / r -> 0 <= a * S - q * r.
Proof.
  intros Hr Hq.
  pose proof (Z.mul_div_le (a * S) r Hr). nia.
Qed.




(** *** The round trip of two swaps *)

Lemma ceil_covers m n : 0 < n -> m <= n * ((m + n - 1) / n).
Proof.
  intros Hn.
  pose proof (Z.div_mod (m + n - 1) n ltac:(lia)).
  pose proof (Z.mod_pos_bound (m + n - 1) n Hn). lia.
Qed.

(** C8, as the code has it.  On a pool with positive reserves,
    [k = reserveA·reserveB] and a fee between 0 and 10000 basis points:
    when [swapAtoB x] returns [out] and [swapBtoA out] then returns
    [back], [back] is at most [x - fee + ceil (lost / newB)], where [fee]
    is the fee of the first swap, [lost = k mod newA] the remainder that
    the first swap rounds away ([newA] being the reserve of tokenA after
    it) and [newB] the reserve of tokenB after the second swap.  So [back]
    is at most [x] when the first division is exact; otherwise the
    rounding, which is in favour of the trader, can return more than
    [x]. *)
Theorem swap_round_trip_bound (p : Pool) (x : Z)
  (r1 : SwapReceipt) (p1 : Pool) (r2 : SwapReceipt) (p2 : Pool)
  (Hk : k p = reserveA p * reserveB p)
  (HA : 0 < reserveA p) (HB : 0 < reserveB p)
  (Hfee : 0 <= feeBps p <= 10000) (Hx : 0 < x)
  (H1 : swapAtoB x p = (inr r1, p1))
  (H2 : swapBtoA (sw_amountOut r1) p1 = (inr r2, p2)) :
  let lost := k p mod reserveA p1 in
  sw_amountOut r2 <= x - sw_fee r1 + (lost + reserveB p2 - 1) / reserveB p2
  /\ (lost = 0 -> sw_amountOut r2 <= x).
Proof.
  cbv zeta.
  apply swapAtoB_inv in H1. cbv zeta in H1.
  destruct H1 as (_ & _ & HnA & Hout1 & EA1 & EB1 & Ek1 & Ef1 & _ & Eo1 & Efee1).
  apply swapBtoA_inv in H2. cbv zeta in H2.
  destruct H2 as (_ & _ & HnB & Hout2 & _ & EB2 & _ & _ & _ & Eo2 & _).
  pose proof (fee_bounds x (feeBps p) ltac:(lia) Hfee) as Hf1.
  pose proof (fee_bounds (sw_amountOut r1) (feeBps p1) ltac:(lia)
                ltac:(rewrite Ef1; exact Hfee)) as Hf2.
  set (fee1 := x * feeBps p / 10000) in *.
  set (fee2 := sw_amountOut r1 * feeBps p1 / 10000) in *.
  set (newA := reserveA p + (x - fee1)) in *.
  assert (HnewA : 0 < newA) by (unfold newA; lia).
  assert (HnewB : 0 <= k p / newA) by (apply Z.div_pos; [nia|lia]).
  pose proof (Z.div_mod (k p) newA HnA) as Hdm.
  pose proof (Z.mod_pos_bound (k p) newA HnewA) as Hm.
  rewrite EA1. set (m := k p mod newA) in *.
  rewrite Eo2, EB2, Ek1, EB1, EA1, Efee1.
  set (n := k p / newA + (sw_amountOut r1 - fee2)) in *.
  assert (Hn : 0 < n) by (unfold n in *; rewrite EB1 in HnB; fold fee2 in HnB; lia).
  assert (Hnle : n <= reserveB p) by (unfold n; lia).
  pose proof (ceil_covers m n Hn) as Hq.
  set (q := (m + n - 1) / n) in *.
  assert (Hlow : reserveA p - q <= newA * (k p / newA) / n).
  { apply Z.div_le_lower_bound; [assumption|]. nia. }
  split.
  - unfold newA in *. lia.
  - intros Hm0.
    assert (q = 0).
    { unfold q. rewrite Hm0. apply Z.div_small. lia. }
    unfold newA in *. lia.
Qed.

Lemma swap_round_trip_bound_witness :
  let r1 := Scenario.receipt (Scenario.there 10000 crwn_usdt) in
  let p1 := snd (Scenario.there 10000 crwn_usdt) in
  let r2 := Scenario.receipt (Scenario.back_again 10000 crwn_usdt) in
  let p2 := snd (Scenario.back_again 10000 crwn_usdt) in
  swapAtoB 10000 crwn_usdt = (inr r1, p1)
  /\ swapBtoA (sw_amountOut r1) p1 = (inr r2, p2)
  /\ sw_amountOut r2
     <= 10000 - sw_fee r1
        + (k crwn_usdt mod reserveA p1 + reserveB p2 - 1) / reserveB p2.
Proof.
  cbv zeta.
  assert (E1 : swapAtoB 10000 crwn_usdt
               = (inr (Scenario.receipt (Scenario.there 10000 crwn_usdt)),
                  snd (Scenario.there 10000 crwn_usdt)))
    by (vm_compute; reflexivity).
  assert (E2 : swapBtoA (sw_amountOut (Scenario.receipt (Scenario.there 10000 crwn_usdt)))
                        (snd (Scenario.there 10000 crwn_usdt))
               = (inr (Scenario.receipt (Scenario.back_again 10000 crwn_usdt)),
                  snd (Scenario.back_again 10000 crwn_usdt)))
    by (vm_compute; reflexivity).
  assert (Hk : k crwn_usdt = reserveA crwn_usdt * reserveB crwn_usdt)
    by (vm_compute; reflexivity).
  assert (HA : 0 < reserveA crwn_usdt) by (vm_compute; reflexivity).
  assert (HB : 0 < reserveB crwn_usdt) by (vm_compute; reflexivity).
  assert (Hfee : 0 <= feeBps crwn_usdt <= 10000)
    by (vm_compute; split; discriminate).
  assert (Hx : 0 < 10000) by lia.
  revert E1 E2.
  generalize (Scenario.receipt (Scenario.there 10000 crwn_usdt)).
  generalize (snd (Scenario.there 10000 crwn_usdt)).
  generalize (Scenario.receipt (Scenario.back_again 10000 crwn_usdt)).
  generalize (snd (Scenario.back_again 10000 crwn_usdt)).
  intros p2 r2 p1 r1 E1 E2.
  split; [exact E1|]. split; [exact E2|].
  exact (proj1 (swap_round_trip_bound crwn_usdt 10000 r1 p1 r2 p2
                  Hk HA HB Hfee Hx E1 E2)).
Defined.

(** C8 fails on the code: on the bootstrap pool CRWN-BTC (5000000 against
    50, fee 30 basis points), [swapAtoB 50000] returns 1 BTC and
    [swapBtoA 1] then returns 100997 CRWN, more than twice the 50000 paid
    in. *)
Lemma swap_round_trip_gains :
  exists r1 p1 r2 p2,
    swapAtoB 50000 crwn_btc = (inr r1, p1)
    /\ swapBtoA (sw_amountOut r1) p1 = (inr r2, p2)
    /\ sw_amountOut r1 = 1
    /\ sw_amountOut r2 = 100997
    /\ ~ (sw_amountOut r2 <= 50000).
Proof.
  exists (Scenario.receipt (Scenario.there 50000 crwn_btc)),
         (snd (Scenario.there 50000 crwn_btc)),
         (Scenario.receipt (Scenario.back_again 50000 crwn_btc)),
         (snd (Scenario.back_again 50000 crwn_btc)).
  split; [vm_compute; reflexivity|].
  split; [vm_compute; reflexivity|].
  split; [vm_compute; reflexivity|].
  assert (E : sw_amountOut (Scenario.receipt (Scenario.back_again 50000 crwn_btc))
              = 100997) by (vm_compute; reflexivity).
  rewrite E. split; [reflexivity|lia].
Qed.

End PoolFacts.

(** ** The order book *)
Section BookFacts.
Import OrderBook.

(** The positions that [filter] keeps hold orders that pass the test. *)
Lemma filter_from_spec f l i0 j q :
  In (j, q) (filter_from i0 f l) ->
  exists o, l !! (j - i0)%nat = Some o /\ f o = true /\ (i0 <= j)%nat.
Proof.
  revert i0. induction l as [|o l IH]; intros i0; cbn; [intros []|].
  destruct (f o) eqn:Ef.
  - intros [[= <- _]|H].
    + exists o. rewrite Nat.sub_diag. auto.
    + destruct (IH _ H) as (o' & Hl & Hf & Hle).
      exists o'. replace (j - i0)%nat with (S (j - S i0)) by lia.
      cbn. auto with lia.
  - intros H. destruct (IH _ H) as (o' & Hl & Hf & Hle).
    exists o'. replace (j - i0)%nat with (S (j - S i0)) by lia.
    cbn. auto with lia.
Qed.

(** Sorting neither adds nor invents a position. *)
Lemma insert_by_in before x y l :
  In x (insert_by before y l) -> x = y \/ In x l.
Proof.
  induction l as [|z l IH]; cbn.
  - intros [<-|[]]. auto.
  - destruct (before (snd y) (snd z)); cbn.
    + intros [<-|[<-|H]]; auto.
    + intros [<-|H]; auto. destruct (IH H); auto.
Qed.

Lemma sort_by_in before x l : In x (sort_by before l) -> In x l.
Proof.
  induction l as [|y l IH]; cbn; [auto|].
  intros H. apply insert_by_in in H as [->|H]; auto.
Qed.

Lemma selected_open before poolId_ side_ os0 :
  Forall (open_at os0)
         (map fst (sort_by before (filter_from 0 (selects poolId_ side_) os0))).
Proof.
  apply List.Forall_forall. intros j Hj.
  apply in_map_iff in Hj as ([j' q] & <- & Hin). cbn.
  apply sort_by_in, filter_from_spec in Hin as (o & Hl & Hf & _).
  rewrite Nat.sub_0_r in Hl. exists o. split; [assumption|].
  unfold selects in Hf. apply andb_prop in Hf as [_ Hs].
  destruct (status o); cbn in Hs; congruence.
Qed.

Lemma gentle_set_filled v : gentle (fun o => set_filled (filled o + v) o).
Proof. intros o. left. reflexivity. Qed.

Lemma gentle_set_trit v : gentle (set_trit v).
Proof. intros o. left. reflexivity. Qed.

Lemma gentle_restatus : gentle restatus.
Proof.
  intros o. unfold restatus. cbn. destruct (amount o <=? filled o); auto.
Qed.

Lemma book_advanced_refl os0 : book_advanced os0 os0.
Proof.
  intros i o0 H. exists o0. split; [assumption|].
  split; [reflexivity|]. intros ->. auto.
Qed.

Lemma book_advanced_alter os0 os f j :
  gentle f -> open_at os0 j -> book_advanced os0 os ->
  book_advanced os0 (alter f j os).
Proof.
  intros Hf (oj & Hj & Hopen) Hinv i o0 Hi.
  destruct (Hinv i o0 Hi) as (o & Ho & Hne & Hop).
  destruct (Nat.eq_dec j i) as [->|Hji].
  - rewrite list_lookup_alter_eq, Ho. cbn. exists (f o). split; [reflexivity|].
    assert (o0 = oj) as -> by congruence.
    split; [congruence|]. intros _.
    destruct (Hf o) as [E|[E|E]]; rewrite E; auto.
  - rewrite list_lookup_alter_ne by assumption.
    exists o. split; [assumption|]. split; assumption.
Qed.

Lemma match_pair_advanced os0 bi si st :
  open_at os0 bi -> open_at os0 si ->
  book_advanced os0 (fst st) -> book_advanced os0 (fst (match_pair bi si st)).
Proof.
  intros Hb Hs Hinv. destruct st as [os ms]. unfold match_pair.
  destruct (os !! bi) as [buy|]; [|exact Hinv].
  destruct (os !! si) as [sell|]; [|exact Hinv].
  destruct (Qle_bool _ _); [|exact Hinv].
  destruct (0 <? _); [|exact Hinv].
  cbn [fst] in *.
  repeat (apply book_advanced_alter;
          [first [apply gentle_restatus | apply gentle_set_trit
                 | apply gentle_set_filled] | assumption |]).
  exact Hinv.
Qed.

Lemma match_loop_advanced os0 buys sells st :
  Forall (open_at os0) buys -> Forall (open_at os0) sells ->
  book_advanced os0 (fst st) ->
  book_advanced os0 (fst (match_loop buys sells st)).
Proof.
  intros Hb Hs. unfold match_loop. revert st.
  induction Hb as [|bi buys Hbi _ IHb]; intros st Hinv; cbn; [assumption|].
  apply IHb. clear IHb. revert st Hinv.
  induction Hs as [|si sells Hsi _ IHs]; intros st Hinv; cbn; [assumption|].
  apply IHs. apply match_pair_advanced; assumption.
Qed.

Lemma match_advanced poolId_ ob :
  book_advanced (orders ob) (orders (snd (match_ poolId_ ob))).
Proof.
  unfold match_.
  pose proof (match_loop_advanced (orders ob)
    (map fst (sort_by desc (filter_from 0 (selects poolId_ "buy") (orders ob))))
    (map fst (sort_by asc (filter_from 0 (selects poolId_ "sell") (orders ob))))
    (orders ob, [])
    (selected_open _ _ _ _) (selected_open _ _ _ _)
    (book_advanced_refl _)) as H.
  destruct (match_loop _ _ _) as [os ms]. exact H.
Qed.

(** C10.  [match_] selects only the orders that are open when it is
    called: an order that an earlier call left partial (and any order
    that is not open) comes out of every later call exactly as it went
    in, whatever its remaining amount and its price. *)
Theorem match_skips_partial (ob : OrderBook.t) (poolId_ : string)
  (i : nat) (o : Order)
  (Hi : orders ob !! i = Some o) (Hs : status o <> Open) :
  orders (snd (match_ poolId_ ob)) !! i = Some o.
Proof.
  destruct (match_advanced poolId_ ob i o Hi) as (o' & Ho' & Hne & _).
  rewrite Ho'. f_equal. apply Hne. exact Hs.
Qed.

(** The buy of [partial_book] has 6 of 10 left at price 2 and a sell of 6
    at price 1 is open, yet the matcher leaves it with 4 filled. *)
Lemma match_skips_partial_witness :
  exists o, orders Scenario.partial_book !! 0%nat = Some o
    /\ status o = Partial /\ filled o = 4 /\ amount o = 10
    /\ orders (snd (match_ "CRWN-USDT" Scenario.partial_book)) !! 0%nat = Some o.
Proof.
  destruct (orders Scenario.partial_book !! 0%nat) as [o|] eqn:E.
  - exists o. split; [reflexivity|].
    assert (Hs : status o = Partial /\ filled o = 4 /\ amount o = 10).
    { vm_compute in E. injection E as <-. repeat split; reflexivity. }
    destruct Hs as (Hs & Hf & Ha).
    split; [exact Hs|]. split; [exact Hf|]. split; [exact Ha|].
    apply (match_skips_partial Scenario.partial_book "CRWN-USDT" 0 o E).
    rewrite Hs. discriminate.
  - vm_compute in E. discriminate E.
Defined.

(** [cancel] reaches the first order with the id, and only that one. *)
Lemma cancel_lookup orderId ob i o :
  orders ob !! i = Some o ->
  orders (cancel orderId ob) !! i
  = Some (if decide (find_id orderId (orders ob) = Some i)
          then set_trit (-1) (set_status Cancelled o) else o).
Proof.
  intros Hi. unfold cancel.
  destruct (find_id orderId (orders ob)) as [j|] eqn:Ef; cbn.
  - destruct (decide (Some j = Some i)) as [[= ->]|Hne].
    + rewrite list_lookup_alter_eq, Hi. reflexivity.
    + rewrite list_lookup_alter_ne by congruence. assumption.
  - destruct (decide (None = Some i)); [discriminate|assumption].
Qed.

(** C9, as the code has it.  For every order of the book: a run of the
    matcher leaves it untouched unless it is open, and takes an open order
    to open, partial or filled; [cancel] sets the status of the order it
    finds to cancelled whatever that status was (open, partial, filled or
    cancelled) and leaves every other order as it is. *)
Theorem order_status_moves (ob : OrderBook.t) (i : nat) (o : Order)
  (Hi : orders ob !! i = Some o) :
  (forall poolId_, exists o',
      orders (snd (match_ poolId_ ob)) !! i = Some o'
      /\ (status o <> Open -> o' = o)
      /\ (status o = Open ->
          status o' = Open \/ status o' = Partial \/ status o' = Filled))
  /\ (forall orderId, exists o',
      orders (cancel orderId ob) !! i = Some o'
      /\ (find_id orderId (orders ob) = Some i -> status o' = Cancelled)
      /\ (find_id orderId (orders ob) <> Some i -> o' = o)).
Proof.
  split.
  - intros poolId_. exact (match_advanced poolId_ ob i o Hi).
  - intros orderId. eexists. split; [apply cancel_lookup; exact Hi|].
    destruct (decide _) as [E|E]; split; intros H; try contradiction; reflexivity.
Qed.

Lemma order_status_moves_witness :
  exists o, orders Scenario.partial_book !! 2%nat = Some o
    /\ (exists o', orders (snd (match_ "CRWN-USDT" Scenario.partial_book)) !! 2%nat
                   = Some o'
           /\ (status o = Open ->
               status o' = Open \/ status o' = Partial \/ status o' = Filled))
    /\ (exists o', orders (cancel "ORD-2" Scenario.partial_book) !! 2%nat = Some o'
           /\ (find_id "ORD-2" (orders Scenario.partial_book) = Some 2%nat ->
               status o' = Cancelled)).
Proof.
  destruct (orders Scenario.partial_book !! 2%nat) as [o|] eqn:E.
  - exists o. split; [reflexivity|].
    destruct (order_status_moves Scenario.partial_book 2 o E) as [Hm Hc].
    split.
    + destruct (Hm "CRWN-USDT") as (o' & Ho' & _ & H). exists o'. auto.
    + destruct (Hc "ORD-2") as (o' & Ho' & H & _). exists o'. auto.
  - vm_compute in E. discriminate E.
Defined.

(** C9 fails on the code: in [crossed_book] the order ORD-0 is filled, and
    [cancel] changes its status to cancelled. *)
Lemma cancel_changes_filled :
  (status <$> orders Scenario.crossed_book !! 0%nat) = Some Filled
  /\ (id <$> orders Scenario.crossed_book !! 0%nat) = Some "ORD-0"
  /\ (status <$> orders (cancel "ORD-0" Scenario.crossed_book) !! 0%nat)
     = Some Cancelled.
Proof. vm_compute. repeat split; reflexivity. Qed.

End BookFacts.

(** ** The wallet store *)
Section WalletFacts.
Import CrownyDB.

Lemma Qltb_false x y : Qltb x y = false -> (y <= x)%Q.
Proof.
  unfold Qltb. intros H. apply negb_false_iff in H.
  apply Qle_bool_iff. exact H.
Qed.

Lemma Qltb_true x y : Qltb x y = true -> (x < y)%Q.
Proof.
  unfold Qltb. intros H. apply negb_true_iff in H.
  apply Qnot_le_lt. intros Hle. apply Qle_bool_iff in Hle. congruence.
Qed.

Lemma row_ok_available r : row_ok r -> (0 <= available r)%Q.
Proof. unfold row_ok, available. intros [H1 H2]. lra. Qed.

(** Deposits, locks and unlocks of a non-negative amount keep a row
    within its data model; this is the part of C2 that the code
    honours. *)
Lemma addBalance_keeps_row_ok userId token amount db db' :
  (0 <= amount)%Q -> row_ok (getBalance userId token db) ->
  addBalance userId token amount db = (inr tt, db') ->
  row_ok (getBalance userId token db').
Proof.
  intros Ha [H1 H2]. unfold addBalance, Eff.bind, Eff.get, Eff.put.
  intros [= <-]. unfold getBalance at 1, setBalance, with_wallets. cbn.
  rewrite lookup_insert_eq. cbn. unfold getBalance in *.
  destruct (wallets db !! (userId, token)) as [r|]; cbn in *; split; cbn [locked balance]; lra.
Qed.

Lemma lockBalance_keeps_row_ok userId token amount db db' :
  (0 <= amount)%Q -> row_ok (getBalance userId token db) ->
  lockBalance userId token amount db = (inr tt, db') ->
  row_ok (getBalance userId token db').
Proof.
  intros Ha [H1 H2]. unfold lockBalance, Eff.bind, Eff.get, Eff.put, Eff.throw.
  destruct (Qltb _ amount) eqn:E; [discriminate|].
  apply Qltb_false in E. intros [= <-].
  unfold getBalance in *. cbn. rewrite lookup_alter_eq.
  destruct (wallets db !! (userId, token)) as [r|]; cbn in *; split; cbn [locked balance]; lra.
Qed.

Lemma unlockBalance_keeps_row_ok userId token amount db db' :
  (0 <= amount)%Q -> row_ok (getBalance userId token db) ->
  unlockBalance userId token amount db = (inr tt, db') ->
  row_ok (getBalance userId token db').
Proof.
  intros Ha [H1 H2]. unfold unlockBalance, Eff.bind, Eff.get, Eff.put.
  intros [= <-].
  unfold getBalance in *. cbn. rewrite lookup_alter_eq.
  destruct (wallets db !! (userId, token)) as [r|]; cbn in *; [|split; cbn [locked balance]; lra].
  destruct (Qle_bool 0 (locked r - amount)) eqn:E; cbn.
  - apply Qle_bool_iff in E. split; cbn [locked balance]; lra.
  - split; cbn [locked balance]; lra.
Qed.

(** C2 at its failing input.  The wallet holds 100 of which 60 are
    locked; [subtractBalance 50] compares the 50 with the balance alone,
    returns, and leaves a balance of 50 under the 60 locked: the available
    amount is -10. *)
Theorem subtractBalance_below_locked :
  let row := getBalance "alice" "USDT" Scenario.locked_wallet in
  (balance row == 100 /\ locked row == 60)%Q
  /\ exists db',
       subtractBalance "alice" "USDT" 50 Scenario.locked_wallet = (inr tt, db')
       /\ (balance (getBalance "alice" "USDT" db') == 50)%Q
       /\ (locked (getBalance "alice" "USDT" db') == 60)%Q
       /\ (available (getBalance "alice" "USDT" db') < 0)%Q
       /\ (balance (getBalance "alice" "USDT" db')
           < locked (getBalance "alice" "USDT" db'))%Q.
Proof.
  cbv zeta. split; [split; vm_compute; reflexivity|].
  exists (snd (subtractBalance "alice" "USDT" 50 Scenario.locked_wallet)).
  split; [vm_compute; reflexivity|].
  repeat split; vm_compute; reflexivity.
Qed.

(** The sibling [lockBalance] does look at the locked amount: asked for
    the same 50 on the same wallet it throws. *)
Lemma lockBalance_counts_locked :
  fst (lockBalance "alice" "USDT" 50 Scenario.locked_wallet)
  = inl InsufficientAvailable.
Proof. vm_compute. reflexivity. Qed.

End WalletFacts.

(** ** The safety gate of the trade executor *)
Section ExecutorFacts.
Import CrownyDB TradeExecutor.

Variable has_keys : string -> string -> bool.
Variable venue : string -> string -> string -> Q -> option Q -> string
                 -> string + VenueResult.

(** The gate of the code trips exactly when the list of errors is not
    empty. *)
Lemma checkSafety_trips userId exchange side quantity price db config :
  getAutoTradeConfig userId exchange db = Some config ->
  fst (_checkSafety userId exchange side quantity price db)
  = negb (daily_cap_reached config || loss_cap_reached config
          || position_too_large config (totalValue (getAllBalances userId db))
                                (quantity * price_or_1 price)%Q).
Proof.
  intros Hc. unfold _checkSafety. rewrite Hc. cbn [fst].
  destruct (daily_cap_reached config), (loss_cap_reached config),
    (position_too_large config _ _); reflexivity.
Qed.

(** Without a configuration row there is no gate. *)
Lemma checkSafety_without_config userId exchange side quantity price db :
  getAutoTradeConfig userId exchange db = None ->
  _checkSafety userId exchange side quantity price db = (true, []).
Proof. intros Hc. unfold _checkSafety. rewrite Hc. reflexivity. Qed.

Lemma updateExchangeOrder_length id f db0 :
  length (exchange_orders (updateExchangeOrder id f db0))
  = length (exchange_orders db0).
Proof.
  unfold updateExchangeOrder. cbn.
  destruct (0 <? id)%Z; [apply length_alter|reflexivity].
Qed.
Lemma incrementDailyTrades_orders u e db0 :
  exchange_orders (incrementDailyTrades u e db0) = exchange_orders db0.
Proof. reflexivity. Qed.

(** Past the gate the first thing [executeOrder] does is to insert the
    row: whatever happens then, the table has one more row. *)
Lemma executeOrder_past_gate userId exchange symbol side type quantity price
  source aiSignalId db :
  fst (_checkSafety userId exchange side quantity price db) = true ->
  length (exchange_orders
            (snd (executeOrder has_keys venue userId exchange symbol side type
                               quantity price source aiSignalId db)))
  = S (length (exchange_orders db)).
Proof.
  intros Hs.
  unfold executeOrder, Eff.bind, Eff.get, Eff.put, Eff.throw, Eff.try_catch,
    Eff.modify, Eff.ret.
  rewrite Hs. cbv beta iota delta [negb saveExchangeOrder].
  unfold _getTrader, call_venue, Eff.throw, Eff.ret.
  assert (Hrow : forall o, length (exchange_orders db ++ [o]) = S (length (exchange_orders db))).
  { intros o. rewrite length_app. cbn. lia. }
  destruct (negb (has_keys userId exchange)).
  { cbv beta iota. cbn [snd]. rewrite updateExchangeOrder_length. apply Hrow. }
  destruct (String.eqb exchange "upbit" || String.eqb exchange "binance")%bool.
  2:{ cbv beta iota. cbn [snd]. rewrite updateExchangeOrder_length. apply Hrow. }
  cbv beta iota.
  destruct (String.eqb exchange "upbit").
  { destruct (venue _ _ _ _ _ _); cbv beta iota; cbn [snd];
      rewrite ?incrementDailyTrades_orders, updateExchangeOrder_length; apply Hrow. }
  destruct (String.eqb exchange "binance").
  { destruct (venue _ _ _ _ _ _); cbv beta iota; cbn [snd];
      rewrite ?incrementDailyTrades_orders, updateExchangeOrder_length; apply Hrow. }
  cbv beta iota. cbn [snd]. rewrite updateExchangeOrder_length. apply Hrow.
Qed.
(** C4, as the code has it.  [executeOrder] first evaluates the gate on
    the configuration row of the principal and the venue: the daily cap is
    reached, or the loss cap is reached, or the sum of the wallet balances
    is positive and [quantity · (price || 1)] divided by it exceeds
    [max_position_pct], where a price that is absent or zero counts as 1.
    When one of the three holds it throws the safety-block error with the
    store exactly as it was: no row is inserted and the venue is not
    called. *)
Theorem executeOrder_safety_gate (userId exchange symbol side type : string)
  (quantity : Q) (price : option Q) (source : string) (aiSignalId : option Z)
  (db : CrownyDB.t) (config : AutoTradeConfig)
  (Hconfig : getAutoTradeConfig userId exchange db = Some config)
  (Htrip : daily_cap_reached config = true
           \/ loss_cap_reached config = true
           \/ position_too_large config (totalValue (getAllBalances userId db))
                (quantity * price_or_1 price)%Q = true) :
  exists errors,
    executeOrder has_keys venue userId exchange symbol side type quantity price
                 source aiSignalId db
    = (inl (SafetyBlocked errors), db)
    /\ errors <> []
    /\ errors = snd (_checkSafety userId exchange side quantity price db).
Proof.
  pose proof (checkSafety_trips userId exchange side quantity price db config Hconfig)
    as Hs.
  assert (Hf : fst (_checkSafety userId exchange side quantity price db) = false).
  { rewrite Hs. apply negb_false_iff.
    destruct Htrip as [-> | [-> | ->]]; rewrite ?orb_true_r; reflexivity. }
  exists (snd (_checkSafety userId exchange side quantity price db)).
  split; [|split; [|reflexivity]].
  - unfold executeOrder, Eff.bind, Eff.get, Eff.throw. rewrite Hf. reflexivity.
  - revert Hf. unfold _checkSafety. cbn [fst snd].
    destruct (match getAutoTradeConfig userId exchange db with
              | Some _ => _ | None => _ end); [discriminate|discriminate].
Qed.

End ExecutorFacts.

(** With [consecutive_losses = 3] and [max_consecutive_losses = 3] an
    order that is otherwise small enough is blocked and the table of
    venue orders stays empty. *)
Lemma executeOrder_safety_gate_witness :
  exists errors,
    TradeExecutor.executeOrder Scenario.any_keys Scenario.accepting_venue
      "alice" "binance" "BTCUSDT" "buy" "market" 1 None "auto" (Some 7)
      (Scenario.trader_db 100000 (1 # 10) 0 3)
    = (inl (TradeExecutor.SafetyBlocked errors), Scenario.trader_db 100000 (1 # 10) 0 3)
    /\ errors <> []
    /\ CrownyDB.exchange_orders (Scenario.trader_db 100000 (1 # 10) 0 3) = [].
Proof.
  destruct (executeOrder_safety_gate Scenario.any_keys Scenario.accepting_venue
              "alice" "binance" "BTCUSDT" "buy" "market" 1 None "auto" (Some 7)
              (Scenario.trader_db 100000 (1 # 10) 0 3)
              (Scenario.config_with (1 # 10) 0 3))
    as (errors & E & Hne & _).
  - vm_compute. reflexivity.
  - right. left. vm_compute. reflexivity.
  - exists errors. split; [exact E|]. split; [exact Hne|reflexivity].
Defined.

(** C4 fails on the code where [price ?? 1] and [price || 1] differ, at a
    price of 0.  With a wallet of 1, [max_position_pct = -1/2], a quantity
    of -1 and a price of 0 the gate as worded trips (0 / 1 > -1/2), yet the
    code finds the order safe (-1 / 1 is below -1/2) and inserts the row.
    With a wallet of 100, [max_position_pct = 1/10], a quantity of 50 and a
    price of 0 the gate as worded does not trip (0 / 100 <= 1/10), yet the
    code blocks the order for its size (50 / 100 > 1/10). *)
Lemma gate_differs_at_price_zero :
  (let db := Scenario.trader_db 1 (- (1 # 2)) 0 0 in
   TradeExecutor.gate_as_specified (Scenario.config_with (- (1 # 2)) 0 0)
     (TradeExecutor.totalValue (CrownyDB.getAllBalances "alice" db))
     (- 1) (Some 0%Q) = true
   /\ (exists r, fst (TradeExecutor.executeOrder Scenario.any_keys
                        Scenario.accepting_venue "alice" "binance" "BTCUSDT"
                        "sell" "limit" (- 1) (Some 0%Q) "manual" None db)
                 = inr r)
   /\ length (CrownyDB.exchange_orders
                (snd (TradeExecutor.executeOrder Scenario.any_keys
                        Scenario.accepting_venue "alice" "binance" "BTCUSDT"
                        "sell" "limit" (- 1) (Some 0%Q) "manual" None db)))
      = 1%nat)
  /\
  (let db := Scenario.trader_db 100 (1 # 10) 0 0 in
   TradeExecutor.gate_as_specified (Scenario.config_with (1 # 10) 0 0)
     (TradeExecutor.totalValue (CrownyDB.getAllBalances "alice" db))
     50 (Some 0%Q) = false
   /\ fst (TradeExecutor.executeOrder Scenario.any_keys
             Scenario.accepting_venue "alice" "binance" "BTCUSDT"
             "buy" "limit" 50 (Some 0%Q) "manual" None db)
      = inl (TradeExecutor.SafetyBlocked [TradeExecutor.PositionSize])).
Proof.
  cbv zeta. split.
  - split; [vm_compute; reflexivity|]. split.
    + eexists. vm_compute. reflexivity.
    + vm_compute. reflexivity.
  - split; vm_compute; reflexivity.
Qed.

(** ** The consensus of the trading AI *)
Section ConsensusFacts.
Import TradingAI.

Lemma Qsum_app l1 l2 : (Qsum (l1 ++ l2) == Qsum l1 + Qsum l2)%Q.
Proof.
  unfold Qsum. induction l1 as [|x l1 IH]; cbn [foldr app].
  - lra.
  - rewrite IH. lra.
Qed.

(** The loop of [analyze] computes the three sums of the specification. *)
Lemma tally_from (results : list Result) (a b c : Q) :
  let '(a', b', c') := fold_left vote results (a, b, c) in
  (a' == a + weightedSum_spec results)%Q
  /\ (b' == b + totalWeight_spec results)%Q.
Proof.
  revert a b c. induction results as [|r l IH]; intros a b c.
  - cbn [fold_left]. unfold weightedSum_spec, totalWeight_spec, Qsum.
    cbn [List.filter map foldr]. split; lra.
  - cbn [fold_left]. unfold vote at 2.
    unfold weightedSum_spec, totalWeight_spec in *. cbn [List.filter].
    change (Qltb 0 (r_confidence r)) with (contributes r).
    destruct (contributes r).
    + specialize (IH (a + inject_Z (r_signal r) * r_weight r * r_confidence r)%Q
                     (b + r_weight r * r_confidence r)%Q
                     (c + r_confidence r)%Q).
      destruct (fold_left vote l _) as [[a' b'] c'].
      destruct IH as [Ha Hb]. cbn [map].
      split.
      * change (Qsum (?x :: ?l)) with (x + Qsum l)%Q.
        rewrite Ha. forget_sums. lra.
      * change (Qsum (?x :: ?l)) with (x + Qsum l)%Q.
        rewrite Hb. forget_sums. lra.
    + apply IH.
Qed.

Lemma tally_spec (results : list Result) :
  let '(ws, tw, _) := tally results in
  (ws == weightedSum_spec results)%Q /\ (tw == totalWeight_spec results)%Q.
Proof.
  unfold tally. pose proof (tally_from results 0 0 0) as H.
  destruct (fold_left vote results _) as [[a b] c].
  destruct H as [Ha Hb]. split; [rewrite Ha|rewrite Hb]; lra.
Qed.

Lemma Qltb_intro x y : (x < y)%Q -> Qltb x y = true.
Proof.
  intros H. unfold Qltb. apply negb_true_iff.
  destruct (Qle_bool y x) eqn:E; [|reflexivity].
  apply Qle_bool_iff in E. lra.
Qed.

Lemma Qltb_elim_false x y : (y <= x)%Q -> Qltb x y = false.
Proof.
  intros H. unfold Qltb. apply negb_false_iff. apply Qle_bool_iff. exact H.
Qed.

Lemma Qltb_compat x x' y y' : (x == x')%Q -> (y == y')%Q -> Qltb x y = Qltb x' y'.
Proof.
  intros Hx Hy. destruct (Qltb x' y') eqn:E.
  - apply Qltb_true in E. apply Qltb_intro. lra.
  - apply Qltb_false in E. apply Qltb_elim_false. lra.
Qed.

Lemma avgScore_spec (results : list Result) :
  (avgScore results
   == if Qltb 0 (totalWeight_spec results)
      then weightedSum_spec results / totalWeight_spec results
      else 0)%Q.
Proof.
  unfold avgScore. pose proof (tally_spec results) as H.
  destruct (tally results) as [[ws tw] tc]. destruct H as [Hws Htw].
  rewrite (Qltb_compat 0 0 tw (totalWeight_spec results) (Qeq_refl 0) Htw).
  destruct (Qltb 0 (totalWeight_spec results)); [|reflexivity].
  rewrite Hws, Htw. reflexivity.
Qed.

(** The thresholds of the decision. *)
Lemma decide_thresholds (score : Q) :
  ((3 # 10) < score -> decide_ score = Buy)%Q
  /\ (score < - (3 # 10) -> decide_ score = Sell)%Q
  /\ (- (3 # 10) <= score <= 3 # 10 -> decide_ score = Hold)%Q.
Proof.
  unfold decide_. repeat split.
  - intros H. rewrite (Qltb_intro _ _ H). reflexivity.
  - intros H. rewrite (Qltb_elim_false (3 # 10) score) by lra.
    rewrite (Qltb_intro _ _ H). reflexivity.
  - intros [H1 H2]. rewrite (Qltb_elim_false (3 # 10) score) by lra.
    rewrite (Qltb_elim_false score (- (3 # 10))) by lra. reflexivity.
Qed.

(** The risk overrides: none of them applies to an allowed report without
    triggers. *)
Lemma apply_risk_clear d risk :
  allowed risk = true ->
  existsb is_stoploss (risks risk) = false ->
  existsb is_takeprofit (risks risk) = false ->
  apply_risk d risk = d.
Proof. intros Ha Hs Ht. unfold apply_risk. rewrite Ha, Hs, Ht. reflexivity. Qed.

Lemma apply_risk_blocked d risk :
  allowed risk = false ->
  existsb is_stoploss (risks risk) = false ->
  existsb is_takeprofit (risks risk) = false ->
  apply_risk d risk = Hold.
Proof. intros Ha Hs Ht. unfold apply_risk. rewrite Ha, Hs, Ht. reflexivity. Qed.

Lemma apply_risk_triggered d risk :
  existsb is_stoploss (risks risk) = true
  \/ existsb is_takeprofit (risks risk) = true ->
  apply_risk d risk = Sell.
Proof.
  intros H. unfold apply_risk.
  destruct H as [-> | ->]; rewrite ?orb_true_r; reflexivity.
Qed.

Lemma one_sided_sums s results :
  votes_all s results ->
  (weightedSum_spec results == inject_Z s * totalWeight_spec results)%Q
  /\ (0 <= totalWeight_spec results)%Q
  /\ (results <> [] -> 0 < totalWeight_spec results)%Q.
Proof.
  unfold weightedSum_spec, totalWeight_spec.
  induction 1 as [|r l (Hs & Hc & Hw) _ (IH1 & IH2 & IH3)].
  - cbn [List.filter map]. unfold Qsum. cbn [foldr].
    repeat split; try lra. intros H. contradiction.
  - assert (Hcr : contributes r = true) by (apply Qltb_intro; lra).
    cbn [List.filter]. rewrite Hcr. cbn [map].
    repeat split.
    + change (Qsum (?x :: ?l)) with (x + Qsum l)%Q.
      rewrite IH1, Hs, Hc. forget_sums. lra.
    + change (Qsum (?x :: ?l)) with (x + Qsum l)%Q.
      rewrite Hc. revert IH2. forget_sums. lra.
    + intros _. change (Qsum (?x :: ?l)) with (x + Qsum l)%Q.
      rewrite Hc. revert IH2. forget_sums. lra.
Qed.

Lemma one_sided_score s results :
  results <> [] -> votes_all s results ->
  (avgScore results == inject_Z s)%Q.
Proof.
  intros Hne Hv. rewrite avgScore_spec.
  destruct (one_sided_sums s results Hv) as (Hws & _ & Hpos).
  specialize (Hpos Hne). rewrite (Qltb_intro _ _ Hpos).
  rewrite Hws. field. lra.
Qed.

Lemma split_sum results :
  three_valued results ->
  (weightedSum_spec results == weight_of 1 results - weight_of (-1) results)%Q.
Proof.
  unfold weightedSum_spec, weight_of.
  induction 1 as [|r l Hs _ IH].
  - cbn [List.filter map]. unfold Qsum. cbn [foldr]. lra.
  - cbn [List.filter]. destruct (contributes r); cbn [andb]; [|exact IH].
    destruct Hs as [Hs | [Hs | Hs]]; rewrite Hs; cbn [Z.eqb Pos.eqb map];
      step_sums; rewrite IH, ?Hs; forget_sums; unfold inject_Z; lra.
Qed.

Lemma even_split_score results :
  three_valued results ->
  (weight_of 1 results == weight_of (-1) results)%Q ->
  (avgScore results == 0)%Q.
Proof.
  intros H3 Heq. rewrite avgScore_spec.
  destruct (Qltb 0 (totalWeight_spec results)); [|reflexivity].
  rewrite (split_sum results H3), Heq.
  unfold Qdiv. forget_sums. generalize (/ totalWeight_spec results)%Q.
  intros. lra.
Qed.

Lemma analyze_enough candles symbol balance ai :
  (50 <= length candles)%nat ->
  let results := map (run_strategy candles) (strategies ai) in
  let risk := fst (checkRisk symbol (close (List.last candles (mkCandle 0 0 0 0 0)))
                             balance (riskManager ai)) in
  let a := fst (analyze candles symbol balance ai) in
  a_score a = avgScore results
  /\ a_confidence a = avgConfidence results
  /\ a_decision a = apply_risk (decide_ (avgScore results)) risk
  /\ a_trit a = trit_of (a_decision a)
  /\ a_risk a = Some risk.
Proof.
  intros Hlen. cbv zeta. unfold analyze.
  apply Nat.ltb_ge in Hlen. rewrite Hlen.
  destruct (checkRisk _ _ _ _) as [risk rm']. cbn. repeat split; reflexivity.
Qed.

(** C5, as the code has it.  On at least 50 candles [analyze] returns the
    score [weightedSum / totalWeight] of the strategies with a positive
    confidence (0 when none contributes).  The decision of the vote is buy
    when the score is above 0.3, sell when it is below -0.3 and hold
    otherwise; the decision returned is that of the vote after the risk
    check: it is the decision of the vote when the risk manager allows the
    trade and reports no stop-loss and no take-profit, while a blocked
    decision comes back as hold and a trigger as sell.  When every
    strategy votes +1 with confidence 1 the score is 1 and the vote is buy,
    when every strategy votes -1 with confidence 1 the score is -1 and the
    vote is sell, and when the weight behind +1 equals the weight behind -1
    the score is 0 and the vote is hold. *)
Theorem analyze_consensus (ai : TradingAI.t) (candles : list Candle)
  (symbol : string) (balance : Q) (Hlen : (50 <= length candles)%nat) :
  let results := map (run_strategy candles) (strategies ai) in
  let risk := fst (checkRisk symbol (close (List.last candles (mkCandle 0 0 0 0 0)))
                             balance (riskManager ai)) in
  let a := fst (analyze candles symbol balance ai) in
  let vote := decide_ (a_score a) in
  (a_score a == if Qltb 0 (totalWeight_spec results)
                then weightedSum_spec results / totalWeight_spec results
                else 0)%Q
  /\ (((3 # 10) < a_score a)%Q -> vote = Buy)
  /\ ((a_score a < - (3 # 10))%Q -> vote = Sell)
  /\ ((- (3 # 10) <= a_score a <= 3 # 10)%Q -> vote = Hold)
  /\ a_decision a = apply_risk vote risk
  /\ (allowed risk = true ->
      existsb is_stoploss (risks risk) = false ->
      existsb is_takeprofit (risks risk) = false ->
      a_decision a = vote)
  /\ (results <> [] -> votes_all 1 results ->
      (a_score a == 1)%Q /\ vote = Buy)
  /\ (results <> [] -> votes_all (-1) results ->
      (a_score a == -1)%Q /\ vote = Sell)
  /\ (three_valued results ->
      (weight_of 1 results == weight_of (-1) results)%Q ->
      (a_score a == 0)%Q /\ (- (3 # 10) < a_score a < 3 # 10)%Q /\ vote = Hold).
Proof.
  cbv zeta.
  destruct (analyze_enough candles symbol balance ai Hlen)
    as (Hscore & _ & Hdec & _ & _).
  cbv zeta in Hscore, Hdec. rewrite Hdec, Hscore.
  set (results := map (run_strategy candles) (strategies ai)).
  destruct (decide_thresholds (avgScore results)) as (HB & HS & HH).
  split; [apply avgScore_spec|].
  split; [exact HB|]. split; [exact HS|]. split; [exact HH|].
  split; [reflexivity|].
  split; [intros Ha Hs Ht; apply apply_risk_clear; assumption|].
  split; [|split].
  - intros Hne Hv. pose proof (one_sided_score 1 results Hne Hv) as E.
    split; [exact E|]. apply HB. rewrite E. reflexivity.
  - intros Hne Hv. pose proof (one_sided_score (-1) results Hne Hv) as E.
    split; [exact E|]. apply HS. rewrite E. reflexivity.
  - intros H3 Heq. pose proof (even_split_score results H3 Heq) as E.
    split; [exact E|]. split.
    + rewrite E. split; reflexivity.
    + apply HH. rewrite E. split; discriminate.
Qed.

End ConsensusFacts.

(** With six strategies that all vote buy with confidence 1, a new trading
    AI scores 1 and returns buy. *)
Lemma analyze_consensus_witness :
  let a := fst (TradingAI.analyze Scenario.flat_candles "BTCUSDT" 100000
                                  Scenario.bullish_ai) in
  (TradingAI.a_score a == 1)%Q
  /\ TradingAI.decide_ (TradingAI.a_score a) = TradingAI.Buy
  /\ TradingAI.a_decision a = TradingAI.Buy.
Proof.
  cbv zeta.
  assert (Hlen : (50 <= length Scenario.flat_candles)%nat)
    by (vm_compute; lia).
  destruct (analyze_consensus Scenario.bullish_ai Scenario.flat_candles
              "BTCUSDT" 100000 Hlen)
    as (_ & _ & _ & _ & _ & Hclear & Hall & _).
  cbv zeta in Hclear, Hall.
  destruct Hall as [Hs Hv].
  - vm_compute. discriminate.
  - repeat constructor; vm_compute; reflexivity || discriminate.
  - split; [exact Hs|]. split; [exact Hv|].
    rewrite Hclear; [exact Hv| | |]; vm_compute; reflexivity.
Defined.

(** C5 fails on the code: after the first step of a backtest (balance
    10000000) the same trading AI, asked with the default balance of
    100000, still scores 1 with all six strategies voting buy with
    confidence 1, but the draw-down of 99% blocks the trade and the
    decision returned is hold. *)
Lemma analyze_blocked_holds :
  let a := fst (TradingAI.analyze Scenario.flat_candles "BTCUSDT" 100000
                                  Scenario.after_backtest) in
  TradingAI.votes_all 1
    (map (TradingAI.run_strategy Scenario.flat_candles)
         (TradingAI.strategies Scenario.after_backtest))
  /\ (TradingAI.a_score a == 1)%Q
  /\ TradingAI.a_decision a = TradingAI.Hold
  /\ TradingAI.a_decision a <> TradingAI.Buy.
Proof.
  cbv zeta. split.
  - repeat constructor; vm_compute; reflexivity || discriminate.
  - split; [vm_compute; reflexivity|].
    assert (E : TradingAI.a_decision
                  (fst (TradingAI.analyze Scenario.flat_candles "BTCUSDT" 100000
                                          Scenario.after_backtest))
                = TradingAI.Hold) by (vm_compute; reflexivity).
    rewrite E. split; [reflexivity|discriminate].
Qed.

(** ** The rate limit of the gateway *)
Section GatewayFacts.
Import MetaKernelGateway.

Variable A : Type.
Variables _routeDex _routeAI _routeExchange _routeAutoTrade
  : string -> string -> Eff.M (list Event) string A.

Abbreviation route_ := (route A _routeDex _routeAI _routeExchange _routeAutoTrade).
Abbreviation calls_ := (calls A _routeDex _routeAI _routeExchange _routeAutoTrade).

Lemma lift_router_passes m g :
  admitted A (fst (lift_router A m g)) = true
  /\ rateLimits (snd (lift_router A m g)) = rateLimits g.
Proof.
  unfold lift_router. destruct (m (eventLog g)) as [[msg|a] log]; cbn; auto.
Qed.

(** A call is turned away exactly when the rate check fails, and the
    table of counters after it is the one that the check leaves. *)
Lemma route_rate_check service_ action_ userId_ now g :
  admitted A (fst (route_ service_ action_ userId_ now g))
  = fst (_checkRateLimit userId_ now g)
  /\ rateLimits (snd (route_ service_ action_ userId_ now g))
     = rateLimits (snd (_checkRateLimit userId_ now g)).
Proof.
  unfold route, Eff.bind, Eff.get, Eff.put, Eff.throw, Eff.modify.
  destruct (_checkRateLimit userId_ now g) as [ok g1]. cbn [fst snd].
  destruct ok; cbn [negb]; [|split; reflexivity].
  repeat match goal with
         | |- context [if ?b then _ else _] => destruct b
         end;
    try (split; reflexivity);
    match goal with
    | |- context [lift_router A ?m ?g'] =>
        destruct (lift_router_passes m g') as [H1 H2]; rewrite H1, H2;
        split; reflexivity
    end.
Qed.

Lemma checkRateLimit_in_window userId_ now g l :
  rateLimits g !! userId_ = Some l -> now <= resetAt l ->
  fst (_checkRateLimit userId_ now g) = (count l + 1 <=? RATE_LIMIT)
  /\ rateLimits (snd (_checkRateLimit userId_ now g)) !! userId_
     = Some {| count := count l + 1; resetAt := resetAt l |}.
Proof.
  intros Hl Hnow. unfold _checkRateLimit. rewrite Hl.
  destruct (Z.ltb_spec (resetAt l) now); [lia|].
  cbn. rewrite lookup_insert_eq. split; reflexivity.
Qed.

Lemma checkRateLimit_new_window userId_ now g :
  match rateLimits g !! userId_ with
  | Some l => resetAt l < now
  | None => True
  end ->
  fst (_checkRateLimit userId_ now g) = true
  /\ rateLimits (snd (_checkRateLimit userId_ now g)) !! userId_
     = Some {| count := 1; resetAt := now + RATE_WINDOW |}.
Proof.
  intros Hl. unfold _checkRateLimit.
  destruct (rateLimits g !! userId_) as [l|].
  - destruct (Z.ltb_spec (resetAt l) now); [|lia].
    cbn. rewrite lookup_insert_eq. split; reflexivity.
  - cbn. rewrite lookup_insert_eq. split; reflexivity.
Qed.

(** Inside a window the n-th further call is admitted while the counter
    stays within the limit. *)
Lemma calls_in_window service_ action_ userId_ times :
  forall g c r,
  rateLimits g !! userId_ = Some {| count := c; resetAt := r |} ->
  Forall (fun now => now <= r) times ->
  fst (calls_ service_ action_ userId_ times g)
  = map (fun n => c + 1 + Z.of_nat n <=? RATE_LIMIT) (seq 0 (length times)).
Proof.
  induction times as [|now rest IH]; intros g c r Hl Hw; [reflexivity|].
  apply Forall_cons in Hw as [Hnow Hrest].
  cbn [calls].
  destruct (route_rate_check service_ action_ userId_ now g) as [Hadm Htab].
  destruct (checkRateLimit_in_window userId_ now g _ Hl Hnow) as [Hok Hl'].
  cbn [count resetAt] in Hok, Hl'.
  destruct (route_ service_ action_ userId_ now g) as [res g1].
  cbn [fst snd] in Hadm, Htab. rewrite <- Htab in Hl'.
  specialize (IH g1 (c + 1) r Hl' Hrest).
  destruct (calls_ service_ action_ userId_ rest g1) as [rs g2].
  cbn [fst] in *. rewrite Hadm, Hok, IH.
  cbn [length seq map]. f_equal; [f_equal; lia|].
  rewrite <- seq_shift, map_map. apply map_ext. intros n. f_equal. lia.
Qed.

(** C6, as the code has it.  For a principal without a window, or with
    one whose [resetAt] lies before the time [t0] of a call, that call
    opens a window that lasts until [t0 + 60000] inclusive: of the calls
    that arrive within it the first 100 are admitted (the call at [t0]
    being the first) and every later one raises [RateLimited].  The
    counter starts again at the first call that arrives more than 60000
    milliseconds after the window was opened, and that call is
    admitted. *)
Theorem rate_limit_window (g : MetaKernelGateway.t)
  (service_ action_ userId_ : string) (t0 : Z) (times : list Z)
  (Hnew : match rateLimits g !! userId_ with
          | Some l => resetAt l < t0
          | None => True
          end)
  (Hwindow : Forall (fun now => now <= t0 + RATE_WINDOW) times) :
  fst (calls_ service_ action_ userId_ (t0 :: times) g)
  = map (fun n => (n <? 100)%nat) (seq 0 (S (length times)))
  /\ (forall g' l now,
        rateLimits g' !! userId_ = Some l -> resetAt l < now ->
        admitted A (fst (route_ service_ action_ userId_ now g')) = true
        /\ rateLimits (snd (route_ service_ action_ userId_ now g')) !! userId_
           = Some {| count := 1; resetAt := now + RATE_WINDOW |}).
Proof.
  split.
  - cbn [calls].
    destruct (route_rate_check service_ action_ userId_ t0 g) as [Hadm Htab].
    destruct (checkRateLimit_new_window userId_ t0 g Hnew) as [Hok Hl'].
    destruct (route_ service_ action_ userId_ t0 g) as [res g1].
    cbn [fst snd] in Hadm, Htab. rewrite <- Htab in Hl'.
    pose proof (calls_in_window service_ action_ userId_ times g1 1
                  (t0 + RATE_WINDOW) Hl' Hwindow) as Hrest.
    destruct (calls_ service_ action_ userId_ times g1) as [rs g2].
    cbn [fst] in *. rewrite Hadm, Hok, Hrest.
    cbn [seq map]. f_equal.
    rewrite <- seq_shift, map_map. apply map_ext. intros n.
    unfold RATE_LIMIT.
    destruct (Z.leb_spec (1 + 1 + Z.of_nat n) 100);
      destruct (Nat.ltb_spec (S n) 100); try reflexivity; lia.
  - intros g' l now Hl Hnow.
    destruct (route_rate_check service_ action_ userId_ now g') as [Hadm Htab].
    destruct (checkRateLimit_new_window userId_ now g') as [Hok Hl'].
    { rewrite Hl. exact Hnow. }
    rewrite Hadm, Htab. split; assumption.
Qed.

End GatewayFacts.

(** 102 calls of one principal within a second: the first 100 pass, the
    101st and the 102nd are turned away. *)
Lemma rate_limit_window_witness :
  fst (MetaKernelGateway.calls unit Scenario.idle_router Scenario.idle_router
         Scenario.idle_router Scenario.idle_router "dex" "pools" "alice"
         (0 :: repeat 1000 101) MetaKernelGateway.new)
  = repeat true 100 ++ [false; false].
Proof.
  assert (Hw : Forall (fun now => now <= 0 + MetaKernelGateway.RATE_WINDOW)
                      (repeat 1000 101)).
  { apply List.Forall_forall. intros x Hx. apply repeat_spec in Hx. subst x.
    vm_compute. discriminate. }
  destruct (rate_limit_window unit Scenario.idle_router Scenario.idle_router
              Scenario.idle_router Scenario.idle_router
              MetaKernelGateway.new "dex" "pools" "alice" 0
              (repeat 1000 101) I Hw) as [H _].
  rewrite H. vm_compute. reflexivity.
Defined.

(** C6 fails on the code at the boundary: a principal makes 100 calls at
    time 0, which opens a window with [resetAt = 60000]; at time 60000,
    when 60 seconds have elapsed since the window started, the counter is
    not reset ([now > resetAt] is false) and the call raises
    [RateLimited]. *)
Lemma rate_limit_at_sixty_seconds :
  fst Scenario.hundred_calls = repeat true 100
  /\ MetaKernelGateway.rateLimits (snd Scenario.hundred_calls) !! "alice"
     = Some {| MetaKernelGateway.count := 100;
               MetaKernelGateway.resetAt := 60000 |}
  /\ fst (Scenario.call_at 60000 (snd Scenario.hundred_calls))
     = inl MetaKernelGateway.RateLimited
  /\ fst (Scenario.call_at 60001 (snd Scenario.hundred_calls)) = inr tt.
Proof. vm_compute. repeat split; reflexivity. Qed.

(** * Further properties *)

(** ** The liquidity pool: errors, accounting, monotonicity *)
Section PoolMore.
Import LiquidityPool.

Lemma swapAtoB_throws x p e p' :
  swapAtoB x p = (inl e, p') -> e <> NotFinite ->
  p' = p
  /\ ((e = NoLiquidity /\ (reserveA p = 0 \/ reserveB p = 0))
      \/ (e = ZeroOutput /\ reserveA p <> 0 /\ reserveB p <> 0)).
Proof.
  unfold swapAtoB, Eff.bind, Eff.get, Eff.throw.
  destruct (Z.eqb_spec (reserveA p) 0) as [HA|HA]; cbn [orb].
  { intros [= <- <-]. auto. }
  destruct (Z.eqb_spec (reserveB p) 0) as [HB|HB].
  { intros [= <- <-]. auto. }
  destruct (js_floor_div _ _) as [q| | |].
  - destruct (_ <=? _); [intros [= <- <-]; auto|cbn; discriminate].
  - intros [= <- <-]. auto.
  - intros [= <- <-]. congruence.
  - intros [= <- <-]. congruence.
Qed.

Lemma swapBtoA_throws x p e p' :
  swapBtoA x p = (inl e, p') -> e <> NotFinite ->
  p' = p
  /\ ((e = NoLiquidity /\ (reserveA p = 0 \/ reserveB p = 0))
      \/ (e = ZeroOutput /\ reserveA p <> 0 /\ reserveB p <> 0)).
Proof.
  unfold swapBtoA, Eff.bind, Eff.get, Eff.throw.
  destruct (Z.eqb_spec (reserveA p) 0) as [HA|HA]; cbn [orb].
  { intros [= <- <-]. auto. }
  destruct (Z.eqb_spec (reserveB p) 0) as [HB|HB].
  { intros [= <- <-]. auto. }
  destruct (js_floor_div _ _) as [q| | |].
  - destruct (_ <=? _); [intros [= <- <-]; auto|cbn; discriminate].
  - intros [= <- <-]. auto.
  - intros [= <- <-]. congruence.
  - intros [= <- <-]. congruence.
Qed.

(** X1.  The pool throws before it writes: [removeLiquidity] throws only
    for a holding below the shares asked, a swap only for an empty side or
    an output that is not positive, and each leaves the pool as it was;
    [addLiquidity] validates nothing and never throws. *)
Theorem pool_throws_before_writing (p : Pool) :
  (forall provider shares e p',
      removeLiquidity provider shares p = (inl e, p') -> e <> NotFinite ->
      e = InsufficientShares /\ held p provider < shares /\ p' = p)
  /\ (forall amountIn e p',
      swapAtoB amountIn p = (inl e, p') \/ swapBtoA amountIn p = (inl e, p') ->
      e <> NotFinite ->
      p' = p
      /\ ((e = NoLiquidity /\ (reserveA p = 0 \/ reserveB p = 0))
          \/ (e = ZeroOutput /\ reserveA p <> 0 /\ reserveB p <> 0)))
  /\ (forall provider amountA amountB e p',
      addLiquidity provider amountA amountB p = (inl e, p') -> e = NotFinite).
Proof.
  split; [|split].
  - intros provider shares e p'.
    unfold removeLiquidity, Eff.bind, Eff.get, Eff.throw.
    destruct (Z.ltb_spec (held p provider) shares).
    + intros [= <- <-]. auto.
    + destruct (js_floor_div (shares * reserveA p) (totalLpShares p));
        try (intros [= <- <-]; congruence).
      destruct (js_floor_div (shares * reserveB p) (totalLpShares p));
        try (intros [= <- <-]; congruence).
      destruct (lpHolders p !! provider);
        [cbn; discriminate | intros [= <- <-]; congruence].
  - intros amountIn e p' [H|H] Hne.
    + exact (swapAtoB_throws _ _ _ _ H Hne).
    + exact (swapBtoA_throws _ _ _ _ H Hne).
  - intros provider amountA amountB e p'.
    unfold addLiquidity, Eff.bind, Eff.get, Eff.throw.
    destruct (if totalLpShares p =? 0 then _ else _); cbn;
      intros [= <- <-]; reflexivity.
Qed.

(** *** The sum of the holdings *)

Import Sound.












(** *** The price history *)

Lemma recorded (h : list Q) (q : Q) :
  (length h <= 1000)%nat ->
  let h1 := h ++ [q] in
  let h' := if 1000 <? Z.of_nat (length h1) then tail h1 else h1 in
  length h' = Nat.min (S (length h)) 1000 /\ last h' = Some q.
Proof.
  intros Hlen. cbv zeta. rewrite length_app. cbn [length].
  destruct (Z.ltb_spec 1000 (Z.of_nat (length h + 1))).
  - destruct h as [|x h]; cbn [length] in *; [lia|].
    cbn [app tail]. rewrite length_app, last_snoc. cbn [length]. split; [lia|reflexivity].
  - rewrite length_app, last_snoc. cbn [length]. split; [lia|reflexivity].
Qed.

Lemma history_after p r p' :
  (exists provider a b, addLiquidity provider a b p = (inr r, p')) \/
  (exists provider shares, removeLiquidity provider shares p = (inr r, p')) ->
  priceHistory p'
  = (let h1 := priceHistory p ++ [priceAinB p'] in
     if 1000 <? Z.of_nat (length h1) then tail h1 else h1).
Proof.
  intros [(provider & a & b & H)|(provider & shares & H)]; revert H.
  - unfold addLiquidity, Eff.bind, Eff.get, Eff.throw.
    destruct (if totalLpShares p =? 0 then _ else _); try discriminate.
    cbn. intros [= _ <-]. reflexivity.
  - unfold removeLiquidity, Eff.bind, Eff.get, Eff.throw.
    destruct (_ <? _); [discriminate|].
    destruct (js_floor_div _ _); try discriminate.
    destruct (js_floor_div _ _); try discriminate.
    destruct (lpHolders p !! provider); [|discriminate].
    cbn. intros [= _ <-]. reflexivity.
Qed.

Lemma history_after_swap x p r p' :
  swapAtoB x p = (inr r, p') \/ swapBtoA x p = (inr r, p') ->
  priceHistory p'
  = (let h1 := priceHistory p ++ [priceAinB p'] in
     if 1000 <? Z.of_nat (length h1) then tail h1 else h1).
Proof.
  intros [H|H]; revert H;
    unfold swapAtoB, swapBtoA, Eff.bind, Eff.get, Eff.throw;
    (destruct (_ || _); [discriminate|]);
    (destruct (js_floor_div _ _); try discriminate);
    (destruct (_ <=? _); [discriminate|]);
    cbn; intros [= _ <-]; reflexivity.
Qed.

(** X3.  The price history is a ring of 1000 entries: every deposit,
    withdrawal and swap that returns appends the price [reserveB /
    reserveA] of the pool as it leaves it, and drops the oldest entry
    once there would be more than 1000. *)
Theorem price_history_ring (p : Pool) (r_lp : LpReceipt) (r_sw : SwapReceipt)
  (p' : Pool)
  (Hlen : (length (priceHistory p) <= 1000)%nat)
  (Hop : (exists provider a b, addLiquidity provider a b p = (inr r_lp, p'))
         \/ (exists provider shares,
               removeLiquidity provider shares p = (inr r_lp, p'))
         \/ (exists x, swapAtoB x p = (inr r_sw, p'))
         \/ (exists x, swapBtoA x p = (inr r_sw, p'))) :
  length (priceHistory p') = Nat.min (S (length (priceHistory p))) 1000
  /\ last (priceHistory p') = Some (priceAinB p').
Proof.
  assert (E : priceHistory p'
              = (let h1 := priceHistory p ++ [priceAinB p'] in
                 if 1000 <? Z.of_nat (length h1) then tail h1 else h1)).
  { destruct Hop as [H|[H|[[x H]|[x H]]]].
    - apply (history_after p r_lp p'). left. exact H.
    - apply (history_after p r_lp p'). right. exact H.
    - apply (history_after_swap x p r_sw p'). left. exact H.
    - apply (history_after_swap x p r_sw p'). right. exact H. }
  rewrite E. apply recorded. exact Hlen.
Qed.

Lemma price_history_ring_witness :
  let p' := snd (swapAtoB 10000 crwn_usdt) in
  length (priceHistory p') = 2%nat
  /\ last (priceHistory p') = Some (priceAinB p').
Proof.
  cbv zeta.
  destruct (swapAtoB 10000 crwn_usdt) as [[e|r] p'] eqn:E.
  - vm_compute in E. discriminate E.
  - cbn [snd].
    assert (Hlen : (length (priceHistory crwn_usdt) <= 1000)%nat)
      by (vm_compute; lia).
    destruct (price_history_ring crwn_usdt
                (mkLpReceipt "" "" 0 0 0 Add 0) r p' Hlen) as [H1 H2].
    + right. right. left. exists 10000. exact E.
    + split; [|exact H2]. rewrite H1. vm_compute. reflexivity.
Defined.

(** *** Larger swaps, larger outputs *)

Lemma after_fee_monotone x y f :
  f <= 10000 -> x <= y -> x - x * f / 10000 <= y - y * f / 10000.
Proof.
  intros Hf Hxy.
  assert (y * f / 10000 <= (x * f + (y - x) * 10000) / 10000)
    by (apply Z.div_le_mono; nia).
  rewrite Z.div_add in H by lia. lia.
Qed.

(** When a swap returns. *)
Lemma swapAtoB_returns p x :
  reserveA p <> 0 -> reserveB p <> 0 ->
  reserveA p + (x - x * feeBps p / 10000) <> 0 ->
  0 < reserveB p - k p / (reserveA p + (x - x * feeBps p / 10000)) ->
  exists r p', swapAtoB x p = (inr r, p')
    /\ sw_amountOut r
       = reserveB p - k p / (reserveA p + (x - x * feeBps p / 10000)).
Proof.
  intros HA HB Hn Hout. unfold swapAtoB, Eff.bind, Eff.get, Eff.throw.
  destruct (Z.eqb_spec (reserveA p) 0); [contradiction|].
  destruct (Z.eqb_spec (reserveB p) 0); [contradiction|].
  cbn [orb]. rewrite js_floor_div_fin by assumption.
  destruct (Z.leb_spec
    (reserveB p - k p / (reserveA p + (x - x * feeBps p / 10000))) 0); [lia|].
  cbn. eexists _, _. split; reflexivity.
Qed.

Lemma swapBtoA_returns p x :
  reserveA p <> 0 -> reserveB p <> 0 ->
  reserveB p + (x - x * feeBps p / 10000) <> 0 ->
  0 < reserveA p - k p / (reserveB p + (x - x * feeBps p / 10000)) ->
  exists r p', swapBtoA x p = (inr r, p')
    /\ sw_amountOut r
       = reserveA p - k p / (reserveB p + (x - x * feeBps p / 10000)).
Proof.
  intros HA HB Hn Hout. unfold swapBtoA, Eff.bind, Eff.get, Eff.throw.
  destruct (Z.eqb_spec (reserveA p) 0); [contradiction|].
  destruct (Z.eqb_spec (reserveB p) 0); [contradiction|].
  cbn [orb]. rewrite js_floor_div_fin by assumption.
  destruct (Z.leb_spec
    (reserveA p - k p / (reserveB p + (x - x * feeBps p / 10000))) 0); [lia|].
  cbn. eexists _, _. split; reflexivity.
Qed.

(** X4.  On a pool with positive reserves, [k >= 0] and a fee of at most
    10000 basis points, a swap that returns for an amount [x >= 0] also
    returns for every larger amount [y], and pays out at least as
    much. *)
Theorem swap_output_monotone (p : Pool) (x y : Z) (r1 : SwapReceipt) (p1 : Pool)
  (HA : 0 < reserveA p) (HB : 0 < reserveB p) (Hk : 0 <= k p)
  (Hfee : feeBps p <= 10000) (Hx : 0 <= x) (Hxy : x <= y) :
  (swapAtoB x p = (inr r1, p1) ->
   exists r2 p2, swapAtoB y p = (inr r2, p2)
                 /\ sw_amountOut r1 <= sw_amountOut r2)
  /\ (swapBtoA x p = (inr r1, p1) ->
   exists r2 p2, swapBtoA y p = (inr r2, p2)
                 /\ sw_amountOut r1 <= sw_amountOut r2).
Proof.
  pose proof (after_fee_monotone x y (feeBps p) Hfee Hxy) as Hmono.
  pose proof (fee_le x (feeBps p) Hx Hfee) as Hfx.
  split; intros H.
  - apply swapAtoB_inv in H. cbv zeta in H.
    destruct H as (_ & _ & _ & Hout & _ & _ & _ & _ & _ & Eo & _).
    assert (Hdiv : k p / (reserveA p + (y - y * feeBps p / 10000))
                   <= k p / (reserveA p + (x - x * feeBps p / 10000)))
      by (apply Z.div_le_compat_l; lia).
    destruct (swapAtoB_returns p y) as (r2 & p2 & E & Eo2); try lia.
    exists r2, p2. split; [exact E|]. rewrite Eo, Eo2. lia.
  - apply swapBtoA_inv in H. cbv zeta in H.
    destruct H as (_ & _ & _ & Hout & _ & _ & _ & _ & _ & Eo & _).
    assert (Hdiv : k p / (reserveB p + (y - y * feeBps p / 10000))
                   <= k p / (reserveB p + (x - x * feeBps p / 10000)))
      by (apply Z.div_le_compat_l; lia).
    destruct (swapBtoA_returns p y) as (r2 & p2 & E & Eo2); try lia.
    exists r2, p2. split; [exact E|]. rewrite Eo, Eo2. lia.
Qed.

Lemma swap_output_monotone_witness :
  exists r1 p1 r2 p2,
    swapAtoB 10000 crwn_usdt = (inr r1, p1)
    /\ swapAtoB 20000 crwn_usdt = (inr r2, p2)
    /\ sw_amountOut r1 <= sw_amountOut r2.
Proof.
  destruct (swapAtoB 10000 crwn_usdt) as [[e|r1] p1] eqn:E.
  { vm_compute in E. discriminate E. }
  assert (HA : 0 < reserveA crwn_usdt) by (vm_compute; reflexivity).
  assert (HB : 0 < reserveB crwn_usdt) by (vm_compute; reflexivity).
  assert (Hk : 0 <= k crwn_usdt) by (vm_compute; discriminate).
  assert (Hfee : feeBps crwn_usdt <= 10000) by (vm_compute; discriminate).
  destruct (swap_output_monotone crwn_usdt 10000 20000 r1 p1 HA HB Hk Hfee)
    as [H _]; [lia|lia|].
  destruct (H E) as (r2 & p2 & E2 & Hle).
  exists r1, p1, r2, p2. split; [reflexivity|]. split; assumption.
Defined.

(** *** Deposits and withdrawals do not dilute *)

(** X5.  On a pool with positive reserves and share supply, neither a
    deposit nor a withdrawal lowers the reserve behind one share: with [S]
    the supply before and [S'] after, [reserveA'·S >= reserveA·S'], and
    likewise for tokenB.  The floors of the share and payout computations
    round in favour of the holders who stay. *)
Theorem liquidity_never_dilutes (p : Pool) (r : LpReceipt) (p' : Pool)
  (HS : 0 < totalLpShares p) (HA : 0 < reserveA p) (HB : 0 < reserveB p)
  (Hop : (exists provider a b, addLiquidity provider a b p = (inr r, p'))
         \/ (exists provider shares,
               removeLiquidity provider shares p = (inr r, p'))) :
  reserveA p * totalLpShares p' <= reserveA p' * totalLpShares p
  /\ reserveB p * totalLpShares p' <= reserveB p' * totalLpShares p.
Proof.
  destruct Hop as [(provider & a & b & H)|(provider & shares & H)].
  - apply addLiquidity_inv in H as (Hs & EA & EB & ES & _).
    destruct (Z.eqb_spec (totalLpShares p) 0); [lia|].
    rewrite !js_floor_div_fin in Hs by lia. cbn in Hs. injection Hs as Hs.
    rewrite EA, EB, ES.
    pose proof (minted_covers_deposit a (reserveA p) (totalLpShares p)
                  (lp_shares r) HA ltac:(lia)).
    pose proof (minted_covers_deposit b (reserveB p) (totalLpShares p)
                  (lp_shares r) HB ltac:(lia)).
    split; nia.
  - revert H. unfold removeLiquidity, Eff.bind, Eff.get, Eff.throw.
    destruct (_ <? _); [discriminate|].
    rewrite !js_floor_div_fin by lia.
    destruct (lpHolders p !! provider); [|discriminate].
    cbn. intros [= _ <-]. cbn.
    pose proof (Z.mul_div_le (shares * reserveA p) (totalLpShares p) HS).
    pose proof (Z.mul_div_le (shares * reserveB p) (totalLpShares p) HS).
    split; nia.
Qed.

Lemma liquidity_never_dilutes_witness :
  let p' := snd (addLiquidity "alice" 8 1 crwn_usdt) in
  reserveA crwn_usdt * totalLpShares p' <= reserveA p' * totalLpShares crwn_usdt
  /\ reserveB crwn_usdt * totalLpShares p' <= reserveB p' * totalLpShares crwn_usdt.
Proof.
  cbv zeta.
  destruct (addLiquidity "alice" 8 1 crwn_usdt) as [[e|r] p'] eqn:E.
  - vm_compute in E. discriminate E.
  - cbn [snd].
    apply (liquidity_never_dilutes crwn_usdt r p').
    + vm_compute. reflexivity.
    + vm_compute. reflexivity.
    + vm_compute. reflexivity.
    + left. exists "alice", 8, 1. exact E.
Defined.

End PoolMore.

(** ** The exchange over its pools: balances and reserves *)
Section DexFacts.
Import CrownyDEX.


Lemma balance_after_mint user token amount d user' token' :
  balance user' token' (mint user token amount d)
  = if decide ((user', token') = (user, token))
    then balance user token d + amount else balance user' token' d.
Proof.
  unfold balance, mint. cbn.
  destruct (decide ((user', token') = (user, token))) as [[= -> ->]|Hne].
  - rewrite lookup_insert_eq, lookup_insert_eq.
    destruct (balances d !! user) as [row|]; cbn; [reflexivity|].
    rewrite lookup_empty. reflexivity.
  - destruct (decide (user = user')) as [<-|Hu].
    + rewrite lookup_insert_eq.
      rewrite lookup_insert_ne by congruence.
      destruct (balances d !! user) as [row|]; cbn; [reflexivity|].
      rewrite lookup_empty. reflexivity.
    + rewrite lookup_insert_ne by exact Hu. reflexivity.
Qed.

(** X6.  [mint] and [balance] round trip: a mint adds its amount to the
    balance of that user and token (0 when there was none) and changes no
    other balance. *)
Theorem mint_then_balance (d : CrownyDEX.t) (user token : string) (amount : Z) :
  balance user token (mint user token amount d) = balance user token d + amount
  /\ (forall user' token',
        (user', token') <> (user, token) ->
        balance user' token' (mint user token amount d) = balance user' token' d).
Proof.
  split.
  - rewrite balance_after_mint. destruct (decide _); [reflexivity|congruence].
  - intros user' token' Hne. rewrite balance_after_mint.
    destruct (decide _); [congruence|reflexivity].
Qed.











End DexFacts.

(** ** The order book: what a run of the matcher keeps *)
Section BookMore.
Import OrderBook.
Import Sound.

Lemma selected_picked before poolId_ side_ os0 :
  Forall (picked os0 poolId_ side_)
         (map fst (sort_by before (filter_from 0 (selects poolId_ side_) os0))).
Proof.
  apply List.Forall_forall. intros j Hj.
  apply in_map_iff in Hj as ([j' q] & <- & Hin). cbn.
  apply sort_by_in, filter_from_spec in Hin as (o & Hl & Hf & _).
  rewrite Nat.sub_0_r in Hl. exists o. split; [assumption|].
  unfold selects in Hf.
  apply andb_prop in Hf as [Hf Hs]. apply andb_prop in Hf as [Hp Hsd].
  apply String.eqb_eq in Hp, Hsd.
  repeat split; try assumption.
  destruct (status o); cbn in Hs; congruence.
Qed.

(** The six writes of the loop body are one write to each of the two
    orders. *)
Lemma match_pair_step bi si os ms :
  bi <> si ->
  match_pair bi si (os, ms)
  = match os !! bi, os !! si with
    | Some buy, Some sell =>
        if Qle_bool (price sell) (price buy) then
          let f := Z.min (amount buy - filled buy) (amount sell - filled sell) in
          if 0 <? f then
            (alter (bump f) bi (alter (bump f) si os),
             ms ++ [ {| buyId := id buy; sellId := id sell;
                        fill := f; m_price := price sell |} ])
          else (os, ms)
        else (os, ms)
    | _, _ => (os, ms)
    end.
Proof.
  intros Hne. unfold match_pair.
  destruct (os !! bi) as [buy|] eqn:Eb; [|reflexivity].
  destruct (os !! si) as [sell|] eqn:Es; [|reflexivity].
  destruct (Qle_bool _ _); [|reflexivity].
  cbv zeta. destruct (0 <? _); [|reflexivity].
  f_equal. apply list_eq. intros j.
  destruct (decide (j = bi)) as [->|Hb]; [|destruct (decide (j = si)) as [->|Hs]].
  - repeat first [rewrite list_lookup_alter_eq
                 | rewrite list_lookup_alter_ne by congruence].
    rewrite Eb. reflexivity.
  - repeat first [rewrite list_lookup_alter_eq
                 | rewrite list_lookup_alter_ne by congruence].
    rewrite Es. reflexivity.
  - repeat (rewrite list_lookup_alter_ne by congruence). reflexivity.
Qed.

Lemma matched_snoc ms m : matched (ms ++ [m]) = matched ms + fill m.
Proof.
  unfold matched. induction ms as [|m' ms IH]; cbn; [lia|].
  rewrite IH. lia.
Qed.

Lemma filled_on_cons s x l :
  filled_on s (x :: l)
  = if String.eqb (side x) s then filled x + filled_on s l else filled_on s l.
Proof. reflexivity. Qed.

Lemma filled_on_bump s f j l o :
  l !! j = Some o ->
  filled_on s (alter (bump f) j l)
  = filled_on s l + (if String.eqb (side o) s then f else 0).
Proof.
  revert j. induction l as [|x l IH]; intros [|j] Hl; try discriminate.
  - injection Hl as ->.
    change (alter (bump f) 0%nat (o :: l)) with (bump f o :: l).
    rewrite !filled_on_cons.
    change (side (bump f o)) with (side o).
    change (filled (bump f o)) with (filled o + f).
    destruct (String.eqb (side o) s); lia.
  - change (alter (bump f) (S j) (x :: l)) with (x :: alter (bump f) j l).
    rewrite !filled_on_cons, (IH j Hl).
    destruct (String.eqb (side x) s), (String.eqb (side o) s); lia.
Qed.

Lemma bump_further f o0 o :
  filled_further o0 o -> 0 < f -> f <= amount o - filled o ->
  filled_further o0 (bump f o).
Proof.
  intros ((Hid & Ho & Hp & Hs & Hpr & Ha) & Hle & Hb) Hf Hrem.
  split; [repeat split; assumption|]. cbn. split; [lia|]. right. lia.
Qed.

Lemma match_pair_matching os0 poolId_ bi si st :
  picked os0 poolId_ "buy" bi -> picked os0 poolId_ "sell" si ->
  matching os0 poolId_ st -> matching os0 poolId_ (match_pair bi si st).
Proof.
  intros (b0 & Hb0 & Hbp & Hbs & Hbo) (s0 & Hs0 & Hsp & Hss & Hso) Hinv.
  assert (Hne : bi <> si) by (intros ->; congruence).
  destruct st as [os ms]. rewrite (match_pair_step _ _ _ _ Hne).
  destruct Hinv as (Hkept & Hlen & Hrest & Hbuy & Hsell & Hms).
  cbn [fst snd] in *.
  destruct (Hkept _ _ Hb0) as (buy & Eb & Fb).
  destruct (Hkept _ _ Hs0) as (sell & Es & Fs).
  rewrite Eb, Es.
  destruct (Qle_bool (price sell) (price buy)) eqn:Ep;
    [|repeat split; assumption].
  cbv zeta.
  destruct (Z.ltb_spec 0 (Z.min (amount buy - filled buy)
                                (amount sell - filled sell))) as [Hf|Hf];
    [|repeat split; assumption].
  set (f := Z.min (amount buy - filled buy) (amount sell - filled sell)) in *.
  pose proof Fb as ((Hbid & _ & _ & Hbside & Hbprice & Hbam) & Hble & _).
  pose proof Fs as ((Hsid & _ & _ & Hsside & Hsprice & Hsam) & Hsle & _).
  split; [|split; [|split; [|split; [|split]]]]; cbn [fst snd].
  - intros i o0 Hi.
    destruct (Hkept _ _ Hi) as (o & Eo & Fo).
    destruct (decide (i = bi)) as [->|Hib];
      [|destruct (decide (i = si)) as [->|His]].
    + rewrite list_lookup_alter_eq, list_lookup_alter_ne, Eb by congruence.
      exists (bump f buy). split; [reflexivity|].
      assert (o0 = b0) by congruence. subst o0.
      apply bump_further; [assumption|assumption|lia].
    + rewrite list_lookup_alter_ne, list_lookup_alter_eq, Es by congruence.
      exists (bump f sell). split; [reflexivity|].
      assert (o0 = s0) by congruence. subst o0.
      apply bump_further; [assumption|assumption|lia].
    + rewrite !list_lookup_alter_ne by congruence. eauto.
  - rewrite !length_alter. exact Hlen.
  - intros i Hnb Hns.
    assert (i <> bi) by (intros ->; apply Hnb; exists b0; auto).
    assert (i <> si) by (intros ->; apply Hns; exists s0; auto).
    rewrite !list_lookup_alter_ne by congruence. auto.
  - rewrite (filled_on_bump _ _ _ _ buy)
      by (rewrite list_lookup_alter_ne by congruence; exact Eb).
    rewrite (filled_on_bump _ _ _ _ sell Es).
    rewrite Hbside, Hbs, Hsside, Hss, matched_snoc, Hbuy. cbn. lia.
  - rewrite (filled_on_bump _ _ _ _ buy)
      by (rewrite list_lookup_alter_ne by congruence; exact Eb).
    rewrite (filled_on_bump _ _ _ _ sell Es).
    rewrite Hbside, Hbs, Hsside, Hss, matched_snoc, Hsell. cbn. lia.
  - apply Forall_app. split; [exact Hms|].
    apply Forall_cons. split; [|apply Forall_nil; exact I].
    split; [exact Hf|].
    exists bi, si, b0, s0. cbn.
    rewrite <- Hbid, <- Hsid, <- Hsprice, <- Hbprice, <- Hbam, <- Hsam.
    apply Qle_bool_iff in Ep.
    repeat split; try assumption; try reflexivity; lia.
Qed.

Lemma match_loop_matching os0 poolId_ buys sells st :
  Forall (picked os0 poolId_ "buy") buys ->
  Forall (picked os0 poolId_ "sell") sells ->
  matching os0 poolId_ st -> matching os0 poolId_ (match_loop buys sells st).
Proof.
  intros Hb Hs. unfold match_loop. revert st.
  induction Hb as [|bi buys Hbi _ IHb]; intros st Hinv; cbn; [assumption|].
  apply IHb. clear IHb. revert st Hinv.
  induction Hs as [|si sells Hsi _ IHs]; intros st Hinv; cbn; [assumption|].
  apply IHs. apply match_pair_matching; assumption.
Qed.

Lemma same_terms_refl o : same_terms o o.
Proof. repeat split. Qed.

Lemma match_matching poolId_ ob :
  matching (orders ob) poolId_
           (orders (snd (match_ poolId_ ob)), fst (match_ poolId_ ob))
  /\ counter (snd (match_ poolId_ ob)) = counter ob.
Proof.
  unfold match_.
  pose proof (match_loop_matching (orders ob) poolId_
    (map fst (sort_by desc (filter_from 0 (selects poolId_ "buy") (orders ob))))
    (map fst (sort_by asc (filter_from 0 (selects poolId_ "sell") (orders ob))))
    (orders ob, [])
    (selected_picked _ _ _ _) (selected_picked _ _ _ _)) as H.
  destruct (match_loop _ _ _) as [os ms]. cbn [fst snd orders counter].
  split; [|reflexivity]. apply H.
  split; [|split; [|split; [|split; [|split]]]]; cbn [fst snd].
  - intros i o0 Hi. exists o0. split; [exact Hi|].
    split; [apply same_terms_refl|]. split; [lia|]. left. reflexivity.
  - reflexivity.
  - reflexivity.
  - cbn. lia.
  - cbn. lia.
  - apply Forall_nil. exact I.
Qed.

(** X10.  A run of the matcher keeps the book and the terms of every
    order: as many orders at the same positions and the same counter; each
    order keeps its id, owner, pool, side, price and amount; its filled
    quantity does not go down, and where it has changed it is at most the
    amount; an order of another pool, or one that was not open, is exactly
    as before. *)
Theorem match_keeps_terms (ob : OrderBook.t) (poolId_ : string) :
  length (orders (snd (match_ poolId_ ob))) = length (orders ob)
  /\ counter (snd (match_ poolId_ ob)) = counter ob
  /\ forall i o0, orders ob !! i = Some o0 ->
       exists o, orders (snd (match_ poolId_ ob)) !! i = Some o
         /\ same_terms o0 o
         /\ filled o0 <= filled o
         /\ (filled o = filled o0 \/ filled o <= amount o)
         /\ (poolId o0 <> poolId_ \/ status o0 <> Open -> o = o0).
Proof.
  destruct (match_matching poolId_ ob)
    as ((Hkept & Hlen & Hrest & _) & Hc). cbn [fst snd] in *.
  split; [exact Hlen|]. split; [exact Hc|].
  intros i o0 Hi.
  destruct (Hkept _ _ Hi) as (o & Eo & Hterms & Hle & Hb).
  exists o. split; [exact Eo|]. split; [exact Hterms|]. split; [exact Hle|].
  split.
  - destruct Hterms as (_ & _ & _ & _ & _ & Ha). rewrite Ha. exact Hb.
  - intros Hother.
    assert (E : orders (snd (match_ poolId_ ob)) !! i = orders ob !! i).
    { apply Hrest; intros (o1 & H1 & Hp & _ & Ho);
        assert (o1 = o0) by congruence; subst o1;
        destruct Hother; contradiction. }
    congruence.
Qed.

(** X11.  The matcher conserves quantity: the quantity filled on the buy
    side grows by the sum of the fills of the matches returned, and so
    does the quantity filled on the sell side. *)
Theorem match_conserves (ob : OrderBook.t) (poolId_ : string) :
  filled_on "buy" (orders (snd (match_ poolId_ ob)))
  = filled_on "buy" (orders ob) + matched (fst (match_ poolId_ ob))
  /\ filled_on "sell" (orders (snd (match_ poolId_ ob)))
     = filled_on "sell" (orders ob) + matched (fst (match_ poolId_ ob)).
Proof.
  destruct (match_matching poolId_ ob)
    as ((_ & _ & _ & Hbuy & Hsell & _) & _). cbn [fst snd] in *.
  split; assumption.
Qed.

(** X12.  Every match returned pairs a buy and a sell that were open
    orders of the pool at the call and whose prices cross (sell price <=
    buy price); it carries their ids, trades at the price of the sell, and
    its quantity is positive and at most what each of the two had left at
    the call. *)
Theorem match_pairs_cross (ob : OrderBook.t) (poolId_ : string) :
  Forall (crossing (orders ob) poolId_) (fst (match_ poolId_ ob)).
Proof.
  destruct (match_matching poolId_ ob)
    as ((_ & _ & _ & _ & _ & Hms) & _). cbn [fst snd] in *.
  exact Hms.
Qed.

(** *** Ids *)

Lemma ord_id_inj (a b : N) :
  "ORD-" +:+ pretty a = "ORD-" +:+ pretty b -> a = b.
Proof.
  cbn. intros [= H]. exact (pretty_N_inj _ _ H).
Qed.

Lemma book_ids_differ ob i j oi oj :
  Sound.book ob -> orders ob !! i = Some oi -> orders ob !! j = Some oj ->
  id oi = id oj -> i = j.
Proof.
  intros [_ Hid] Hi Hj E.
  rewrite (Hid _ _ Hi), (Hid _ _ Hj) in E.
  apply ord_id_inj in E. lia.
Qed.

Lemma find_id_first orderId l i o :
  l !! i = Some o -> id o = orderId ->
  (forall j o', (j < i)%nat -> l !! j = Some o' -> id o' <> orderId) ->
  find_id orderId l = Some i.
Proof.
  revert i. induction l as [|x l IH]; intros [|i] Hl Ho Hfirst;
    try discriminate; cbn.
  - injection Hl as ->. apply String.eqb_eq in Ho. rewrite Ho. reflexivity.
  - destruct (String.eqb_spec (id x) orderId) as [E|_].
    + exfalso. apply (Hfirst 0%nat x); [lia|reflexivity|exact E].
    + rewrite (IH i Hl Ho); [reflexivity|].
      intros j o' Hj Hlj. apply (Hfirst (S j) o'); [lia|exact Hlj].
Qed.

Lemma book_find ob i o :
  Sound.book ob -> orders ob !! i = Some o ->
  find_id (id o) (orders ob) = Some i.
Proof.
  intros Hb Hi. apply (find_id_first _ _ _ o Hi eq_refl).
  intros j o' Hj Hlj E.
  pose proof (book_ids_differ _ _ _ _ _ Hb Hlj Hi E). lia.
Qed.

Lemma place_book owner_ poolId_ side_ price_ amount_ ob :
  Sound.book ob -> Sound.book (snd (place owner_ poolId_ side_ price_ amount_ ob)).
Proof.
  intros [Hc Hid]. unfold place, Sound.book. cbn [snd orders counter].
  split.
  - rewrite length_app. cbn. lia.
  - intros i o Hi. apply lookup_app_Some in Hi as [Hi|[Hlen Hi]].
    + exact (Hid _ _ Hi).
    + destruct (i - length (orders ob))%nat as [|n] eqn:En; [|discriminate].
      cbn in Hi. injection Hi as <-. cbn [id].
      rewrite Hc. f_equal. f_equal. lia.
Qed.

Lemma cancel_book orderId ob : Sound.book ob -> Sound.book (cancel orderId ob).
Proof.
  intros [Hc Hid]. unfold cancel.
  destruct (find_id orderId (orders ob)) as [i|]; [|split; assumption].
  split; cbn [orders counter].
  - rewrite length_alter. exact Hc.
  - intros j o Hj. destruct (decide (j = i)) as [->|Hne].
    + rewrite list_lookup_alter_eq in Hj.
      destruct (orders ob !! i) as [o0|] eqn:E; [|discriminate].
      injection Hj as <-. exact (Hid _ _ E).
    + rewrite list_lookup_alter_ne in Hj by congruence. exact (Hid _ _ Hj).
Qed.

Lemma match_book poolId_ ob : Sound.book ob -> Sound.book (snd (match_ poolId_ ob)).
Proof.
  intros [Hc Hid].
  destruct (match_matching poolId_ ob)
    as ((Hkept & Hlen & _) & Hcount). cbn [fst snd] in *.
  split.
  - rewrite Hcount, Hlen. exact Hc.
  - intros i o Hi.
    destruct (orders ob !! i) as [o0|] eqn:E.
    + destruct (Hkept _ _ E) as (o' & Eo & (Hsame & _) & _).
      assert (o' = o) by congruence. subst o'.
      rewrite Hsame. exact (Hid _ _ E).
    + apply lookup_lt_Some in Hi. apply lookup_ge_None in E. lia.
Qed.

(** X13.  Ids are unique.  In a book whose counter is its number of orders
    and whose order at position [i] has the id made from [i] (as the empty
    book has), [place], [match_] and [cancel] keep it so; two different
    positions never hold the same id, and [find], which [cancel] uses,
    reaches the very order whose id it is given. *)
Theorem book_ids_unique (ob : OrderBook.t) (Hb : Sound.book ob) :
  (forall owner_ poolId_ side_ price_ amount_,
      Sound.book (snd (place owner_ poolId_ side_ price_ amount_ ob)))
  /\ (forall poolId_, Sound.book (snd (match_ poolId_ ob)))
  /\ (forall orderId, Sound.book (cancel orderId ob))
  /\ (forall i j oi oj,
        orders ob !! i = Some oi -> orders ob !! j = Some oj ->
        id oi = id oj -> i = j)
  /\ (forall i o, orders ob !! i = Some o ->
        find_id (id o) (orders ob) = Some i).
Proof.
  split; [|split; [|split; [|split]]].
  - intros. apply place_book. exact Hb.
  - intros. apply match_book. exact Hb.
  - intros. apply cancel_book. exact Hb.
  - intros i j oi oj. apply book_ids_differ. exact Hb.
  - intros i o. apply book_find. exact Hb.
Qed.

Lemma new_book : Sound.book OrderBook.new.
Proof. split; [reflexivity|]. intros i o Hi. destruct i; discriminate Hi. Qed.

Lemma book_ids_unique_witness :
  Sound.book OrderBook.new
  /\ Sound.book (snd (place "alice" "CRWN-USDT" "buy" 2 5 OrderBook.new)).
Proof.
  split; [exact new_book|].
  exact (proj1 (book_ids_unique OrderBook.new new_book) _ _ _ _ _).
Defined.

(** X14.  An order placed and then cancelled by the id that [place]
    returned: in a book with unique ids the call cancels that order, the
    last of the book, and leaves every older order as it was. *)
Theorem place_then_cancel (ob : OrderBook.t) (Hb : Sound.book ob)
  (owner_ poolId_ side_ : string) (price_ : Q) (amount_ : Z) :
  let o := fst (place owner_ poolId_ side_ price_ amount_ ob) in
  let ob1 := snd (place owner_ poolId_ side_ price_ amount_ ob) in
  cancel (id o) ob1
  = {| orders := orders ob ++ [Sound.cancelled o];
       counter := (counter ob + 1)%N |}
  /\ status o = Open /\ filled o = 0 /\ amount o = amount_.
Proof.
  cbv zeta.
  pose proof (place_book owner_ poolId_ side_ price_ amount_ ob Hb) as Hb1.
  set (o := fst (place owner_ poolId_ side_ price_ amount_ ob)).
  set (ob1 := snd (place owner_ poolId_ side_ price_ amount_ ob)) in *.
  assert (Hl : orders ob1 !! length (orders ob) = Some o).
  { unfold ob1, o, place. cbn [fst snd orders].
    rewrite lookup_app_r by lia. rewrite Nat.sub_diag. reflexivity. }
  split; [|repeat split].
  unfold cancel. rewrite (book_find _ _ _ Hb1 Hl).
  unfold ob1, place. cbn [snd orders counter]. f_equal.
  replace (length (orders ob)) with (length (orders ob) + 0)%nat at 1 by lia.
  rewrite alter_app_r. reflexivity.
Qed.

Lemma place_then_cancel_witness :
  status (default (fst (place "alice" "CRWN-USDT" "buy" 2 5 OrderBook.new))
            (last (orders
               (cancel "ORD-0"
                  (snd (place "alice" "CRWN-USDT" "buy" 2 5 OrderBook.new))))))
  = Cancelled.
Proof.
  pose proof (place_then_cancel OrderBook.new new_book
                "alice" "CRWN-USDT" "buy" 2 5) as H.
  cbv zeta in H. destruct H as [H _].
  change (id (fst (place "alice" "CRWN-USDT" "buy" 2 5 OrderBook.new)))
    with "ORD-0" in H.
  rewrite H. reflexivity.
Defined.

End BookMore.

(** ** The wallet store: one row at a time *)
Section WalletMore.
Import CrownyDB.

Lemma setBalance_frame userId token b db k :
  k <> (userId, token) ->
  wallets (setBalance userId token b db) !! k = wallets db !! k.
Proof. intros Hk. cbn. apply lookup_insert_ne. congruence. Qed.


(** X15.  A wallet call writes one row.  [addBalance], [mint],
    [subtractBalance], [lockBalance] and [unlockBalance] for a user and a
    token leave every other wallet row, the auto-trade configurations and
    the venue orders as they were, whether they return or throw; and a
    call that throws has written nothing at all. *)
Theorem wallet_call_writes_one_row (userId token : string) (amount : Q)
  (db : CrownyDB.t) (call : DBM unit)
  (Hcall : call = addBalance userId token amount
           \/ call = mint userId token amount
           \/ call = subtractBalance userId token amount
           \/ call = lockBalance userId token amount
           \/ call = unlockBalance userId token amount) :
  (forall k, k <> (userId, token) ->
             wallets (snd (call db)) !! k = wallets db !! k)
  /\ auto_trade_config (snd (call db)) = auto_trade_config db
  /\ exchange_orders (snd (call db)) = exchange_orders db
  /\ (forall e, fst (call db) = inl e -> snd (call db) = db).
Proof.
  destruct Hcall as [-> | [-> | [-> | [-> | ->]]]].
  - unfold addBalance, Eff.bind, Eff.get, Eff.put. cbn [fst snd].
    split; [intros k Hk; apply setBalance_frame; exact Hk|].
    repeat split; try reflexivity. discriminate.
  - unfold mint, addBalance, Eff.bind, Eff.get, Eff.put. cbn [fst snd].
    split; [intros k Hk; apply setBalance_frame; exact Hk|].
    repeat split; try reflexivity. discriminate.
  - unfold subtractBalance, Eff.bind, Eff.get, Eff.put, Eff.throw.
    destruct (Qltb _ _); cbn [fst snd].
    + repeat split; reflexivity.
    + split; [intros k Hk; apply setBalance_frame; exact Hk|].
      repeat split; try reflexivity. discriminate.
  - unfold lockBalance, Eff.bind, Eff.get, Eff.put, Eff.throw.
    destruct (Qltb _ _); cbn [fst snd].
    + repeat split; reflexivity.
    + split; [intros k Hk; cbn; apply lookup_alter_ne; congruence|].
      repeat split; try reflexivity. discriminate.
  - unfold unlockBalance, Eff.bind, Eff.get, Eff.put. cbn [fst snd].
    split; [intros k Hk; cbn; apply lookup_alter_ne; congruence|].
    repeat split; try reflexivity. discriminate.
Qed.

Lemma wallet_call_writes_one_row_witness :
  wallets (snd (subtractBalance "alice" "USDT" 50 Scenario.locked_wallet))
    !! ("bob", "USDT")
  = wallets Scenario.locked_wallet !! ("bob", "USDT").
Proof.
  refine (proj1 (wallet_call_writes_one_row "alice" "USDT" 50
                   Scenario.locked_wallet _ _) ("bob", "USDT") _).
  - right. right. left. reflexivity.
  - discriminate.
Defined.







End WalletMore.

(** ** The executor: what a call leaves in the store *)
Section ExecutorMore.
Import CrownyDB TradeExecutor.

Variable has_keys : string -> string -> bool.
Variable venue : string -> string -> string -> Q -> option Q -> string
                 -> string + VenueResult.

(** The update of the row just inserted. *)
Lemma update_inserted f w c l row :
  updateExchangeOrder (Z.of_nat (length l) + 1) f
    {| wallets := w; auto_trade_config := c; exchange_orders := l ++ [row] |}
  = {| wallets := w; auto_trade_config := c; exchange_orders := l ++ [f row] |}.
Proof.
  unfold updateExchangeOrder. cbn [wallets auto_trade_config exchange_orders].
  destruct (Z.ltb_spec 0 (Z.of_nat (length l) + 1)) as [_|]; [|lia].
  f_equal.
  replace (Z.to_nat (Z.of_nat (length l) + 1 - 1)) with (length l + 0)%nat by lia.
  rewrite alter_app_r. reflexivity.
Qed.

Lemma substring_length n s : (String.length (String.substring 0 n s) <= n)%nat.
Proof.
  revert s. induction n as [|n IH]; intros [|a s]; cbn; try lia.
  specialize (IH s). lia.
Qed.

(** What [executeOrder] does, by the outcome of its steps. *)
Lemma executeOrder_cases userId exchange symbol side type quantity price
  source aiSignalId db :
  let row := pending_row userId exchange symbol side type quantity price
                         source aiSignalId in
  let oid := Z.of_nat (length (exchange_orders db)) + 1 in
  let failed e :=
    (inl e : error + Receipt,
     {| wallets := wallets db; auto_trade_config := auto_trade_config db;
        exchange_orders :=
          exchange_orders db ++ [set_failed (error_message e) row] |}) in
  let done res :=
    (inr {| r_orderId := oid; r_exchangeResult := Some res;
            r_exchange := exchange; r_symbol := symbol; r_side := side;
            r_type := type; r_quantity := quantity; r_price := price |},
     incrementDailyTrades userId exchange
       {| wallets := wallets db; auto_trade_config := auto_trade_config db;
          exchange_orders :=
            exchange_orders db ++ [set_submitted price res row] |}) in
  let answer (r : string + VenueResult) :=
    match r with inl msg => failed (VenueError msg) | inr res => done res end in
  executeOrder has_keys venue userId exchange symbol side type quantity price
               source aiSignalId db
  = if negb (fst (_checkSafety userId exchange side quantity price db))
    then (inl (SafetyBlocked
                 (snd (_checkSafety userId exchange side quantity price db))),
          db)
    else if negb (has_keys userId exchange) then failed NoApiKey
    else if String.eqb exchange "upbit" then
      answer (venue exchange symbol
                (if String.eqb side "buy" then "bid" else "ask") quantity price
                (if String.eqb type "market"
                 then (if String.eqb side "buy" then "price" else "market")
                 else "limit"))
    else if String.eqb exchange "binance" then
      answer (venue exchange symbol side quantity price type)
    else failed UnsupportedExchange.
Proof.
  cbv zeta.
  unfold executeOrder, Eff.bind, Eff.get, Eff.put, Eff.throw, Eff.try_catch,
    Eff.modify, Eff.ret.
  destruct (negb (fst (_checkSafety userId exchange side quantity price db)));
    [reflexivity|].
  cbv beta iota delta [saveExchangeOrder].
  unfold _getTrader, call_venue, Eff.throw, Eff.ret.
  fold (pending_row userId exchange symbol side type quantity price
                    source aiSignalId).
  destruct (negb (has_keys userId exchange)).
  { cbv beta iota. rewrite update_inserted. reflexivity. }
  destruct (String.eqb exchange "upbit") eqn:Eu.
  { cbn [orb]. cbv beta iota.
    destruct (venue _ _ _ _ _ _); cbv beta iota;
      rewrite update_inserted; reflexivity. }
  cbn [orb].
  destruct (String.eqb exchange "binance") eqn:Eb.
  { cbv beta iota.
    destruct (venue _ _ _ _ _ _); cbv beta iota;
      rewrite update_inserted; reflexivity. }
  cbv beta iota. rewrite update_inserted. reflexivity.
Qed.

Lemma checkSafety_errors userId exchange side quantity price db :
  fst (_checkSafety userId exchange side quantity price db) = false ->
  snd (_checkSafety userId exchange side quantity price db) <> [].
Proof.
  unfold _checkSafety. cbn [fst snd].
  destruct (match getAutoTradeConfig userId exchange db with
            | Some _ => _ | None => _ end); [discriminate|].
  intros _. discriminate.
Qed.

Lemma executeOrder_throws userId exchange symbol side type quantity price
  source aiSignalId db e db' :
  executeOrder has_keys venue userId exchange symbol side type quantity price
               source aiSignalId db = (inl e, db') ->
  (fst (_checkSafety userId exchange side quantity price db) = false
   /\ e = SafetyBlocked
            (snd (_checkSafety userId exchange side quantity price db))
   /\ db' = db)
  \/ (fst (_checkSafety userId exchange side quantity price db) = true
      /\ (e = NoApiKey \/ e = UnsupportedExchange \/ exists msg, e = VenueError msg)
      /\ db' = {| wallets := wallets db;
                  auto_trade_config := auto_trade_config db;
                  exchange_orders :=
                    exchange_orders db
                    ++ [set_failed (error_message e)
                          (pending_row userId exchange symbol side type
                             quantity price source aiSignalId)] |}).
Proof.
  rewrite executeOrder_cases. cbv zeta.
  destruct (fst (_checkSafety userId exchange side quantity price db)); cbn [negb].
  2:{ intros [= <- <-]. left. auto. }
  intros H. right. split; [reflexivity|].
  destruct (negb (has_keys userId exchange)).
  { injection H as <- <-. auto. }
  destruct (String.eqb exchange "upbit").
  { destruct (venue _ _ _ _ _ _) as [msg|res]; [|discriminate].
    injection H as <- <-. eauto. }
  destruct (String.eqb exchange "binance").
  { destruct (venue _ _ _ _ _ _) as [msg|res]; [|discriminate].
    injection H as <- <-. eauto. }
  injection H as <- <-. auto.
Qed.

Lemma executeOrder_returns userId exchange symbol side type quantity price
  source aiSignalId db receipt db' :
  executeOrder has_keys venue userId exchange symbol side type quantity price
               source aiSignalId db = (inr receipt, db') ->
  fst (_checkSafety userId exchange side quantity price db) = true
  /\ has_keys userId exchange = true
  /\ (exchange = "upbit" \/ exchange = "binance")
  /\ exists res,
       receipt = {| r_orderId := Z.of_nat (length (exchange_orders db)) + 1;
                    r_exchangeResult := Some res;
                    r_exchange := exchange; r_symbol := symbol; r_side := side;
                    r_type := type; r_quantity := quantity; r_price := price |}
       /\ db' = incrementDailyTrades userId exchange
                  {| wallets := wallets db;
                     auto_trade_config := auto_trade_config db;
                     exchange_orders :=
                       exchange_orders db
                       ++ [set_submitted price res
                             (pending_row userId exchange symbol side type
                                quantity price source aiSignalId)] |}.
Proof.
  rewrite executeOrder_cases. cbv zeta. intros H.
  destruct (fst (_checkSafety userId exchange side quantity price db));
    cbn [negb] in H; [|discriminate].
  split; [reflexivity|].
  destruct (has_keys userId exchange); cbn [negb] in H; [|discriminate].
  split; [reflexivity|].
  destruct (String.eqb_spec exchange "upbit").
  { destruct (venue _ _ _ _ _ _) as [msg|res]; [discriminate|].
    injection H as <- <-. split; [auto|]. eauto. }
  destruct (String.eqb_spec exchange "binance").
  { destruct (venue _ _ _ _ _ _) as [msg|res]; [discriminate|].
    injection H as <- <-. split; [auto|]. eauto. }
  discriminate.
Qed.

(** X19.  A call of [executeOrder] that throws leaves one of two stores.
    Blocked by the gate, it leaves the store as it was and the error lists
    at least one reason.  Past the gate, the error is that of the key
    manager or of the venue, and the store has exactly one more venue
    order, in status failed, with the message of the error cut to at most
    500 chars; wallets and auto-trade counters are as before: a failed
    order is not counted against the daily cap. *)
Theorem executeOrder_failure_recorded (userId exchange symbol side type : string)
  (quantity : Q) (price : option Q) (source : string) (aiSignalId : option Z)
  (db : CrownyDB.t) (e : error) (db' : CrownyDB.t)
  (H : executeOrder has_keys venue userId exchange symbol side type quantity
                    price source aiSignalId db = (inl e, db')) :
  (exists errors, e = SafetyBlocked errors /\ errors <> [] /\ db' = db)
  \/ ((e = NoApiKey \/ e = UnsupportedExchange \/ exists msg, e = VenueError msg)
      /\ wallets db' = wallets db
      /\ auto_trade_config db' = auto_trade_config db
      /\ exists row msg,
           exchange_orders db' = exchange_orders db ++ [row]
           /\ eo_status row = Failed
           /\ eo_error row = Some msg
           /\ (String.length msg <= 500)%nat
           /\ (forall m, e = VenueError m -> msg = String.substring 0 500 m)
           /\ eo_userId row = userId /\ eo_exchange row = exchange
           /\ eo_quantity row = quantity).
Proof.
  apply executeOrder_throws in H as [(Hs & -> & ->)|(_ & He & ->)].
  - left. eexists. split; [reflexivity|]. split; [|reflexivity].
    apply checkSafety_errors. exact Hs.
  - right. split; [exact He|]. cbn [wallets auto_trade_config exchange_orders].
    split; [reflexivity|]. split; [reflexivity|].
    eexists _, _. split; [reflexivity|]. cbn.
    repeat split; [apply substring_length|].
    intros m ->. reflexivity.
Qed.

(** X20.  A call of [executeOrder] that returns has passed the gate with
    keys for upbit or binance; the id returned is that of the one row it
    appended, which carries the order id, the executed quantity and
    the status of the venue (submitted when it reports none); the daily counter of
    the (user, venue) configuration is one higher and no other
    configuration has changed; the wallets are not written. *)
Theorem executeOrder_success_counted (userId exchange symbol side type : string)
  (quantity : Q) (price : option Q) (source : string) (aiSignalId : option Z)
  (db : CrownyDB.t) (receipt : Receipt) (db' : CrownyDB.t)
  (H : executeOrder has_keys venue userId exchange symbol side type quantity
                    price source aiSignalId db = (inr receipt, db')) :
  fst (_checkSafety userId exchange side quantity price db) = true
  /\ has_keys userId exchange = true
  /\ (exchange = "upbit" \/ exchange = "binance")
  /\ r_orderId receipt = Z.of_nat (length (exchange_orders db')) 
  /\ (exists res row,
        r_exchangeResult receipt = Some res
        /\ exchange_orders db' = exchange_orders db ++ [row]
        /\ eo_exchangeOrderId row = vr_orderId res
        /\ eo_filledQty row = vr_executedQty res
        /\ (vr_status res = None -> eo_status row = Submitted)
        /\ (forall s, vr_status res = Some s -> s <> "" ->
              eo_status row = VenueStatus s))
  /\ wallets db' = wallets db
  /\ (forall c, getAutoTradeConfig userId exchange db = Some c ->
        getAutoTradeConfig userId exchange db'
        = Some (with_counters c (daily_trades_used c + 1) (consecutive_losses c)))
  /\ (forall k, k <> (userId, exchange) ->
        auto_trade_config db' !! k = auto_trade_config db !! k).
Proof.
  apply executeOrder_returns in H as (Hs & Hk & Hex & res & -> & ->).
  split; [exact Hs|]. split; [exact Hk|]. split; [exact Hex|].
  cbn [r_orderId r_exchangeResult wallets incrementDailyTrades].
  split.
  { rewrite incrementDailyTrades_orders. cbn [exchange_orders].
    rewrite length_app. cbn. lia. }
  split.
  { eexists _, _. split; [reflexivity|].
    rewrite incrementDailyTrades_orders. cbn [exchange_orders].
    split; [reflexivity|]. cbn.
    repeat split.
    - intros ->. reflexivity.
    - intros s -> Hne. destruct (String.eqb_spec s ""); [contradiction|reflexivity]. }
  split; [reflexivity|].
  split.
  - intros c Hc. unfold getAutoTradeConfig in *. cbn.
    rewrite lookup_alter_eq, Hc. reflexivity.
  - intros k Hk'. cbn. apply lookup_alter_ne. congruence.
Qed.

(** *** The caps *)

Lemma checkSafety_daily userId exchange side quantity price db c :
  getAutoTradeConfig userId exchange db = Some c ->
  In DailyLimit (snd (_checkSafety userId exchange side quantity price db))
  <-> daily_cap_reached c = true.
Proof.
  intros Hc. unfold _checkSafety. rewrite Hc. cbn [snd].
  destruct (daily_cap_reached c), (loss_cap_reached c),
    (position_too_large c _ _); cbn; intuition congruence.
Qed.

Lemma checkSafety_losses userId exchange side quantity price db c :
  getAutoTradeConfig userId exchange db = Some c ->
  In ConsecutiveLosses (snd (_checkSafety userId exchange side quantity price db))
  <-> loss_cap_reached c = true.
Proof.
  intros Hc. unfold _checkSafety. rewrite Hc. cbn [snd].
  destruct (daily_cap_reached c), (loss_cap_reached c),
    (position_too_large c _ _); cbn; intuition congruence.
Qed.

Lemma executeOrder_blocked userId exchange symbol side type quantity price
  source aiSignalId db c :
  getAutoTradeConfig userId exchange db = Some c ->
  daily_cap_reached c = true \/ loss_cap_reached c = true ->
  executeOrder has_keys venue userId exchange symbol side type quantity price
               source aiSignalId db
  = (inl (SafetyBlocked
            (snd (_checkSafety userId exchange side quantity price db))), db).
Proof.
  intros Hc Hcap. rewrite executeOrder_cases. cbv zeta.
  rewrite (checkSafety_trips _ _ _ _ _ _ _ Hc).
  destruct Hcap as [-> | ->]; [reflexivity|].
  destruct (daily_cap_reached c); reflexivity.
Qed.

(** X21.  The daily cap.  When an order that returns takes the daily
    counter of the (user, venue) configuration to its maximum, every
    further order of that user on that venue is blocked for the daily
    limit and writes nothing; after [resetDailyTrades] the daily limit no
    longer blocks, provided the maximum is positive. *)
Theorem daily_cap_closes_gate (userId exchange symbol side type : string)
  (quantity : Q) (price : option Q) (source : string) (aiSignalId : option Z)
  (db : CrownyDB.t) (receipt : Receipt) (db' : CrownyDB.t) (c : AutoTradeConfig)
  (H : executeOrder has_keys venue userId exchange symbol side type quantity
                    price source aiSignalId db = (inr receipt, db'))
  (Hc : getAutoTradeConfig userId exchange db = Some c)
  (Hcap : max_daily_trades c <= daily_trades_used c + 1) :
  (forall symbol2 side2 type2 quantity2 price2 source2 aiSignalId2,
     exists errors,
       executeOrder has_keys venue userId exchange symbol2 side2 type2
                    quantity2 price2 source2 aiSignalId2 db'
       = (inl (SafetyBlocked errors), db')
       /\ In DailyLimit errors)
  /\ (0 < max_daily_trades c ->
      forall side2 quantity2 price2,
        ~ In DailyLimit
            (snd (_checkSafety userId exchange side2 quantity2 price2
                               (resetDailyTrades db')))).
Proof.
  apply executeOrder_returns in H as (_ & _ & _ & res & _ & ->).
  set (db1 := incrementDailyTrades userId exchange _).
  assert (Hc1 : getAutoTradeConfig userId exchange db1
                = Some (with_counters c (daily_trades_used c + 1)
                                      (consecutive_losses c))).
  { unfold db1, getAutoTradeConfig in *. cbn.
    rewrite lookup_alter_eq, Hc. reflexivity. }
  split.
  - intros symbol2 side2 type2 quantity2 price2 source2 aiSignalId2.
    assert (Hreached : daily_cap_reached
                         (with_counters c (daily_trades_used c + 1)
                                        (consecutive_losses c)) = true).
    { unfold daily_cap_reached. cbn. apply Z.leb_le. exact Hcap. }
    eexists. split.
    + apply (executeOrder_blocked _ _ _ _ _ _ _ _ _ _ _ Hc1). left. exact Hreached.
    + apply (checkSafety_daily _ _ _ _ _ _ _ Hc1). exact Hreached.
  - intros Hmax side2 quantity2 price2 Hin.
    assert (Hc2 : getAutoTradeConfig userId exchange (resetDailyTrades db1)
                  = Some (with_counters c 0 (consecutive_losses c))).
    { unfold getAutoTradeConfig in *. cbn [resetDailyTrades auto_trade_config].
      rewrite lookup_fmap, Hc1. reflexivity. }
    apply (checkSafety_daily _ _ _ _ _ _ _ Hc2) in Hin.
    unfold daily_cap_reached in Hin. cbn in Hin. apply Z.leb_le in Hin. lia.
Qed.

Lemma losses_recorded userId exchange db c n :
  getAutoTradeConfig userId exchange db = Some c ->
  getAutoTradeConfig userId exchange
    (Nat.iter n (recordTradeResult userId exchange false) db)
  = Some (with_counters c (daily_trades_used c)
                        (consecutive_losses c + Z.of_nat n))
  /\ wallets (Nat.iter n (recordTradeResult userId exchange false) db)
     = wallets db
  /\ exchange_orders (Nat.iter n (recordTradeResult userId exchange false) db)
     = exchange_orders db.
Proof.
  intros Hc. induction n as [|n (IH & IHw & IHo)].
  - cbn. rewrite Hc. split; [|split; reflexivity].
    destruct c. unfold with_counters. cbn. do 2 f_equal. lia.
  - rewrite Nat.iter_succ.
    set (db_n := Nat.iter n (recordTradeResult userId exchange false) db) in *.
    change (recordTradeResult userId exchange false db_n)
      with (incrementConsecutiveLosses userId exchange db_n).
    unfold incrementConsecutiveLosses.
    cbn [wallets exchange_orders]. split; [|split; assumption].
    unfold getAutoTradeConfig in *. cbn [auto_trade_config].
    rewrite lookup_alter_eq, IH. cbn. unfold with_counters. cbn.
    do 2 f_equal. lia.
Qed.

(** X22.  The loss breaker.  [n] losing results recorded for a (user,
    venue) configuration raise its loss counter by [n] and write nothing
    else; once the counter has reached the maximum every order of that
    user on that venue is blocked for consecutive losses and writes
    nothing; one profitable result puts the counter back to zero. *)
Theorem loss_streak_breaker (userId exchange : string) (db : CrownyDB.t)
  (c : AutoTradeConfig) (n : nat)
  (Hc : getAutoTradeConfig userId exchange db = Some c) :
  let db_n := Nat.iter n (recordTradeResult userId exchange false) db in
  getAutoTradeConfig userId exchange db_n
  = Some (with_counters c (daily_trades_used c)
                        (consecutive_losses c + Z.of_nat n))
  /\ wallets db_n = wallets db
  /\ exchange_orders db_n = exchange_orders db
  /\ (max_consecutive_losses c <= consecutive_losses c + Z.of_nat n ->
      forall symbol side type quantity price source aiSignalId,
      exists errors,
        executeOrder has_keys venue userId exchange symbol side type quantity
                     price source aiSignalId db_n
        = (inl (SafetyBlocked errors), db_n)
        /\ In ConsecutiveLosses errors)
  /\ getAutoTradeConfig userId exchange
       (recordTradeResult userId exchange true db_n)
     = Some (with_counters c (daily_trades_used c) 0).
Proof.
  cbv zeta.
  destruct (losses_recorded userId exchange db c n Hc) as (Hn & Hw & Ho).
  split; [exact Hn|]. split; [exact Hw|]. split; [exact Ho|]. split.
  - intros Hmax symbol side type quantity price source aiSignalId.
    assert (Hreached : loss_cap_reached
                         (with_counters c (daily_trades_used c)
                            (consecutive_losses c + Z.of_nat n)) = true).
    { unfold loss_cap_reached. cbn. apply Z.leb_le. exact Hmax. }
    eexists. split.
    + apply (executeOrder_blocked _ _ _ _ _ _ _ _ _ _ _ Hn). right. exact Hreached.
    + apply (checkSafety_losses _ _ _ _ _ _ _ Hn). exact Hreached.
  - unfold recordTradeResult at 1, resetConsecutiveLosses.
    unfold getAutoTradeConfig in *. cbn [auto_trade_config].
    rewrite lookup_alter_eq, Hn. reflexivity.
Qed.

End ExecutorMore.

Lemma executeOrder_failure_recorded_witness :
  exists row,
    CrownyDB.exchange_orders (snd (Market.last_order Market.refusing_venue))
    = [row]
    /\ CrownyDB.eo_status row = CrownyDB.Failed
    /\ CrownyDB.eo_error row = Some "insufficient funds".
Proof.
  assert (E : Market.last_order Market.refusing_venue
              = (inl (TradeExecutor.VenueError "insufficient funds"),
                 snd (Market.last_order Market.refusing_venue)))
    by (vm_compute; reflexivity).
  destruct (executeOrder_failure_recorded _ _ _ _ _ _ _ _ _ _ _ _ _ _ E)
    as [(errors & He & _)|(_ & _ & _ & row & msg & Hrows & Hst & Herr & _ & Hmsg & _)].
  - discriminate He.
  - exists row. split; [exact Hrows|]. split; [exact Hst|].
    rewrite Herr, (Hmsg _ eq_refl). reflexivity.
Defined.

Lemma executeOrder_success_counted_witness :
  CrownyDB.getAutoTradeConfig "alice" "binance"
    (snd (Market.last_order Scenario.accepting_venue))
  = Some (Scenario.config_with (1 # 10) 10 0).
Proof.
  destruct (Market.last_order Scenario.accepting_venue) as [[e|r] db'] eqn:E.
  { vm_compute in E. discriminate E. }
  unfold Market.last_order in E. cbn [snd].
  destruct (executeOrder_success_counted _ _ _ _ _ _ _ _ _ _ _ _ _ _ E)
    as (_ & _ & _ & _ & _ & _ & Hc & _).
  rewrite (Hc (Scenario.config_with (1 # 10) 9 0)); reflexivity.
Defined.

Lemma daily_cap_closes_gate_witness :
  exists errors,
    TradeExecutor.executeOrder Scenario.any_keys Scenario.accepting_venue
      "alice" "binance" "ETHUSDT" "sell" "limit" 2 (Some 3%Q) "manual" None
      (snd (Market.last_order Scenario.accepting_venue))
    = (inl (TradeExecutor.SafetyBlocked errors),
       snd (Market.last_order Scenario.accepting_venue))
    /\ In TradeExecutor.DailyLimit errors.
Proof.
  destruct (Market.last_order Scenario.accepting_venue) as [[e|r] db'] eqn:E.
  { vm_compute in E. discriminate E. }
  unfold Market.last_order in E. cbn [snd].
  assert (Hc : CrownyDB.getAutoTradeConfig "alice" "binance"
                 (Scenario.trader_db 100000 (1 # 10) 9 0)
               = Some (Scenario.config_with (1 # 10) 9 0)) by reflexivity.
  assert (Hcap : CrownyDB.max_daily_trades (Scenario.config_with (1 # 10) 9 0)
                 <= CrownyDB.daily_trades_used
                      (Scenario.config_with (1 # 10) 9 0) + 1)
    by (vm_compute; discriminate).
  exact (proj1 (daily_cap_closes_gate _ _ _ _ _ _ _ _ _ _ _ _ _ _ _ E Hc Hcap)
           "ETHUSDT" "sell" "limit" 2%Q (Some 3%Q) "manual" None).
Defined.

Lemma loss_streak_breaker_witness :
  CrownyDB.getAutoTradeConfig "alice" "binance"
    (Nat.iter 2 (TradeExecutor.recordTradeResult "alice" "binance" false)
       (Scenario.trader_db 100000 (1 # 10) 0 1))
  = Some (CrownyDB.with_counters (Scenario.config_with (1 # 10) 0 1) 0 (1 + 2)).
Proof.
  assert (Hc : CrownyDB.getAutoTradeConfig "alice" "binance"
                 (Scenario.trader_db 100000 (1 # 10) 0 1)
               = Some (Scenario.config_with (1 # 10) 0 1)) by reflexivity.
  exact (proj1 (loss_streak_breaker Scenario.any_keys Scenario.accepting_venue
                  "alice" "binance" _ _ 2 Hc)).
Defined.

(** ** The trading AI: ranges and overrides *)
Section AnalysisMore.
Import TradingAI.







(** *** The risk check *)

Lemma checkRisk_triggers symbol price balance rm pos :
  positions rm !! symbol = Some pos ->
  existsb is_stoploss (risks (fst (checkRisk symbol price balance rm)))
  = js_quot_lt (price - entryPrice pos) (entryPrice pos) (- stopLossPercent rm)
  /\ existsb is_takeprofit (risks (fst (checkRisk symbol price balance rm)))
     = js_quot_gt (price - entryPrice pos) (entryPrice pos) (takeProfitPercent rm).
Proof.
  intros Hpos. unfold checkRisk. cbv zeta. cbn [fst risks].
  assert (Hpos' : positions (if Qltb (peakBalance rm) balance
                             then set_peak balance rm else rm) !! symbol
                  = Some pos)
    by (destruct (Qltb _ _); exact Hpos).
  rewrite Hpos'.
  assert (Hsl : stopLossPercent (if Qltb (peakBalance rm) balance
                                 then set_peak balance rm else rm)
                = stopLossPercent rm) by (destruct (Qltb _ _); reflexivity).
  assert (Htp : takeProfitPercent (if Qltb (peakBalance rm) balance
                                   then set_peak balance rm else rm)
                = takeProfitPercent rm) by (destruct (Qltb _ _); reflexivity).
  rewrite Hsl, Htp. rewrite !existsb_app.
  destruct (maxDailyTrades rm <=? dailyTrades rm);
    destruct (js_quot_gt (peakBalance _ - balance) _ _);
    destruct (js_quot_lt _ _ _); destruct (js_quot_gt _ _ _);
    split; reflexivity.
Qed.

Lemma positive_not_zero e : (0 < e)%Q -> Qeq_bool e 0 = false.
Proof.
  intros He. destruct (Qeq_bool e 0) eqn:E; [|reflexivity].
  apply Qeq_bool_eq in E. lra.
Qed.

(** X24.  An open position overrides the vote.  With a position recorded
    for the symbol at a positive entry price, on at least 50 candles,
    [analyze] returns sell whenever the last close is below the entry
    price by more than the stop-loss percentage or above it by more than
    the take-profit percentage, whatever the strategies vote and whether
    or not the risk manager blocks trading. *)
Theorem position_trigger_sells (ai : TradingAI.t) (candles : list Candle)
  (symbol : string) (balance : Q) (pos : Position)
  (Hlen : (50 <= length candles)%nat)
  (Hpos : positions (riskManager ai) !! symbol = Some pos)
  (Hentry : (0 < entryPrice pos)%Q)
  (Htrigger :
     (currentPrice candles
      < entryPrice pos * (1 - stopLossPercent (riskManager ai)))%Q
     \/ (entryPrice pos * (1 + takeProfitPercent (riskManager ai))
         < currentPrice candles)%Q) :
  a_decision (fst (analyze candles symbol balance ai)) = Sell
  /\ a_trit (fst (analyze candles symbol balance ai)) = -1.
Proof.
  destruct (analyze_enough candles symbol balance ai Hlen)
    as (_ & _ & Ed & Et & _).
  assert (E : a_decision (fst (analyze candles symbol balance ai)) = Sell).
  { rewrite Ed. apply apply_risk_triggered.
    destruct (checkRisk_triggers symbol (currentPrice candles) balance
                (riskManager ai) pos Hpos) as [Hsl Htp].
    fold (currentPrice candles). rewrite Hsl, Htp.
    unfold js_quot_lt, js_quot_gt. rewrite (positive_not_zero _ Hentry).
    set (q := ((currentPrice candles - entryPrice pos) / entryPrice pos)%Q).
    destruct Htrigger as [H|H].
    - left. assert (Hq : (q < - stopLossPercent (riskManager ai))%Q).
      { apply Qlt_shift_div_r; [exact Hentry|]. lra. }
      destruct (Qle_bool (- stopLossPercent (riskManager ai)) q) eqn:E;
        [|reflexivity].
      apply Qle_bool_iff in E. lra.
    - right. assert (Hq : (takeProfitPercent (riskManager ai) < q)%Q).
      { apply Qlt_shift_div_l; [exact Hentry|]. lra. }
      destruct (Qle_bool q (takeProfitPercent (riskManager ai))) eqn:E;
        [|reflexivity].
      apply Qle_bool_iff in E. lra. }
  split; [exact E|]. rewrite Et, E. reflexivity.
Qed.

Lemma position_trigger_sells_witness :
  a_decision (fst (analyze Scenario.flat_candles "BTCUSDT" 100000
                           Market.holding_ai)) = Sell.
Proof.
  refine (proj1 (position_trigger_sells Market.holding_ai Scenario.flat_candles
                   "BTCUSDT" 100000 {| entryPrice := 200; p_amount := 1 |}
                   _ _ _ _)).
  - vm_compute. lia.
  - vm_compute. reflexivity.
  - vm_compute. reflexivity.
  - left. vm_compute. reflexivity.
Defined.

Lemma checkRisk_blocks symbol price balance rm :
  maxDailyTrades rm <= dailyTrades rm
  \/ ((0 <= maxDrawdown rm)%Q /\ (0 < peakBalance rm)%Q
      /\ (balance < peakBalance rm * (1 - maxDrawdown rm))%Q) ->
  allowed (fst (checkRisk symbol price balance rm)) = false.
Proof.
  intros H. unfold checkRisk. cbv zeta. cbn [fst allowed].
  apply negb_false_iff. rewrite !existsb_app.
  destruct H as [H|(Hmd & Hpeak & Hbal)].
  - apply Z.leb_le in H. rewrite H. reflexivity.
  - assert (Hprod : (0 <= peakBalance rm * maxDrawdown rm)%Q)
      by (apply Qmult_le_0_compat; lra).
    rewrite (Qltb_elim_false (peakBalance rm) balance) by lra.
    unfold js_quot_gt. rewrite (positive_not_zero _ Hpeak).
    set (q := ((peakBalance rm - balance) / peakBalance rm)%Q).
    assert (Hq : (maxDrawdown rm < q)%Q).
    { apply Qlt_shift_div_l; [exact Hpeak|]. lra. }
    destruct (Qle_bool q (maxDrawdown rm)) eqn:E.
    { apply Qle_bool_iff in E. lra. }
    cbn. rewrite orb_true_r. reflexivity.
Qed.

(** X25.  A blocked risk manager never buys.  When the trades of the day
    have reached their maximum, or the balance has fallen below the peak
    by more than the maximal draw-down, [analyze] does not return buy,
    whatever the candles and the votes; on at least 50 candles its risk
    report says that trading is not allowed. *)
Theorem blocked_never_buys (ai : TradingAI.t) (candles : list Candle)
  (symbol : string) (balance : Q)
  (Hblock :
     maxDailyTrades (riskManager ai) <= dailyTrades (riskManager ai)
     \/ ((0 <= maxDrawdown (riskManager ai))%Q
         /\ (0 < peakBalance (riskManager ai))%Q
         /\ (balance < peakBalance (riskManager ai)
                       * (1 - maxDrawdown (riskManager ai)))%Q)) :
  a_decision (fst (analyze candles symbol balance ai)) <> Buy
  /\ a_trit (fst (analyze candles symbol balance ai)) <> 1
  /\ ((50 <= length candles)%nat ->
      exists risk, a_risk (fst (analyze candles symbol balance ai)) = Some risk
                   /\ allowed risk = false).
Proof.
  destruct (Nat.ltb_spec (length candles) 50) as [Hshort|Hlen].
  - unfold analyze. apply Nat.ltb_lt in Hshort. rewrite Hshort. cbn.
    split; [discriminate|]. split; [discriminate|]. 
    apply Nat.ltb_lt in Hshort. intros. lia.
  - destruct (analyze_enough candles symbol balance ai Hlen)
      as (_ & _ & Ed & Et & Er).
    pose proof (checkRisk_blocks symbol
                  (close (List.last candles (mkCandle 0 0 0 0 0))) balance
                  (riskManager ai) Hblock) as Hno.
    assert (E : a_decision (fst (analyze candles symbol balance ai)) <> Buy).
    { rewrite Ed. unfold apply_risk. rewrite Hno. cbn [negb].
      destruct (_ || _); discriminate. }
    split; [exact E|]. split.
    + rewrite Et. destruct (a_decision _); [congruence|discriminate|discriminate].
    + intros _. eexists. split; [exact Er|exact Hno].
Qed.

Lemma blocked_never_buys_witness :
  a_decision (fst (analyze Scenario.flat_candles "BTCUSDT" 100000
                           Scenario.after_backtest)) <> Buy.
Proof.
  refine (proj1 (blocked_never_buys Scenario.after_backtest
                   Scenario.flat_candles "BTCUSDT" 100000 _)).
  right. split; [|split]; vm_compute; reflexivity || discriminate.
Defined.

(** X26.  [analyze] writes the peak and nothing else: the strategies, the
    positions, the count of the day and the limits of the risk manager are
    as before; the peak balance does not go down, and after an analysis of
    at least 50 candles it is at least the balance given.  On a short
    series nothing is written at all. *)
Theorem analyze_writes_only_peak (ai : TradingAI.t) (candles : list Candle)
  (symbol : string) (balance : Q) :
  let ai' := snd (analyze candles symbol balance ai) in
  strategies ai' = strategies ai
  /\ riskManager ai'
     = set_peak (peakBalance (riskManager ai')) (riskManager ai)
  /\ (peakBalance (riskManager ai) <= peakBalance (riskManager ai'))%Q
  /\ ((50 <= length candles)%nat ->
      (balance <= peakBalance (riskManager ai'))%Q)
  /\ ((length candles < 50)%nat -> ai' = ai).
Proof.
  cbv zeta. unfold analyze.
  destruct (Nat.ltb_spec (length candles) 50) as [Hshort|Hlen]; cbn [snd].
  - split; [reflexivity|]. split; [destruct (riskManager ai); reflexivity|].
    split; [lra|]. split; [lia|reflexivity].
  - unfold checkRisk. cbv zeta. cbn [snd strategies riskManager].
    split; [reflexivity|].
    destruct (Qltb (peakBalance (riskManager ai)) balance) eqn:E.
    + apply Qltb_true in E. cbn [set_peak peakBalance].
      split; [reflexivity|]. split; [lra|]. split; [intros; lra|lia].
    + apply Qltb_false in E.
      split; [destruct (riskManager ai); reflexivity|].
      split; [lra|]. split; [intros; assumption|lia].
Qed.

End AnalysisMore.

(** ** The gateway: counters and the event log *)
Section GatewayMore.
Import MetaKernelGateway.

Variable A : Type.
Variables _routeDex _routeAI _routeExchange _routeAutoTrade
  : string -> string -> Eff.M (list Event) string A.

Abbreviation route_ := (route A _routeDex _routeAI _routeExchange _routeAutoTrade).

Lemma checkRateLimit_frame userId_ now g other :
  other <> userId_ ->
  rateLimits (snd (_checkRateLimit userId_ now g)) !! other
  = rateLimits g !! other.
Proof.
  intros Hne. unfold _checkRateLimit. cbn. apply lookup_insert_ne. congruence.
Qed.

Lemma checkRateLimit_reads_one userId_ now g1 g2 :
  rateLimits g1 !! userId_ = rateLimits g2 !! userId_ ->
  fst (_checkRateLimit userId_ now g1) = fst (_checkRateLimit userId_ now g2).
Proof. intros H. unfold _checkRateLimit. cbn. rewrite H. reflexivity. Qed.

(** X27.  The rate limit is kept per principal, and a call that is turned
    away is counted too.  A call of one principal leaves the counter of
    every other principal as it was, so that it never changes whether a
    call of another is admitted.  A call that raises RATE_LIMITED has
    raised the counter of its principal above the limit without moving the
    end of the window, and has written no event: no router has run. *)
Theorem rate_limit_bookkeeping (g : MetaKernelGateway.t)
  (service_ action_ userId_ : string) (now : Z) :
  let g' := snd (route_ service_ action_ userId_ now g) in
  (forall other, other <> userId_ ->
     rateLimits g' !! other = rateLimits g !! other
     /\ forall now', fst (_checkRateLimit other now' g')
                     = fst (_checkRateLimit other now' g))
  /\ (fst (route_ service_ action_ userId_ now g) = inl RateLimited ->
      eventLog g' = eventLog g
      /\ exists l l',
           rateLimits g !! userId_ = Some l /\ rateLimits g' !! userId_ = Some l'
           /\ now <= resetAt l
           /\ RATE_LIMIT <= count l /\ count l' = count l + 1
           /\ resetAt l' = resetAt l).
Proof.
  cbv zeta.
  destruct (route_rate_check A _routeDex _routeAI _routeExchange _routeAutoTrade
              service_ action_ userId_ now g) as [Hadm Htab].
  split.
  - intros other Hne.
    assert (E : rateLimits (snd (route_ service_ action_ userId_ now g)) !! other
                = rateLimits g !! other)
      by (rewrite Htab; apply checkRateLimit_frame; exact Hne).
    split; [exact E|]. intros now'. apply checkRateLimit_reads_one. exact E.
  - intros Hlim. rewrite Hlim in Hadm. cbn [admitted] in Hadm.
    split.
    + revert Hlim Hadm.
      unfold route, Eff.bind, Eff.get, Eff.put, Eff.throw, Eff.modify.
      destruct (_checkRateLimit userId_ now g) as [ok g1] eqn:E.
      cbn [fst snd]. intros _ <-. cbn [negb snd].
      unfold _checkRateLimit in E. injection E as _ <-. reflexivity.
    + rewrite Htab. revert Hadm. unfold _checkRateLimit. cbn [fst snd rateLimits].
      rewrite lookup_insert_eq.
      destruct (rateLimits g !! userId_) as [l|].
      * destruct (Z.ltb_spec (resetAt l) now); cbn [count resetAt].
        { intros H'. symmetry in H'. apply Z.leb_gt in H'.
          unfold RATE_LIMIT in H'. lia. }
        intros H'. symmetry in H'. apply Z.leb_gt in H'.
        exists l, {| count := count l + 1; resetAt := resetAt l |}.
        cbn [count resetAt]. repeat split; lia.
      * cbn [count resetAt]. intros H'. symmetry in H'. apply Z.leb_gt in H'.
        unfold RATE_LIMIT in H'. lia.
Qed.

(** *** The event log *)

Lemma length_tail_snoc (l : list Event) e :
  length (tail (l ++ [e])) = length l.
Proof. destruct l; cbn; [reflexivity|]. rewrite length_app. cbn. lia. Qed.

(** X28.  The event log is a ring of 1000 events read from its end.  On a
    log of at most 1000 events [_logEvent] puts the event last, drops the
    oldest event exactly when the log was full, and leaves at most 1000;
    [getEventLog] with a positive limit returns the newest events, as many
    as the limit or the whole log if it is shorter, and with a limit of 0
    it returns the whole log. *)
Theorem event_log_ring (g : MetaKernelGateway.t) (e : Event)
  (Hlen : (length (eventLog g) <= 1000)%nat) :
  let g' := _logEvent e g in
  (length (eventLog g') <= 1000)%nat
  /\ last (eventLog g') = Some e
  /\ ((length (eventLog g) < 1000)%nat -> eventLog g' = eventLog g ++ [e])
  /\ (length (eventLog g) = 1000%nat -> eventLog g' = tail (eventLog g) ++ [e])
  /\ rateLimits g' = rateLimits g
  /\ (forall limit, 0 < limit ->
        length (getEventLog limit g')
        = Nat.min (Z.to_nat limit) (length (eventLog g'))
        /\ exists older, eventLog g' = older ++ getEventLog limit g')
  /\ getEventLog 0 g' = eventLog g'.
Proof.
  cbv zeta.
  assert (Hget : forall log : list Event,
            (forall limit, 0 < limit ->
               length (getEventLog limit {| rateLimits := rateLimits g;
                                            eventLog := log |})
               = Nat.min (Z.to_nat limit) (length log)
               /\ exists older,
                    log = older ++ getEventLog limit
                                     {| rateLimits := rateLimits g;
                                        eventLog := log |})
            /\ getEventLog 0 {| rateLimits := rateLimits g; eventLog := log |}
               = log).
  { intros log. unfold getEventLog. cbn [eventLog]. split.
    - intros limit Hlimit. destruct (Z.ltb_spec 0 limit); [|lia].
      split; [rewrite length_drop; lia|].
      eexists. symmetry. apply take_drop.
    - cbn [Z.ltb Z.compare Z.opp]. rewrite Z.min_l by lia. reflexivity. }
  unfold _logEvent. cbn [eventLog rateLimits].
  destruct (Nat.ltb_spec 1000 (length (eventLog g ++ [e]))) as [Hfull|Hroom];
    [rewrite length_app in Hfull; cbn [length] in Hfull
    |rewrite length_app in Hroom; cbn [length] in Hroom].
  - assert (Hl : length (eventLog g) = 1000%nat) by lia.
    destruct (eventLog g) as [|e0 l] eqn:El; [discriminate|].
    cbn [tail app]. cbn [length] in Hl.
    split; [rewrite length_app; cbn; lia|].
    split; [apply last_snoc|].
    split; [cbn [length]; intros; lia|].
    split; [intros; reflexivity|]. split; [reflexivity|].
    apply Hget.
  - split; [rewrite length_app; cbn; lia|].
    split; [apply last_snoc|].
    split; [intros; reflexivity|].
    split; [intros; lia|]. split; [reflexivity|].
    apply Hget.
Qed.

End GatewayMore.

Lemma event_log_ring_witness :
  last (MetaKernelGateway.eventLog
          (MetaKernelGateway._logEvent
             (MetaKernelGateway.mkEvent "daily_reset" "" "" "")
             MetaKernelGateway.new))
  = Some (MetaKernelGateway.mkEvent "daily_reset" "" "" "").
Proof.
  assert (H : (length (MetaKernelGateway.eventLog MetaKernelGateway.new)
               <= 1000)%nat) by (cbn; lia).
  exact (proj1 (proj2 (event_log_ring MetaKernelGateway.new
                         (MetaKernelGateway.mkEvent "daily_reset" "" "" "") H))).
Defined.

(** ** The indicators *)
Section IndicatorFacts.
Import TradingAI.

Lemma rsi_value_range g l :
  (0 <= g)%Q -> (0 <= l)%Q -> (0 <= rsi_value g l <= 100)%Q.
Proof.
  intros Hg Hl. unfold rsi_value.
  destruct (Qeq_bool l 0) eqn:E; [split; lra|].
  assert (Hpos : (0 < l)%Q).
  { apply Qeq_bool_neq in E. destruct (Qlt_le_dec 0 l) as [H|H]; [exact H|].
    exfalso. apply E. lra. }
  assert (Hq : (0 <= g / l)%Q) by (apply Qle_shift_div_l; [exact Hpos|lra]).
  set (q := (g / l)%Q) in *.
  assert (Hd : (0 < 1 + q)%Q) by lra.
  assert (H1 : (0 <= 100 / (1 + q))%Q) by (apply Qle_shift_div_l; [exact Hd|lra]).
  assert (H2 : (100 / (1 + q) <= 100)%Q) by (apply Qle_shift_div_r; [exact Hd|lra]).
  split; lra.
Qed.

Lemma smoothed_nonneg avg x (period : Z) :
  0 < period -> (0 <= avg)%Q -> (0 <= x)%Q ->
  (0 <= avg + x / inject_Z period)%Q
  /\ (0 <= (avg * (inject_Z period - 1) + x) / inject_Z period)%Q.
Proof.
  intros Hp Ha Hx.
  assert (HP : (1 <= inject_Z period)%Q).
  { change 1%Q with (inject_Z 1). rewrite <- Zle_Qle. lia. }
  assert (H1 : (0 <= x / inject_Z period)%Q)
    by (apply Qle_shift_div_l; lra).
  assert (H2 : (0 <= avg * (inject_Z period - 1))%Q)
    by (apply Qmult_le_0_compat; lra).
  split; [lra|]. apply Qle_shift_div_l; lra.
Qed.

Lemma gain_loss_nonneg change :
  (0 <= (if Qltb 0 change then change else 0))%Q
  /\ (0 <= (if Qltb change 0 then - change else 0))%Q.
Proof.
  split.
  - destruct (Qltb 0 change) eqn:E; [apply Qltb_true in E|]; lra.
  - destruct (Qltb change 0) eqn:E; [apply Qltb_true in E|]; lra.
Qed.

Lemma RSI_from_spec period closes :
  0 < period ->
  forall i prev g l, (0 <= g)%Q -> (0 <= l)%Q ->
  length (RSI_from period i prev g l closes) = length closes
  /\ forall j x,
       RSI_from period i prev g l closes !! j = Some x ->
       match x with
       | Some v => period <= i + Z.of_nat j /\ (0 <= v <= 100)%Q
       | None => i + Z.of_nat j < period
       end.
Proof.
  intros Hp. induction closes as [|c rest IH]; intros i prev g l Hg Hl.
  - split; [reflexivity|]. intros j x H. destruct j; discriminate H.
  - cbn [RSI_from]. cbv zeta.
    destruct (gain_loss_nonneg (c - prev)) as [Hgain Hloss].
    set (gain := if Qltb 0 (c - prev) then (c - prev)%Q else 0%Q) in *.
    set (loss := if Qltb (c - prev) 0 then (- (c - prev))%Q else 0%Q) in *.
    destruct (smoothed_nonneg g gain period Hp Hg Hgain) as [Hg1 Hg2].
    destruct (smoothed_nonneg l loss period Hp Hl Hloss) as [Hl1 Hl2].
    destruct (Z.leb_spec i period) as [Hi|Hi].
    + destruct (IH (i + 1) c _ _ Hg1 Hl1) as [Hlen Hrest].
      split; [cbn [length]; rewrite Hlen; reflexivity|].
      intros [|j] x H.
      * injection H as <-.
        destruct (Z.ltb_spec i period); [lia|].
        split; [lia|]. apply rsi_value_range; assumption.
      * cbn in H. specialize (Hrest j x H).
        destruct x as [v|]; [destruct Hrest; split; [lia|assumption]|lia].
    + destruct (IH (i + 1) c _ _ Hg2 Hl2) as [Hlen Hrest].
      split; [cbn [length]; rewrite Hlen; reflexivity|].
      intros [|j] x H.
      * injection H as <-. split; [lia|]. apply rsi_value_range; assumption.
      * cbn in H. specialize (Hrest j x H).
        destruct x as [v|]; [destruct Hrest; split; [lia|assumption]|lia].
Qed.

(** X29.  The relative strength index is an index.  For a positive period
    [RSI] returns one entry for each close; the entry at position [j] is
    null exactly when [j] is below the period, and every other entry lies
    between 0 and 100.  [RSIStrategy.analyze] then always answers with a
    signal of 1, 0 or -1 and a confidence between 0 and 1. *)
Theorem rsi_is_an_index (closes : list Q) (period : Z) (Hp : 0 < period) :
  (exists rsi,
     RSI closes period = Some rsi
     /\ length rsi = length closes
     /\ forall j x, rsi !! j = Some x ->
          match x with
          | Some v => period <= Z.of_nat j /\ (0 <= v <= 100)%Q
          | None => Z.of_nat j < period
          end)
  /\ (forall os ob candles,
        exists verdict,
          RSIStrategy_analyze period os ob candles = Some verdict
          /\ verdict_ok verdict /\ (0 <= confidence verdict)%Q).
Proof.
  assert (Hrsi : forall cs, exists rsi,
    RSI cs period = Some rsi
    /\ length rsi = length cs
    /\ forall j x, rsi !! j = Some x ->
         match x with
         | Some v => period <= Z.of_nat j /\ (0 <= v <= 100)%Q
         | None => Z.of_nat j < period
         end).
  { intros cs. unfold RSI.
    destruct (Z.eqb_spec period 0) as [|_]; [lia|].
    eexists. split; [reflexivity|].
    destruct cs as [|c0 rest].
    - split; [reflexivity|]. intros j x H. destruct j; discriminate H.
    - destruct (RSI_from_spec period rest Hp 1 c0 0 0) as [Hlen Hrest];
        [lra|lra|].
      split; [cbn [length]; rewrite Hlen; reflexivity|].
      intros [|j] x H.
      + injection H as <-. lia.
      + cbn in H. specialize (Hrest j x H).
        destruct x as [v|]; [destruct Hrest; split; [lia|assumption]|lia]. }
  split; [apply Hrsi|].
  intros os ob candles. unfold RSIStrategy_analyze.
  destruct (Hrsi (map close candles)) as (rsi & -> & _).
  eexists. split; [reflexivity|].
  unfold verdict_ok.
  destruct (from_end 1 rsi) as [cur|]; [|cbn; repeat split; auto; lra].
  repeat match goal with
         | |- context [if ?b then _ else _] => destruct b
         end; cbn; repeat split; auto; try lra;
    unfold Qle; cbn; lia.
Qed.

Lemma rsi_is_an_index_witness :
  exists rsi, RSI [100; 101; 99; 102; 103]%Q 3 = Some rsi
              /\ length rsi = 5%nat.
Proof.
  assert (Hp : 0 < 3) by lia.
  destruct (proj1 (rsi_is_an_index [100; 101; 99; 102; 103]%Q 3 Hp))
    as (rsi & E & Hlen & _).
  exists rsi. split; [exact E|exact Hlen].
Defined.

End IndicatorFacts.

(** ** The size of an automatic order *)
Section QuantityFacts.
Import CrownyDB TradeExecutor MetaKernelGateway.







End QuantityFacts.
